(** * babrahams:transactions2 -- the transaction log engine

    A shallow embedding of [lib/transactions-common.js] (the [Transact]
    object, the three Meteor methods) and of the start-up script of the
    server side, followed by the properties of the design document that
    were checked against it.

    Conventions of the embedding.
    - JavaScript values are the type [Value]; a plain object is an
      association list in enumeration order (keys are unique in a
      well-formed object, [obj_set] keeps them so).  Numbers are integers.
    - A JavaScript exception is the [Throw] case of [Outcome]; code that
      runs after a [try]/[catch] sees the [catch] branch.
    - The application collections are an abstract collaborator
      ([AppStoreOps]); the [transactions] collection, whose fields drive
      the control flow, is a concrete list of records.
    - The built-ins the code relies on but does not define
      ([JSON.stringify], [JSON.parse], [Meteor._get]) are the fields of
      the class [Runtime].
    - Logging, timers ([_resetAutoCancel]) and user callbacks passed to
      single writes have no effect on the stores and are left out; the
      callback of [commit] is recorded as a list of invocations. *)

From Stdlib Require Import ZArith List String Ascii Bool Lia DecimalString.
From stdpp Require Import base list strings.
Import ListNotations.
Open Scope string_scope.
Open Scope list_scope.

(** ** JavaScript values *)

#[local] Set Warnings "-register-all".

Inductive Value : Type :=
| VNull
| VBool (b : bool)
| VNum (n : Z)
| VStr (s : string)
| VDate (t : Z)
| VArr (xs : list Value)
| VObj (kvs : list (string * Value)).

Definition Obj : Type := list (string * Value).

Inductive Err : Type :=
| TypeError
| SyntaxError
| StoreError
| MeteorError (code : string).

Inductive Outcome (A : Type) : Type :=
| Ok (a : A)
| Throw (e : Err).
Arguments Ok {A} a.
Arguments Throw {A} e.

Definition obind {A B} (m : Outcome A) (k : A -> Outcome B) : Outcome B :=
  match m with
  | Ok a => k a
  | Throw e => Throw e
  end.

Declare Scope outcome_scope.
Delimit Scope outcome_scope with outcome.
Notation "'do' x <- m ; k" := (obind m (fun x => k))
  (at level 10, x pattern, m at level 100, k at level 200) : outcome_scope.
Open Scope outcome_scope.

(** [_.each] over an array with a body that may throw. *)
Fixpoint each_throwing {A St} (f : St -> A -> Outcome St) (l : list A) (s : St)
  : Outcome St :=
  match l with
  | [] => Ok s
  | x :: l' => do s' <- f s x; each_throwing f l' s'
  end.

(** JavaScript truthiness. *)
Definition truthy (v : Value) : bool :=
  match v with
  | VNull => false
  | VBool b => b
  | VNum n => negb (n =? 0)%Z
  | VStr s => negb (s =? EmptyString)
  | VDate _ | VArr _ | VObj _ => true
  end.

Definition truthy_opt (o : option Value) : bool :=
  match o with
  | Some v => truthy v
  | None => false
  end.

(** [_.isObject(v) || _.isArray(v)]: objects, arrays and dates, not [null]. *)
Definition isObject (v : Value) : bool :=
  match v with
  | VObj _ | VArr _ | VDate _ => true
  | _ => false
  end.

(** ** Plain objects *)

Fixpoint obj_get (k : string) (o : Obj) : option Value :=
  match o with
  | [] => None
  | (k', v) :: o' => if k =? k' then Some v else obj_get k o'
  end.

(** [o[k] = v]: an existing key keeps its place, a new one goes last. *)
Fixpoint obj_set (k : string) (v : Value) (o : Obj) : Obj :=
  match o with
  | [] => [(k, v)]
  | (k', v') :: o' =>
      if k =? k' then (k, v) :: o' else (k', v') :: obj_set k v o'
  end.

(** [delete o[k]]. *)
Fixpoint obj_delete (k : string) (o : Obj) : Obj :=
  match o with
  | [] => []
  | (k', v') :: o' =>
      if k =? k' then o' else (k', v') :: obj_delete k o'
  end.

(** [_.extend(dst, src)]. *)
Definition obj_extend (dst src : Obj) : Obj :=
  fold_left (fun o kv => obj_set (fst kv) (snd kv) o) src dst.

Definition keys (o : Obj) : list string := map fst o.

(** [v.p] for a property [p] that no prototype defines: reading it off
    [null] throws, off a primitive, an array or a date gives [undefined]. *)
Definition get_prop (v : Value) (p : string) : Outcome (option Value) :=
  match v with
  | VNull => Throw TypeError
  | VObj kvs => Ok (obj_get p kvs)
  | _ => Ok None
  end.

(** [doc.p] where [doc] may be [undefined] or not an object; used only
    where the source has already tested [doc] for truthiness. *)
Definition field (doc : option Value) (p : string) : option Value :=
  match doc with
  | Some (VObj kvs) => obj_get p kvs
  | _ => None
  end.

(** A transaction id as it appears inside a selector or a document:
    [null] while no transaction is open. *)
Definition id_value (txid : option string) : Value :=
  match txid with
  | Some s => VStr s
  | None => VNull
  end.

(** [s.split(c)]. *)
Fixpoint split_on (c : ascii) (s : string) : list string :=
  match s with
  | EmptyString => [EmptyString]
  | String a rest =>
      if Ascii.eqb a c then EmptyString :: split_on c rest
      else match split_on c rest with
           | [] => [String a EmptyString]
           | h :: t => String a h :: t
           end
  end.

(** [s.slice(0, -1)]. *)
Fixpoint drop_last (s : string) : string :=
  match s with
  | EmptyString => EmptyString
  | String a EmptyString => EmptyString
  | String a rest => String a (drop_last rest)
  end.

(** Built-ins of the platform that the package calls. [JSON_parse] takes
    the value it is handed (the source passes whatever is stored under
    [json]); [Meteor_get obj path] is [Meteor._get(obj, path...)], with
    [None] for [undefined] on either side. *)
Class Runtime : Type := {
  JSON_stringify : Value -> string;
  JSON_parse : Value -> Outcome Value;
  Meteor_get : option Value -> list string -> Outcome (option Value)
}.

(** ** Updates, their stored form and their inverses *)

(** [{command: ..., data: {...}}] *)
Record UpdateData : Type := {
  command : string;
  data : Obj
}.

(** One [{key: ..., value: ...}] entry of the stored form. *)
Record KeyValue : Type := {
  key : string;
  value : Value
}.

(** [{command: ..., data: [{key, value}, ...]}] *)
Record Packaged : Type := {
  p_command : string;
  p_data : list KeyValue
}.

(** The options hash of a write, after [tx] has been taken out of it.
    [o_inverse] and [o_context] are [None] when the property is absent. *)
Record Opt : Type := {
  o_inverse : option UpdateData;
  o_context : option Obj;
  o_instant : bool;
  o_overridePermissionCheck : bool
}.

Definition empty_opt : Opt :=
  {| o_inverse := None; o_context := None; o_instant := false;
     o_overridePermissionCheck := false |}.

Section Packaging.
Context `{RT : Runtime}.

(** Body of the loop of [_unpackageForUpdate] for one stored value. *)
Definition unpackage_value (v : Value) : Outcome Value :=
  do j <- get_prop v "json";
  match j with
  | Some js => if truthy js then JSON_parse js else Ok v
  | None => Ok v
  end.

Definition _unpackageForUpdate (d : list KeyValue) : Outcome Obj :=
  each_throwing
    (fun objForUpdate val =>
       do unpackagedValue <- unpackage_value (value val);
       Ok (obj_set (key val) unpackagedValue objForUpdate))
    d [].

(** Body of the loop of [_packageForStorage] for one value. *)
Definition package_value (v : Value) : Value :=
  if isObject v then VObj [("json", VStr (JSON_stringify v))] else v.

Definition _packageForStorage (u : UpdateData) : Packaged :=
  {| p_command := command u;
     p_data := map (fun kv => {| key := fst kv; value := package_value (snd kv) |})
                   (data u) |}.

Definition _drillDown (obj : option Value) (k : string) : Outcome (option Value) :=
  Meteor_get obj (split_on "."%char k).

(** [collection] and [opt] are part of the signature shared by the
    entries of [inverseOperations]; this entry does not read them. *)
Definition _inverseUsingSet (collection : string) (existingDoc : option Value)
    (updateMap : Obj) (opt : Opt) : Outcome UpdateData :=
  do r <- each_throwing
            (fun acc keyName =>
               do formerVal <- _drillDown existingDoc keyName;
               match formerVal with
               | Some v => Ok ("$set", obj_set keyName v (snd acc))
               | None => Ok ("$unset", obj_set keyName (VStr EmptyString) (snd acc))
               end)
            (keys updateMap) ("$set", []);
  Ok {| command := fst r; data := snd r |}.

Definition InverseFn : Type :=
  string -> option Value -> Obj -> Opt -> Outcome UpdateData.

(** The table [this.inverseOperations] as the constructor fills it. *)
Definition inverseOperations (cmd : string) : option InverseFn :=
  if cmd =? "$set" then Some _inverseUsingSet
  else if cmd =? "$addToSet" then
    Some (fun _ _ updateMap _ => Ok {| command := "$pull"; data := updateMap |})
  else if cmd =? "$unset" then Some _inverseUsingSet
  else if cmd =? "$pull" then
    Some (fun _ _ updateMap _ => Ok {| command := "$addToSet"; data := updateMap |})
  else if cmd =? "$inc" then Some _inverseUsingSet
  else if cmd =? "$push" then
    Some (fun _ _ updateMap _ => Ok {| command := "$pull"; data := updateMap |})
  else None.

End Packaging.

(** ** Items and the persisted transaction record *)

Inductive Action : Type := ActInsert | ActUpdate | ActRemove.

Inductive State : Type := StPending | StDone | StRolledBack | StUndone.

(** One entry of [items].  Optional properties are [None] (or [false])
    when absent. *)
Record Item : Type := {
  item_collection : string;
  item_id : string;
  item_action : Action;
  item_state : State;
  item_instant : bool;
  item_noCheck : bool;
  item_newDoc : option Value;
  item_update : option Packaged;
  item_inverse : option Packaged;
  item_hardDelete : bool;
  item_doc : option Value
}.

(** A document of the [transactions] collection.  [tx_items] is [None]
    while the document has no [items] field, [tx_undone] is [None] when
    [undone] is absent or [null], [tx_expired] is [None] when [expired]
    does not exist. *)
Record TxDoc : Type := {
  tx_id : string;
  tx_user_id : option string;
  tx_description : string;
  tx_items : option (list Item);
  tx_context : Obj;
  tx_lastModified : Z;
  tx_state : State;
  tx_undone : option Z;
  tx_expired : option bool
}.

(** The modifiers the package sends to [Transactions.update]. *)
Inductive TxModifier : Type :=
| SetItems (items : list Item)
| AddToSetItems (item : Item)
| SetItemState (index : nat) (st : State)
| SetInverseValue (index i : nat) (v : Value)
| SetState (st : State)
| SetStateLastModified (st : State) (t : Z)
| SetUndoneState (t : Z) (st : State)
| UnsetUndoneSetState (st : State)
| SetExpired (b : bool).

Fixpoint Value_eqb (a b : Value) : bool :=
  match a, b with
  | VNull, VNull => true
  | VBool x, VBool y => Bool.eqb x y
  | VNum x, VNum y => (x =? y)%Z
  | VStr x, VStr y => (x =? y)%string
  | VDate x, VDate y => (x =? y)%Z
  | VArr xs, VArr ys =>
      (fix go (l1 l2 : list Value) : bool :=
         match l1, l2 with
         | [], [] => true
         | x :: l1', y :: l2' => Value_eqb x y && go l1' l2'
         | _, _ => false
         end) xs ys
  | VObj xs, VObj ys =>
      (fix go (l1 l2 : list (string * Value)) : bool :=
         match l1, l2 with
         | [], [] => true
         | (k, x) :: l1', (k', y) :: l2' =>
             (k =? k')%string && Value_eqb x y && go l1' l2'
         | _, _ => false
         end) xs ys
  | _, _ => false
  end.

Definition option_eqb {A} (eqb : A -> A -> bool) (a b : option A) : bool :=
  match a, b with
  | Some x, Some y => eqb x y
  | None, None => true
  | _, _ => false
  end.

Fixpoint list_eqb {A} (eqb : A -> A -> bool) (l1 l2 : list A) : bool :=
  match l1, l2 with
  | [], [] => true
  | x :: l1', y :: l2' => eqb x y && list_eqb eqb l1' l2'
  | _, _ => false
  end.

Definition Action_eqb (a b : Action) : bool :=
  match a, b with
  | ActInsert, ActInsert | ActUpdate, ActUpdate | ActRemove, ActRemove => true
  | _, _ => false
  end.

Definition State_eqb (a b : State) : bool :=
  match a, b with
  | StPending, StPending | StDone, StDone
  | StRolledBack, StRolledBack | StUndone, StUndone => true
  | _, _ => false
  end.

Definition KeyValue_eqb (a b : KeyValue) : bool :=
  (key a =? key b)%string && Value_eqb (value a) (value b).

Definition Packaged_eqb (a b : Packaged) : bool :=
  (p_command a =? p_command b)%string && list_eqb KeyValue_eqb (p_data a) (p_data b).

Definition Item_eqb (a b : Item) : bool :=
  (item_collection a =? item_collection b)%string
  && (item_id a =? item_id b)%string
  && Action_eqb (item_action a) (item_action b)
  && State_eqb (item_state a) (item_state b)
  && Bool.eqb (item_instant a) (item_instant b)
  && Bool.eqb (item_noCheck a) (item_noCheck b)
  && option_eqb Value_eqb (item_newDoc a) (item_newDoc b)
  && option_eqb Packaged_eqb (item_update a) (item_update b)
  && option_eqb Packaged_eqb (item_inverse a) (item_inverse b)
  && Bool.eqb (item_hardDelete a) (item_hardDelete b)
  && option_eqb Value_eqb (item_doc a) (item_doc b).

Definition set_item_state (st : State) (it : Item) : Item :=
  {| item_collection := item_collection it; item_id := item_id it;
     item_action := item_action it; item_state := st;
     item_instant := item_instant it; item_noCheck := item_noCheck it;
     item_newDoc := item_newDoc it; item_update := item_update it;
     item_inverse := item_inverse it; item_hardDelete := item_hardDelete it;
     item_doc := item_doc it |}.

Definition set_item_doc (d : option Value) (it : Item) : Item :=
  {| item_collection := item_collection it; item_id := item_id it;
     item_action := item_action it; item_state := item_state it;
     item_instant := item_instant it; item_noCheck := item_noCheck it;
     item_newDoc := item_newDoc it; item_update := item_update it;
     item_inverse := item_inverse it; item_hardDelete := item_hardDelete it;
     item_doc := d |}.

Definition set_kv_value (v : Value) (kv : KeyValue) : KeyValue :=
  {| key := key kv; value := v |}.

Definition set_item_inverse_value (i : nat) (v : Value) (it : Item) : Item :=
  {| item_collection := item_collection it; item_id := item_id it;
     item_action := item_action it; item_state := item_state it;
     item_instant := item_instant it; item_noCheck := item_noCheck it;
     item_newDoc := item_newDoc it; item_update := item_update it;
     item_inverse :=
       match item_inverse it with
       | Some p => Some {| p_command := p_command p;
                           p_data := alter (set_kv_value v) i (p_data p) |}
       | None => None
       end;
     item_hardDelete := item_hardDelete it;
     item_doc := item_doc it |}.

(** What a modifier does to the document it is applied to.  Positional
    paths ([items.<index>...]) that point outside the stored array, or
    into an absent [items] or [inverse], leave the document as it is in
    this model (the store would pad the array). [$addToSet] appends the
    item unless an equal one is already there. *)
Definition apply_TxModifier (m : TxModifier) (d : TxDoc) : TxDoc :=
  let with_items its :=
    {| tx_id := tx_id d; tx_user_id := tx_user_id d;
       tx_description := tx_description d; tx_items := its;
       tx_context := tx_context d; tx_lastModified := tx_lastModified d;
       tx_state := tx_state d; tx_undone := tx_undone d;
       tx_expired := tx_expired d |} in
  let with_status st lm un ex :=
    {| tx_id := tx_id d; tx_user_id := tx_user_id d;
       tx_description := tx_description d; tx_items := tx_items d;
       tx_context := tx_context d; tx_lastModified := lm;
       tx_state := st; tx_undone := un; tx_expired := ex |} in
  match m with
  | SetItems items => with_items (Some items)
  | AddToSetItems item =>
      match tx_items d with
      | None => with_items (Some [item])
      | Some l => if existsb (Item_eqb item) l then d
                  else with_items (Some (l ++ [item]))
      end
  | SetItemState index st =>
      with_items (option_map (alter (set_item_state st) index) (tx_items d))
  | SetInverseValue index i v =>
      with_items (option_map (alter (set_item_inverse_value i v) index) (tx_items d))
  | SetState st => with_status st (tx_lastModified d) (tx_undone d) (tx_expired d)
  | SetStateLastModified st t => with_status st t (tx_undone d) (tx_expired d)
  | SetUndoneState t st => with_status st (tx_lastModified d) (Some t) (tx_expired d)
  | UnsetUndoneSetState st => with_status st (tx_lastModified d) None (tx_expired d)
  | SetExpired b => with_status (tx_state d) (tx_lastModified d) (tx_undone d) (Some b)
  end.

(** *** The [transactions] collection *)

(** [Transactions.findOne({_id: id})]; a [null] id matches nothing. *)
Definition Transactions_findOne (id : option string) (txs : list TxDoc)
  : option TxDoc :=
  match id with
  | Some i => List.find (fun d => tx_id d =? i) txs
  | None => None
  end.

(** [Transactions.update({_id: id}, m)]: the first match is modified. *)
Fixpoint Transactions_update_id (i : string) (m : TxModifier) (txs : list TxDoc)
  : list TxDoc :=
  match txs with
  | [] => []
  | d :: rest =>
      if tx_id d =? i then apply_TxModifier m d :: rest
      else d :: Transactions_update_id i m rest
  end.

Definition Transactions_update (id : option string) (m : TxModifier)
    (txs : list TxDoc) : list TxDoc :=
  match id with
  | Some i => Transactions_update_id i m txs
  | None => txs
  end.

(** [Transactions.remove({_id: id})] *)
Definition Transactions_remove (id : option string) (txs : list TxDoc)
  : list TxDoc :=
  match id with
  | Some i => List.filter (fun d => negb (tx_id d =? i)) txs
  | None => txs
  end.

(** [Transactions.insert(d)]: returns the [_id]; a duplicate [_id] is an
    error of the store. *)
Definition Transactions_insert (d : TxDoc) (txs : list TxDoc)
  : Outcome (list TxDoc * string) :=
  if existsb (fun d' => tx_id d' =? tx_id d) txs then Throw StoreError
  else Ok (txs ++ [d], tx_id d).

(** [find(sel, {sort: {f: -1}, limit: 1}).fetch()[0]]: a document with
    the greatest sort key among those matching (the first such one). *)
Fixpoint pick_latest (sort_key : TxDoc -> Z) (l : list TxDoc) : option TxDoc :=
  match l with
  | [] => None
  | d :: rest =>
      match pick_latest sort_key rest with
      | Some d' => if (sort_key d <? sort_key d')%Z then Some d' else Some d
      | None => Some d
      end
  end.

(** The part of the selector of undo that every call carries:
    [{$or: [{undone: null}, {undone: {$exists: false}}],
      expired: {$exists: false}, state: "done"}]. *)
Definition undo_eligible (d : TxDoc) : bool :=
  match tx_undone d, tx_expired d, tx_state d with
  | None, None, StDone => true
  | _, _, _ => false
  end.

(** The part of the selector of redo that every call carries:
    [{undone: {$exists: true, $ne: null}, expired: {$exists: false}}]. *)
Definition redo_eligible (d : TxDoc) : bool :=
  match tx_undone d, tx_expired d with
  | Some _, None => true
  | _, _ => false
  end.

(** [(txid)] as a condition: a non-empty string. *)
Definition txid_given (txid : option string) : option string :=
  match txid with
  | Some s => if s =? EmptyString then None else Some s
  | None => None
  end.

(** The [find(...).fetch()[0]] of undo and redo: by [_id] when a
    transaction id is given, else the latest of the current user. *)
Definition find_transaction (eligible : TxDoc -> bool) (sort_key : TxDoc -> Z)
    (txid : option string) (user : option string) (txs : list TxDoc)
  : option TxDoc :=
  match txid_given txid with
  | Some i => List.find (fun d => (tx_id d =? i) && eligible d) txs
  | None =>
      pick_latest sort_key
        (List.filter
           (fun d => option_eqb String.eqb (tx_user_id d) user && eligible d) txs)
  end.

Definition undone_key (d : TxDoc) : Z :=
  match tx_undone d with
  | Some t => t
  | None => 0%Z
  end.

(** ** The [tx] object, the environment and the stores *)

(** [this._lastTransactionData] *)
Record LastTransactionData : Type := {
  ltd_transaction_id : option string;
  ltd_writes : option (option (list Item))
}.

(** The [Transact] object: the options an application may overwrite,
    then the private state.  [checkPermission] and [makeContext] stand
    for functions of the application; they are taken as functions of
    the four arguments the package hands them, so that nothing here
    says how their answers vary with who calls. *)
Record Transact : Type := {
  checkPermission : string -> string -> option Value -> Value -> bool;
  makeContext : string -> string -> option Value -> Value -> Obj;
  requireUser : bool;
  softDelete : bool;
  selfRepairMode : string;
  removeRolledBackTransactions : bool;
  tx_inverseOperations : string -> option InverseFn;
  _transaction_id : option string;
  _autoTransaction : bool;
  _items : list Item;
  _startAttempts : Z;
  _rollback : bool;
  _rollbackReason : string;
  _lastTransactionData : option LastTransactionData;
  _context : Obj;
  _description : string
}.

(** The private state of [t] replaced, its options kept. *)
Definition with_state (t : Transact) (txid : option string) (auto : bool)
    (items : list Item) (attempts : Z) (rb : bool) (reason : string)
    (ltd : option LastTransactionData) (ctx : Obj) (descr : string) : Transact :=
  {| checkPermission := checkPermission t; makeContext := makeContext t;
     requireUser := requireUser t; softDelete := softDelete t;
     selfRepairMode := selfRepairMode t;
     removeRolledBackTransactions := removeRolledBackTransactions t;
     tx_inverseOperations := tx_inverseOperations t;
     _transaction_id := txid; _autoTransaction := auto; _items := items;
     _startAttempts := attempts; _rollback := rb; _rollbackReason := reason;
     _lastTransactionData := ltd; _context := ctx; _description := descr |}.

(** What the platform tells the code during one call: [Meteor.userId()],
    [ServerTime.date()], [Meteor.isClient] and the ids [Random.id()]
    hands out. *)
Record Env : Type := {
  userId : option string;
  now : Z;
  isClient : bool;
  Random_id : nat -> string
}.

(** The application collections, reached by name as through
    [tx.collectionIndex]: every name an item carries is taken to be
    registered there.  A write that throws leaves the store as it was. *)
Class AppStoreOps (Db : Type) : Type := {
  coll_findOne : Db -> string -> Value -> option Value;
  coll_count : Db -> string -> option Value -> nat;
  coll_insert : string -> Value -> Db -> Outcome (Db * Value);
  coll_update : string -> Value -> Value -> Db -> Outcome (Db * nat);
  coll_remove : string -> Value -> Db -> Outcome (Db * nat)
}.

(** A write to an application collection, as data. *)
Inductive AppOp : Type :=
| OpInsert (collection : string) (doc : Value)
| OpUpdate (collection : string) (selector modifier : Value)
| OpRemove (collection : string) (selector : Value).

(** Selectors and modifiers the package builds. *)
Definition sel_id (id : string) : Value := VObj [("_id", VStr id)].

Definition sel_id_txid (id : string) (txid : option string) : Value :=
  VObj [("_id", VStr id); ("transaction_id", id_value txid)].

Definition sel_id_other_txid (id txid : string) : Value :=
  VObj [("_id", VStr id);
        ("$and", VArr [VObj [("transaction_id", VObj [("$exists", VBool true)])];
                       VObj [("transaction_id", VObj [("$ne", VStr txid)])]])].

Definition unset_deleted (txid : option string) : Value :=
  VObj [("$unset", VObj [("deleted", VNum 1); ("transaction_id", id_value txid)])].

Definition set_deleted (t : Z) (txid : string) : Value :=
  VObj [("$set", VObj [("deleted", VDate t); ("transaction_id", VStr txid)])].

Section Engine.
Context `{RT : Runtime}.
Context {Db : Type} `{Store : AppStoreOps Db}.

(** Everything a call can read and change: the [tx] object of the
    process, the application collections, the [transactions] collection
    and the number of ids drawn so far. *)
Record World : Type := {
  tx : Transact;
  collections : Db;
  transactions : list TxDoc;
  drawn : nat
}.

Definition M (A : Type) : Type := World -> Outcome A * World.

Definition ret {A} (a : A) : M A := fun w => (Ok a, w).

Definition bind {A B} (m : M A) (k : A -> M B) : M B :=
  fun w =>
    match m w with
    | (Ok a, w') => k a w'
    | (Throw e, w') => (Throw e, w')
    end.

Definition throw {A} (e : Err) : M A := fun w => (Throw e, w).

(** [try { m } catch (err) { h err }] *)
Definition try_catch {A} (m : M A) (h : Err -> M A) : M A :=
  fun w =>
    match m w with
    | (Ok a, w') => (Ok a, w')
    | (Throw e, w') => h e w'
    end.

Definition lift {A} (o : Outcome A) : M A := fun w => (o, w).

Definition get : M World := fun w => (Ok w, w).

Definition set_tx (t : Transact) : M unit :=
  fun w => (Ok tt, {| tx := t; collections := collections w; transactions := transactions w;
                      drawn := drawn w |}).

Definition set_transactions (txs : list TxDoc) : M unit :=
  fun w => (Ok tt, {| tx := tx w; collections := collections w; transactions := txs;
                      drawn := drawn w |}).

Definition set_app (s : Db) : M unit :=
  fun w => (Ok tt, {| tx := tx w; collections := s; transactions := transactions w;
                      drawn := drawn w |}).

End Engine.

Arguments World Db : clear implicits.
Arguments M Db A : clear implicits.

Notation "'perform' x <- m ; k" := (bind m (fun x => k))
  (at level 10, x pattern, m at level 100, k at level 200) : outcome_scope.
Notation "m ;; k" := (bind m (fun _ => k))
  (at level 100, k at level 200, right associativity) : outcome_scope.

(** ** The methods of [Transact] and the Meteor methods *)

(** The [fieldData] argument of [_createItem]. *)
Record FieldData : Type := {
  fd_newDoc : option Value;
  fd_update : option Packaged;
  fd_inverse : option Packaged;
  fd_hardDelete : bool;
  fd_doc : option Value
}.

Definition no_fieldData : FieldData :=
  {| fd_newDoc := None; fd_update := None; fd_inverse := None;
     fd_hardDelete := false; fd_doc := None |}.

(** [{update: u, inverse: i}] *)
Definition update_fieldData (u i : Packaged) : FieldData :=
  {| fd_newDoc := None; fd_update := Some u; fd_inverse := Some i;
     fd_hardDelete := false; fd_doc := None |}.

Definition _createItem (type : Action) (collection _id : string)
    (fieldData : option FieldData) (instant permissionCheckOverridden : bool)
  : Item :=
  let fd := match fieldData with Some f => f | None => no_fieldData end in
  {| item_collection := collection; item_id := _id; item_action := type;
     item_state := if instant then StDone else StPending;
     item_instant := instant; item_noCheck := permissionCheckOverridden;
     item_newDoc := fd_newDoc fd; item_update := fd_update fd;
     item_inverse := fd_inverse fd; item_hardDelete := fd_hardDelete fd;
     item_doc := fd_doc fd |}.

(** [typeof obj.inverse !== 'undefined' && obj.inverse.command && obj.inverse.data]
    (and the same test on [obj.update] in redo). *)
Definition usable (p : option Packaged) : option Packaged :=
  match p with
  | Some q => if p_command q =? EmptyString then None else Some q
  | None => None
  end.

(** [_.extend(doc, src)] on a stored document; extending [undefined]
    throws. *)
Definition extend_doc (doc : option Value) (src : Obj) : Outcome Value :=
  match doc with
  | Some (VObj kvs) => Ok (VObj (obj_extend kvs src))
  | _ => Throw TypeError
  end.

(** A modifier [{command: {...}, ...}] as a value. *)
Definition modifier_value (updates : list (string * Obj)) : Value :=
  VObj (map (fun cm => (fst cm, VObj (snd cm))) updates).

Definition is_some {A} (o : option A) : bool :=
  match o with
  | Some _ => true
  | None => false
  end.

(** The values the per-document, per-field cache of phase 2 holds. *)
Definition Cache : Type := list (string * string * string * Value).

Fixpoint cache_get (c id k : string) (cache : Cache) : option Value :=
  match cache with
  | [] => None
  | (c', id', k', v) :: rest =>
      if (c =? c') && (id =? id') && (k =? k') then Some v
      else cache_get c id k rest
  end.

Definition cache_set (c id k : string) (v : Value) (cache : Cache) : Cache :=
  (c, id, k, v) :: cache.

(** The arguments and results of [commit]. *)
Inductive CommitArg : Type :=
| ArgUndefined
| ArgFunction
| ArgString (s : string)
| ArgNull
| ArgOptions.

Inductive CallbackResult : Type :=
| ResFalse
| ResNewIds (ids : list (string * list string)).

(** One invocation [callback(err, res)]. *)
Record CallbackCall : Type := {
  cb_error : option Err;
  cb_result : CallbackResult
}.

Inductive Ret : Type :=
| RetUndefined
| RetBool (b : bool).

Inductive StartRet : Type :=
| StartUndefined
| StartFalse
| StartId (id : string).

(** [_callback(a, b, err, res)]: [b] tells whether the second argument
    is a function. *)
Definition _callback (a : CommitArg) (b : bool) (err : option Err)
    (res : CallbackResult) : list CallbackCall :=
  let a_is_function := match a with ArgFunction => true | _ => false end in
  if a_is_function || b then [{| cb_error := err; cb_result := res |}] else [].

Fixpoint push_id (c id : string) (memo : list (string * list string))
  : list (string * list string) :=
  match memo with
  | [] => [(c, [id])]
  | (c', ids) :: rest =>
      if c =? c' then (c', ids ++ [id]) :: rest else (c', ids) :: push_id c id rest
  end.

(** The [_.reduce] of the callback of [commit]. *)
Definition newIds (items : list Item) : list (string * list string) :=
  fold_left
    (fun memo item =>
       match item_action item with
       | ActInsert => push_id (item_collection item) (item_id item) memo
       | _ => memo
       end)
    items [].

(** The options argument of a write, as handed in. *)
Inductive OptArg : Type :=
| OptUndefined
| OptFunction
| OptHash (o : Opt) (tx_hash : option Opt).

(** [if (opt && _.isObject(opt.tx)) opt = opt.tx;
     opt = _.isObject(opt) ? _.omit(opt, 'tx') : undefined] *)
Definition normalise_opt (opt : OptArg) : option Opt :=
  match opt with
  | OptUndefined => None
  | OptFunction => Some empty_opt
  | OptHash o None => Some o
  | OptHash _ (Some o') => Some o'
  end.

Definition _permissionCheckOverridden (opt : option Opt) : bool :=
  match opt with
  | Some o => o_overridePermissionCheck o
  | None => false
  end.

Section Methods.
Context `{RT : Runtime}.
Context {Db : Type} `{Store : AppStoreOps Db}.
Variable env : Env.

#[local] Abbreviation M := (M Db).

(** [_.each(list, function (x, index) {...})] with a body that reads and
    writes the world and may throw. *)
Fixpoint each_indexed {A St} (f : St -> nat -> A -> M St) (l : list A)
    (index : nat) (s : St) : M St :=
  match l with
  | [] => ret s
  | x :: l' => perform s' <- f s index x; each_indexed f l' (Datatypes.S index) s'
  end.

(** A write to an application collection; the result tells whether the
    value the store returned is truthy (a new [_id], a non-zero count). *)
Definition run_op (op : AppOp) : M bool :=
  fun w =>
    let put s := {| tx := tx w; collections := s; transactions := transactions w;
                    drawn := drawn w |} in
    match op with
    | OpInsert c d =>
        match coll_insert c d (collections w) with
        | Ok (s, id) => (Ok (truthy id), put s)
        | Throw e => (Throw e, w)
        end
    | OpUpdate c sel m =>
        match coll_update c sel m (collections w) with
        | Ok (s, n) => (Ok (negb (Nat.eqb n 0)), put s)
        | Throw e => (Throw e, w)
        end
    | OpRemove c sel =>
        match coll_remove c sel (collections w) with
        | Ok (s, n) => (Ok (negb (Nat.eqb n 0)), put s)
        | Throw e => (Throw e, w)
        end
    end.

(** [try { op } catch (err) { ... }]: tells whether the write threw. *)
Definition attempt (op : AppOp) : M bool :=
  try_catch (run_op op ;; ret false) (fun _ => ret true).

Definition txs_update (id : option string) (m : TxModifier) : M unit :=
  perform w <- get;
  set_transactions (Transactions_update id m (transactions w)).

Definition txs_remove (id : option string) : M unit :=
  perform w <- get;
  set_transactions (Transactions_remove id (transactions w)).

Definition txs_insert (d : TxDoc) : M string :=
  perform w <- get;
  perform r <- lift (Transactions_insert d (transactions w));
  set_transactions (fst r) ;; ret (snd r).

Definition _changeItemState (txid : option string) (index : nat) (st : State)
  : M unit :=
  txs_update txid (SetItemState index st).

Definition _cleanReset : M unit :=
  perform w <- get;
  let t := tx w in
  set_tx (with_state t None false [] 0 false EmptyString (_lastTransactionData t) [] EmptyString).

Definition set_rollback (reason : string) : M unit :=
  perform w <- get;
  let t := tx w in
  set_tx (with_state t (_transaction_id t) (_autoTransaction t) (_items t)
            (_startAttempts t) true reason (_lastTransactionData t)
            (_context t) (_description t)).

Definition _setContext (context : Obj) : M unit :=
  perform w <- get;
  let t := tx w in
  set_tx (with_state t (_transaction_id t) (_autoTransaction t) (_items t)
            (_startAttempts t) (_rollback t) (_rollbackReason t)
            (_lastTransactionData t) (obj_extend (_context t) context)
            (_description t)).

Definition _pushToRecord (type : Action) (collection _id : string)
    (fieldData : option FieldData) (instant permissionCheckOverridden : bool)
  : M unit :=
  let item := _createItem type collection _id fieldData instant
                permissionCheckOverridden in
  perform w <- get;
  let t := tx w in
  set_tx (with_state t (_transaction_id t) (_autoTransaction t)
            (_items t ++ [item]) (_startAttempts t) (_rollback t)
            (_rollbackReason t) (_lastTransactionData t) (_context t)
            (_description t)).

(** Inserting a document whose [_id] is [null] is refused by the
    collection. *)
Definition _recordTransaction (item : Item) : M unit :=
  perform w <- get;
  let self := tx w in
  (if is_some (Transactions_findOne (_transaction_id self) (transactions w))
   then ret tt
   else
     match _transaction_id self with
     | Some id =>
         txs_insert
           {| tx_id := id; tx_user_id := userId env;
              tx_description := _description self; tx_items := None;
              tx_context := _context self; tx_lastModified := now env;
              tx_state := StPending; tx_undone := None; tx_expired := None |} ;;
         ret tt
     | None => throw StoreError
     end) ;;
  txs_update (_transaction_id self) (AddToSetItems item).

Definition action_name (a : Action) : string :=
  match a with
  | ActInsert => "insert"
  | ActUpdate => "update"
  | ActRemove => "remove"
  end.

Definition _permissionCheck (t : Transact) (action collection : string)
    (doc : option Value) (updates : Value) : bool :=
  checkPermission t action collection doc updates.

Definition has_txid (doc : option Value) (txid : string) : bool :=
  truthy_opt doc &&
  match field doc "transaction_id" with
  | Some (VStr s) => s =? txid
  | _ => false
  end.

(** The loop variables of [_checkTransactionFields]. *)
Record CheckState : Type := {
  fail : bool;
  recombinedUpdateFields : Obj;
  recombinedInverseFields : Obj
}.

Definition check_item (t : Transact) (db : Db) (txid : string) (st : CheckState)
    (value : Item) : Outcome CheckState :=
  if fail st then Ok st
  else
    let collection := item_collection value in
    let doc :=
      match item_action value with
      | ActRemove =>
          if has_txid (item_doc value) txid then item_doc value
          else coll_findOne db collection (sel_id (item_id value))
      | ActInsert =>
          if has_txid (item_newDoc value) txid then item_newDoc value
          else coll_findOne db collection (sel_id (item_id value))
      | ActUpdate => coll_findOne db collection (sel_id (item_id value))
      end in
    if isClient env && negb (truthy_opt doc) then Ok st
    else
      match item_action value with
      | ActUpdate =>
          match item_update value with
          | None => Throw TypeError
          | Some details =>
              do u <- _unpackageForUpdate (p_data details);
              let upd := obj_set (p_command details) (VObj u)
                           (recombinedUpdateFields st) in
              match item_inverse value with
              | None => Throw TypeError
              | Some inverseDetails =>
                  do i <- _unpackageForUpdate (p_data inverseDetails);
                  let inv := obj_set (p_command inverseDetails) (VObj i)
                               (recombinedInverseFields st) in
                  Ok {| fail :=
                          if item_noCheck value then false
                          else negb (_permissionCheck t "update" collection doc (VObj upd)
                                     && _permissionCheck t "update" collection doc (VObj inv));
                        recombinedUpdateFields := upd;
                        recombinedInverseFields := inv |}
              end
          end
      | a =>
          Ok {| fail :=
                  if item_noCheck value then false
                  else negb (_permissionCheck t (action_name a) collection doc (VObj []));
                recombinedUpdateFields := recombinedUpdateFields st;
                recombinedInverseFields := recombinedInverseFields st |}
      end.

Definition _checkTransactionFields (t : Transact) (db : Db) (items : list Item)
    (txid : string) : Outcome bool :=
  match items with
  | [] => Ok false
  | _ =>
      do st <- each_throwing (check_item t db txid) items
                 {| fail := false; recombinedUpdateFields := [];
                    recombinedInverseFields := [] |};
      Ok (negb (fail st))
  end.

(** *** [rollback] *)

(** The body of the loop of [rollback] for the item at [index]; [error]
    is the flag the loop carries. *)
Definition rollback_step (txid : option string) (error : bool) (index : nat)
    (obj : Item) : M bool :=
  let collection := item_collection obj in
  perform error' <-
    match item_action obj with
    | ActRemove =>
        if item_instant obj then
          perform threw <-
            attempt (match item_doc obj with
                     | Some d =>
                         if truthy d then OpInsert collection d
                         else OpUpdate collection (sel_id (item_id obj))
                                (unset_deleted txid)
                     | None => OpUpdate collection (sel_id (item_id obj))
                                 (unset_deleted txid)
                     end);
          ret (error || threw)
        else ret error
    | ActUpdate =>
        match (if item_instant obj then usable (item_inverse obj) else None) with
        | Some inverse =>
            perform d <- lift (_unpackageForUpdate (p_data inverse));
            perform threw <-
              attempt (OpUpdate collection (sel_id (item_id obj))
                         (VObj [(p_command inverse, VObj d)]));
            ret (error || threw)
        | None => ret error
        end
    | ActInsert =>
        if item_instant obj then
          perform threw <-
            attempt (OpRemove collection (sel_id_txid (item_id obj) txid));
          ret (error || threw)
        else ret error
    end;
  (if error' then ret tt else _changeItemState txid index StRolledBack) ;;
  ret error'.

Definition rollback : M unit :=
  perform w <- get;
  let self := tx w in
  let items := _items self in
  perform error <- each_indexed (rollback_step (_transaction_id self)) items 0 false;
  (if removeRolledBackTransactions self then txs_remove (_transaction_id self)
   else txs_update (_transaction_id self) (SetState StRolledBack)) ;;
  _cleanReset.

(** *** [_meteorTransactionsProcess] *)

(** [cacheValues(item, index)]: a field written earlier in the same
    transaction has its cached value written over the stored inverse of
    this item, then the cache takes the value this item writes. *)
Definition cacheValues (txid : string) (item : Item) (index : nat)
    (updateCache : Cache) : M Cache :=
  match item_update item with
  | None => throw TypeError
  | Some u =>
      each_indexed
        (fun cache i keyValuePair =>
           let c := item_collection item in
           let id := item_id item in
           match cache_get c id (key keyValuePair) cache with
           | Some cached =>
               perform v <- lift (unpackage_value cached);
               txs_update (Some txid) (SetInverseValue index i v) ;;
               ret (cache_set c id (key keyValuePair) (value keyValuePair) cache)
           | None =>
               ret (cache_set c id (key keyValuePair) (value keyValuePair) cache)
           end)
        (p_data u) 0 updateCache
  end.

(** The modifier phase 2 sends for an update item: the stored command
    with [transaction_id] added to (or as) its [$set]. *)
Definition tagged_modifier (cmd : string) (d : Obj) (txid : string) : Value :=
  if cmd =? "$set" then
    VObj [("$set", VObj (obj_extend d [("transaction_id", VStr txid)]))]
  else
    VObj [(cmd, VObj d); ("$set", VObj [("transaction_id", VStr txid)])].

(** The first loop over [items]: the stored copy of a document about to
    be hard deleted replaces whatever the item carried. *)
Definition snapshot_hard_deletes (db : Db) (items : list Item) : list Item :=
  map (fun item =>
         match item_action item with
         | ActRemove =>
             if item_hardDelete item then
               set_item_doc
                 (coll_findOne db (item_collection item) (sel_id (item_id item)))
                 item
             else item
         | _ => item
         end)
      items.

(** The body of the loop of STEP 2 for the item at [index]. *)
Definition process_step (txid : string) (st : bool * Cache) (index : nat)
    (item : Item) : M (bool * Cache) :=
  let success := fst st in
  let updateCache := snd st in
  let collection := item_collection item in
  if negb success then ret st
  else if item_instant item then
    match item_action item with
    | ActUpdate =>
        perform c <- cacheValues txid item index updateCache;
        ret (success, c)
    | _ => ret st
    end
  else
    perform st' <-
      match item_action item with
      | ActInsert =>
          perform d <- lift (extend_doc (item_newDoc item)
                               [("_id", VStr (item_id item));
                                ("transaction_id", VStr txid)]);
          perform newId <- run_op (OpInsert collection d);
          ret (newId, updateCache)
      | ActUpdate =>
          match item_update item with
          | None => throw TypeError
          | Some u =>
              perform d <- lift (_unpackageForUpdate (p_data u));
              perform updated <-
                run_op (OpUpdate collection (sel_id (item_id item))
                          (tagged_modifier (p_command u) d txid));
              if updated then
                perform c <- cacheValues txid item index updateCache;
                ret (true, c)
              else ret (false, updateCache)
          end
      | ActRemove =>
          perform removed <-
            run_op (if item_hardDelete item then
                      OpRemove collection (sel_id (item_id item))
                    else
                      OpUpdate collection (sel_id (item_id item))
                        (VObj [("$set", VObj [("transaction_id", VStr txid);
                                              ("deleted", VDate (now env))])]));
          ret (removed, updateCache)
      end;
    (if fst st' then _changeItemState (Some txid) index StDone else ret tt) ;;
    ret st'.

(** The result is [None] for [undefined] and [Some its] for
    [{items: its}]. *)
Definition _meteorTransactionsProcess (txid description : string)
    (items : list Item) (context : Obj) : M (option (option (list Item))) :=
  perform w <- get;
  perform allowed <- lift (_checkTransactionFields (tx w) (collections w) items txid);
  if negb allowed then throw (MeteorError "Transaction not allowed")
  else
    let existingTransaction := Transactions_findOne (Some txid) (transactions w) in
    (if is_some existingTransaction then txs_update (Some txid) (SetItems items)
     else ret tt) ;;
    let items := snapshot_hard_deletes (collections w) items in
    (if is_some existingTransaction then ret tt
     else
       perform newId <-
         txs_insert
           {| tx_id := txid; tx_user_id := userId env;
              tx_description := description; tx_items := Some items;
              tx_context := context; tx_lastModified := now env;
              tx_state := StPending; tx_undone := None; tx_expired := None |};
       if newId =? EmptyString then throw (MeteorError "Unable to commit transaction")
       else ret tt) ;;
    perform st <- each_indexed (process_step txid) items 0 (true, []);
    if fst st then
      txs_update (Some txid) (SetStateLastModified StDone (now env)) ;;
      perform w' <- get;
      match Transactions_findOne (Some txid) (transactions w') with
      | Some finalTxRecord => ret (Some (tx_items finalTxRecord))
      | None => throw TypeError
      end
    else
      rollback ;; ret None.

(** *** [commit] *)

(** [Meteor.call(name, ..., callback)] where the caller runs on the
    server: the method body runs at once, its result or the error it
    threw goes to the callback, and an exception raised inside the
    callback is logged by the platform, not passed on. *)
Definition Meteor_call {A B} (method : M A) (callback : Outcome A -> M (list B))
  : M (list B) :=
  fun w =>
    match method w with
    | (r, w1) =>
        match callback r w1 with
        | (Ok calls, w2) => (Ok calls, w2)
        | (Throw _, w2) => (Ok [], w2)
        end
    end.

Definition set_lastTransactionData (ltd : LastTransactionData) : M unit :=
  perform w <- get;
  let t := tx w in
  set_tx (with_state t (_transaction_id t) (_autoTransaction t) (_items t)
            (_startAttempts t) (_rollback t) (_rollbackReason t)
            (Some ltd) (_context t) (_description t)).

Definition decrement_startAttempts : M unit :=
  perform w <- get;
  let t := tx w in
  set_tx (with_state t (_transaction_id t) (_autoTransaction t) (_items t)
            (_startAttempts t - 1) (_rollback t) (_rollbackReason t)
            (_lastTransactionData t) (_context t) (_description t)).

(** The function [commit] hands to [Meteor.call]. *)
Definition commit_result (txid : CommitArg) (callback : bool)
    (r : Outcome (option (option (list Item)))) : M (list CallbackCall) :=
  match r with
  | Throw err => ret []
  | Ok res =>
      perform w <- get;
      let self := tx w in
      set_lastTransactionData
        {| ltd_transaction_id := _transaction_id self;
           ltd_writes := match _lastTransactionData self with
                         | Some l => ltd_writes l
                         | None => None
                         end |} ;;
      match res with
      | None => throw TypeError
      | Some its =>
          set_lastTransactionData
            {| ltd_transaction_id := _transaction_id self;
               ltd_writes := Some its |} ;;
          _cleanReset ;;
          ret (_callback txid callback None
                 (ResNewIds (newIds (match its with Some l => l | None => [] end))))
      end
  end.

(** [txid] is a string other than the id of the open transaction. *)
Definition names_other_transaction (txid : CommitArg) (current : string) : bool :=
  match txid with
  | ArgString s => negb (s =? current)
  | _ => false
  end.

(** [txid] is the id of the open transaction, or [null]. *)
Definition names_this_transaction (txid : CommitArg) (current : string) : bool :=
  match txid with
  | ArgString s => s =? current
  | ArgNull => true
  | _ => false
  end.

Definition multiple_transactions_open : Err :=
  MeteorError "multiple-transactions-open".

Definition commit (txid : CommitArg) (callback : bool)
  : M (Ret * list CallbackCall) :=
  perform w <- get;
  let self := tx w in
  if requireUser self && negb (is_some (userId env)) then ret (RetUndefined, [])
  else
    set_lastTransactionData
      {| ltd_transaction_id := _transaction_id self; ltd_writes := None |} ;;
    match _transaction_id self with
    | None =>
        _cleanReset ;;
        ret (RetUndefined,
             _callback txid callback (Some (MeteorError "no-transactions-open"))
               ResFalse)
    | Some current =>
        if names_other_transaction txid current then
          decrement_startAttempts ;;
          ret (RetUndefined,
               _callback txid callback (Some multiple_transactions_open) ResFalse)
        else if (0 <? _startAttempts self)%Z
                && negb (names_this_transaction txid current) then
          decrement_startAttempts ;;
          ret (RetUndefined,
               _callback txid callback (Some multiple_transactions_open) ResFalse)
        else if match _items self with [] => true | _ => false end then
          ret (RetBool true, [])
        else if _rollback self then
          let error := _rollbackReason self in
          rollback ;;
          ret (RetUndefined,
               _callback txid callback (Some (MeteorError error)) ResFalse)
        else
          try_catch
            (perform calls <-
               Meteor_call
                 (_meteorTransactionsProcess current (_description self)
                    (_items self) (_context self))
                 (commit_result txid callback);
             ret (RetBool true, calls))
            (fun err =>
               rollback ;;
               ret (RetUndefined,
                    _callback txid callback (Some (MeteorError "error")) ResFalse))
    end.
(** *** [start], the automatic transaction and [update] *)

Definition draw_id : M string :=
  fun w =>
    (Ok (Random_id env (drawn w)),
     {| tx := tx w; collections := collections w; transactions := transactions w;
        drawn := Datatypes.S (drawn w) |}).

Definition start (description : option string) : M StartRet :=
  perform w <- get;
  let self := tx w in
  if requireUser self && negb (is_some (userId env)) then
    _cleanReset ;; ret StartUndefined
  else
    match _transaction_id self with
    | None =>
        let description :=
          match description with Some d => d | None => "last action" end in
        perform id <- draw_id;
        set_tx (with_state self (Some id) (_autoTransaction self) (_items self)
                  (_startAttempts self) (_rollback self) (_rollbackReason self)
                  (_lastTransactionData self) (_context self) description) ;;
        ret (StartId id)
    | Some _ =>
        set_tx (with_state self (_transaction_id self) (_autoTransaction self)
                  (_items self) (_startAttempts self + 1) (_rollback self)
                  (_rollbackReason self) (_lastTransactionData self)
                  (_context self) (_description self)) ;;
        ret StartFalse
    end.

Definition _openAutoTransaction (description : string) : M unit :=
  perform w <- get;
  let self := tx w in
  match _transaction_id self with
  | None =>
      set_tx (with_state self (_transaction_id self) true (_items self)
                (_startAttempts self) (_rollback self) (_rollbackReason self)
                (_lastTransactionData self) (_context self) description) ;;
      start (Some description) ;;
      ret tt
  | Some _ => ret tt
  end.

(** [commit(opt, undefined, newId)]: the options hash takes the place of
    the transaction id. *)
Definition _closeAutoTransaction (opt : option Opt) : M unit :=
  perform w <- get;
  if _autoTransaction (tx w) then
    commit (match opt with Some _ => ArgOptions | None => ArgUndefined end) false ;;
    ret tt
  else ret tt.

(** [updates["$set"]] with [transaction_id] put in, as [_doUpdate] leaves
    [updates] while the write is made. *)
Fixpoint tag_set (txid : option string) (updates : list (string * Obj))
  : list (string * Obj) :=
  match updates with
  | [] => [("$set", [("transaction_id", id_value txid)])]
  | (c, m) :: rest =>
      if c =? "$set" then (c, obj_set "transaction_id" (id_value txid) m) :: rest
      else (c, m) :: tag_set txid rest
  end.

Fixpoint command_map (c : string) (updates : list (string * Obj)) : option Obj :=
  match updates with
  | [] => None
  | (c', m) :: rest => if c =? c' then Some m else command_map c rest
  end.

(** [updateData.data] is the object [updates[command]] itself, so what
    [_doUpdate] does to [updates["$set"]] shows in the data of a [$set]
    command. *)
Definition aliased (updates : list (string * Obj)) (updateData : UpdateData)
  : UpdateData :=
  if command updateData =? "$set" then
    match command_map "$set" updates with
    | Some m => {| command := command updateData; data := m |}
    | None => updateData
    end
  else updateData.

(** [delete updates["$set"].transaction_id] *)
Definition untag_set (updates : list (string * Obj)) : list (string * Obj) :=
  map (fun cm => if fst cm =? "$set"
                 then (fst cm, obj_delete "transaction_id" (snd cm)) else cm)
      updates.

Definition _doUpdate (collection _id : string) (updates : list (string * Obj))
    (updateData inverseData : UpdateData) (instant : bool) (opt : option Opt)
    (execute : bool) : M unit :=
  perform w <- get;
  let self := tx w in
  perform updates' <-
    (if instant && execute then
       let tagged := tag_set (_transaction_id self) updates in
       let item :=
         _createItem ActUpdate collection _id
           (Some (update_fieldData
                    (_packageForStorage (aliased tagged updateData))
                    (_packageForStorage inverseData)))
           instant (_permissionCheckOverridden opt) in
       _recordTransaction item ;;
       perform error <-
         attempt (OpUpdate collection (sel_id _id) (modifier_value tagged));
       if error then throw (MeteorError "Update failed")
       else ret (untag_set tagged)
     else ret updates);
  _pushToRecord ActUpdate collection _id
    (Some (update_fieldData
             (_packageForStorage (aliased updates' updateData))
             (_packageForStorage inverseData)))
    instant (_permissionCheckOverridden opt).

(** The body of the loop of [update] for the command at position [i];
    the loop carries [opt], which the first pass may replace by [{}]. *)
Definition update_step (collection _id : string) (existingDoc : option Value)
    (updates : list (string * Obj)) (actionFieldsCount : nat)
    (opt : option Opt) (i : nat) (actionField : string * Obj) : M (option Opt) :=
  let command := fst actionField in
  let updateMap := snd actionField in
  perform w <- get;
  let self := tx w in
  perform r <-
    match (match opt with Some o => o_inverse o | None => None end) with
    | None =>
        let opt' := match opt with Some o => o | None => empty_opt end in
        perform inverse <-
          lift (match tx_inverseOperations self command with
                | Some f => f collection existingDoc updateMap opt'
                | None => _inverseUsingSet collection existingDoc updateMap opt'
                end);
        ret (opt', inverse)
    | Some inverse =>
        ret (match opt with Some o => o | None => empty_opt end, inverse)
    end;
  let opt' := fst r in
  let inverse := snd r in
  _setContext (match o_context opt' with
               | Some c => c
               | None => makeContext self "update" collection existingDoc
                           (modifier_value updates)
               end) ;;
  let updateData := {| command := command; data := updateMap |} in
  let execute := Nat.eqb i (actionFieldsCount - 1) in
  (if o_instant opt' then
     try_catch
       (_doUpdate collection _id updates updateData inverse true (Some opt') execute)
       (fun _ => set_rollback "update-error")
   else
     _doUpdate collection _id updates updateData inverse false (Some opt') execute) ;;
  ret (Some opt').

(** [update(collection, doc, updates, opt, callback)], the document being
    named by its [_id]. *)
Definition update (collection _id : string) (updates : list (string * Obj))
    (opt : OptArg) : M Ret :=
  perform w <- get;
  let self := tx w in
  if _rollback self || (requireUser self && negb (is_some (userId env))) then
    ret RetUndefined
  else
    let opt := normalise_opt opt in
    let existingDoc := coll_findOne (collections w) collection (sel_id _id) in
    if _permissionCheckOverridden opt
       || _permissionCheck self "update" collection existingDoc
            (modifier_value updates) then
      _openAutoTransaction ("update " ++ drop_last collection)%string ;;
      perform opt' <-
        each_indexed (update_step collection _id existingDoc updates (length updates))
          updates 0 opt;
      _closeAutoTransaction opt' ;;
      perform w' <- get;
      ret (RetBool (negb (_rollback (tx w'))))
    else
      set_rollback "permission-denied" ;;
      ret RetUndefined.

(** *** [_meteorTransactionsUndo] and [_meteorTransactionsRedo] *)

(** The body of the first loop of undo: [acc] is the flag [expired] and
    the queue built so far. *)
Definition undo_scan_step (db : Db) (txid : string) (acc : bool * list AppOp)
    (obj : Item) : Outcome (bool * list AppOp) :=
  let expired := fst acc in
  let queuedItems := snd acc in
  let collection := item_collection obj in
  if expired then Ok acc
  else
    match item_action obj with
    | ActRemove =>
        match item_doc obj with
        | Some d =>
            if truthy d then
              if Nat.ltb 0 (coll_count db collection (field (Some d) "_id"))
              then Ok (true, queuedItems)
              else Ok (expired, queuedItems ++ [OpInsert collection d])
            else
              Ok (expired,
                  queuedItems ++ [OpUpdate collection (sel_id (item_id obj))
                                    (unset_deleted (Some txid))])
        | None =>
            Ok (expired,
                queuedItems ++ [OpUpdate collection (sel_id (item_id obj))
                                  (unset_deleted (Some txid))])
        end
    | ActUpdate =>
        match usable (item_inverse obj) with
        | Some inverse =>
            do d <- _unpackageForUpdate (p_data inverse);
            Ok (expired,
                queuedItems ++ [OpUpdate collection (sel_id (item_id obj))
                                  (VObj [(p_command inverse, VObj d)])])
        | None => Ok acc
        end
    | ActInsert =>
        let queued :=
          queuedItems ++ [OpRemove collection (sel_id_txid (item_id obj) (Some txid))] in
        if is_some (coll_findOne db collection (sel_id_other_txid (item_id obj) txid))
        then Ok (true, queued)
        else Ok (expired, queued)
    end.

(** The body of the first loop of redo. *)
Definition redo_scan_step (db : Db) (txid : string) (acc : bool * list AppOp)
    (obj : Item) : Outcome (bool * list AppOp) :=
  let expired := fst acc in
  let queuedItems := snd acc in
  let collection := item_collection obj in
  match item_action obj with
  | ActRemove =>
      Ok (expired,
          queuedItems ++
            [if truthy_opt (item_doc obj) then
               OpRemove collection (sel_id (item_id obj))
             else
               OpUpdate collection (sel_id (item_id obj)) (set_deleted (now env) txid)])
  | ActUpdate =>
      match usable (item_update obj) with
      | Some u =>
          do d <- _unpackageForUpdate (p_data u);
          Ok (expired,
              queuedItems ++ [OpUpdate collection (sel_id (item_id obj))
                                (VObj [(p_command u, VObj d)])])
      | None => Ok acc
      end
  | ActInsert =>
      if expired then Ok acc
      else if Nat.eqb (coll_count db collection (Some (sel_id (item_id obj)))) 0 then
        do newDoc <- extend_doc (item_newDoc obj)
                       [("transaction_id", VStr txid); ("_id", VStr (item_id obj))];
        Ok (expired, queuedItems ++ [OpInsert collection newDoc])
      else Ok (true, queuedItems)
  end.

(** The second loop: every queued write is tried, and the item it stands
    for is marked when the write did not throw. *)
Definition process_queue (txid : string) (st : State) (item_index : nat -> nat)
    (queuedItems : list AppOp) : M unit :=
  each_indexed
    (fun _ index queuedItem =>
       perform fail <- attempt queuedItem;
       if fail then ret tt
       else _changeItemState (Some txid) (item_index index) st)
    queuedItems 0 tt.

Definition _meteorTransactionsUndo (txid : option string) : M Ret :=
  perform w <- get;
  if requireUser (tx w) && negb (is_some (userId env)) then ret RetUndefined
  else
    match find_transaction undo_eligible tx_lastModified txid (userId env)
            (transactions w) with
    | Some lastTransaction =>
        let id := tx_id lastTransaction in
        match tx_items lastTransaction with
        | Some items =>
            perform allowed <- lift (_checkTransactionFields (tx w) (collections w) items id);
            perform expired <-
              (if allowed then
                 perform scanned <-
                   lift (each_throwing (undo_scan_step (collections w) id) (rev items)
                           (false, []));
                 let expired := fst scanned in
                 let queuedItems := snd scanned in
                 (if expired then ret tt
                  else
                    process_queue id StUndone
                      (fun index => (length queuedItems - 1) - index) queuedItems ;;
                    txs_update (Some id) (SetUndoneState (now env) StUndone)) ;;
                 ret expired
               else ret true);
            (if expired then txs_update (Some id) (SetExpired true) else ret tt) ;;
            ret (RetBool expired)
        | None =>
            txs_remove (Some id) ;;
            ret (RetBool false)
        end
    | None => ret (RetBool false)
    end.

Definition _meteorTransactionsRedo (txid : option string) : M Ret :=
  perform w <- get;
  if requireUser (tx w) && negb (is_some (userId env)) then ret RetUndefined
  else
    match find_transaction redo_eligible undone_key txid (userId env)
            (transactions w) with
    | Some lastUndo =>
        let id := tx_id lastUndo in
        match tx_items lastUndo with
        | Some items =>
            perform allowed <- lift (_checkTransactionFields (tx w) (collections w) items id);
            perform expired <-
              (if allowed then
                 perform scanned <-
                   lift (each_throwing (redo_scan_step (collections w) id) items (false, []));
                 let expired := fst scanned in
                 let queuedItems := snd scanned in
                 (if expired then ret tt
                  else
                    process_queue id StDone (fun index => index) queuedItems ;;
                    txs_update (Some id) (UnsetUndoneSetState StDone)) ;;
                 ret expired
               else ret true);
            (if expired then txs_update (Some id) (SetExpired true) else ret tt) ;;
            ret (RetBool expired)
        | None => ret (RetBool false)
        end
    | None => ret (RetBool false)
    end.

(** *** The start-up script of the server *)

(** [Meteor.startup(function () { Meteor.defer(function () {
      switch (tx.selfRepairMode) { case 'complete': break;
                                   case 'rollback': break; } }) })] *)
Definition startup_selfRepair : M unit :=
  perform w <- get;
  if selfRepairMode (tx w) =? "complete" then ret tt
  else if selfRepairMode (tx w) =? "rollback" then ret tt
  else ret tt.

End Methods.

(** ** Reference collaborators

    A small runtime and an in-memory store on which the model can be
    run.  The printer and the parser cover integers, strings without
    quotes or backslashes, arrays and objects, written without blanks;
    the store understands the selectors the package builds and the
    modifiers [$set] and [$unset] on top-level fields, and keeps a
    journal of the writes it performed. *)

Module Ref.

Definition dquote : ascii := ascii_of_nat 34.

Definition quote (s : string) : string :=
  (String dquote s ++ String dquote EmptyString)%string.

Definition string_of_Z (n : Z) : string :=
  DecimalString.NilZero.string_of_int (Z.to_int n).

Fixpoint join (sep : string) (l : list string) : string :=
  match l with
  | [] => EmptyString
  | [s] => s
  | s :: rest => (s ++ sep ++ join sep rest)%string
  end.

Fixpoint stringify (v : Value) : string :=
  match v with
  | VNull => "null"
  | VBool true => "true"
  | VBool false => "false"
  | VNum n => string_of_Z n
  | VStr s => quote s
  | VDate t => quote (string_of_Z t)
  | VArr xs => ("[" ++ join "," (map stringify xs) ++ "]")%string
  | VObj kvs =>
      ("{" ++ join "," (map (fun kv => (quote (fst kv) ++ ":" ++ stringify (snd kv))%string)
                          kvs) ++ "}")%string
  end.

Fixpoint strip_prefix (p s : string) : option string :=
  match p, s with
  | EmptyString, _ => Some s
  | String a p', String b s' => if Ascii.eqb a b then strip_prefix p' s' else None
  | _, _ => None
  end.

Fixpoint until_quote (s : string) : option (string * string) :=
  match s with
  | EmptyString => None
  | String c r =>
      if Ascii.eqb c dquote then Some (EmptyString, r)
      else match until_quote r with
           | Some (a, b) => Some (String c a, b)
           | None => None
           end
  end.

Definition is_number_char (c : ascii) : bool :=
  Ascii.eqb c "-"%char || ((48 <=? nat_of_ascii c)%nat && (nat_of_ascii c <=? 57)%nat).

Fixpoint number_chars (s : string) : string * string :=
  match s with
  | EmptyString => (EmptyString, EmptyString)
  | String c r =>
      if is_number_char c then
        let p := number_chars r in (String c (fst p), snd p)
      else (EmptyString, s)
  end.

Fixpoint parse_value (fuel : nat) (s : string) : option (Value * string) :=
  match fuel with
  | O => None
  | Datatypes.S f =>
      match s with
      | EmptyString => None
      | String c r =>
          if Ascii.eqb c "n"%char then
            option_map (fun r' => (VNull, r')) (strip_prefix "ull" r)
          else if Ascii.eqb c "t"%char then
            option_map (fun r' => (VBool true, r')) (strip_prefix "rue" r)
          else if Ascii.eqb c "f"%char then
            option_map (fun r' => (VBool false, r')) (strip_prefix "alse" r)
          else if Ascii.eqb c dquote then
            option_map (fun p => (VStr (fst p), snd p)) (until_quote r)
          else if Ascii.eqb c "["%char then
            match r with
            | String "]"%char r' => Some (VArr [], r')
            | _ => option_map (fun p => (VArr (fst p), snd p)) (parse_elements f r)
            end
          else if Ascii.eqb c "{"%char then
            match r with
            | String "}"%char r' => Some (VObj [], r')
            | _ => option_map (fun p => (VObj (fst p), snd p)) (parse_members f r)
            end
          else
            let p := number_chars s in
            option_map (fun i => (VNum (Z.of_int i), snd p))
              (DecimalString.NilZero.int_of_string (fst p))
      end
  end
with parse_elements (fuel : nat) (s : string) : option (list Value * string) :=
  match fuel with
  | O => None
  | Datatypes.S f =>
      match parse_value f s with
      | Some (v, String c r) =>
          if Ascii.eqb c ","%char then
            option_map (fun p => (v :: fst p, snd p)) (parse_elements f r)
          else if Ascii.eqb c "]"%char then Some ([v], r)
          else None
      | _ => None
      end
  end
with parse_members (fuel : nat) (s : string) : option (list (string * Value) * string) :=
  match fuel with
  | O => None
  | Datatypes.S f =>
      match s with
      | String q r =>
          if Ascii.eqb q dquote then
            match until_quote r with
            | Some (k, String ":"%char r') =>
                match parse_value f r' with
                | Some (v, String c r'') =>
                    if Ascii.eqb c ","%char then
                      option_map (fun p => ((k, v) :: fst p, snd p))
                        (parse_members f r'')
                    else if Ascii.eqb c "}"%char then Some ([(k, v)], r'')
                    else None
                | _ => None
                end
            | _ => None
            end
          else None
      | EmptyString => None
      end
  end.

(** [JSON.parse(v)]: a string is parsed whole, a number, a boolean or
    [null] comes back as it is, anything else is a syntax error. *)
Definition parse (v : Value) : Outcome Value :=
  match v with
  | VStr s =>
      match parse_value (Datatypes.S (String.length s)) s with
      | Some (r, EmptyString) => Ok r
      | _ => Throw SyntaxError
      end
  | VNull | VBool _ | VNum _ => Ok v
  | _ => Throw SyntaxError
  end.

(** [Meteor._get(obj, path...)]: every step but the last must land on an
    object; a missing key gives [undefined], stepping into [undefined],
    [null] or a primitive is a type error. *)
Fixpoint meteor_get (obj : option Value) (path : list string) : Outcome (option Value) :=
  match path with
  | [] => Ok obj
  | k :: rest =>
      match obj with
      | Some (VObj kvs) =>
          match obj_get k kvs with
          | Some v => meteor_get (Some v) rest
          | None => Ok None
          end
      | Some (VArr xs) =>
          match DecimalString.NilEmpty.uint_of_string k with
          | Some i =>
              match nth_error xs (Nat.of_uint i) with
              | Some v => meteor_get (Some v) rest
              | None => Ok None
              end
          | None => Ok None
          end
      | Some (VDate _) => Ok None
      | _ => Throw TypeError
      end
  end.

#[export] Instance runtime : Runtime :=
  {| JSON_stringify := stringify; JSON_parse := parse; Meteor_get := meteor_get |}.

(** The store: the documents of every collection, each with the name of
    its collection, and the journal of the writes performed. *)
Record Db : Type := {
  docs : list (string * Value);
  journal : list AppOp
}.

Definition value_of (o : option Value) (v : Value) : bool :=
  match o with
  | Some x => Value_eqb x v
  | None => false
  end.

(** Does [doc] satisfy the selector [sel]?  A selector is an object
    or, in short, an [_id]. *)
Fixpoint matches (sel : Value) (doc : Value) {struct sel} : bool :=
  match sel with
  | VObj fs =>
      (fix fields (l : list (string * Value)) : bool :=
         match l with
         | [] => true
         | (k, cond) :: rest =>
             (if k =? "$and" then
                match cond with
                | VArr clauses =>
                    (fix all (cs : list Value) : bool :=
                       match cs with
                       | [] => true
                       | c :: cs' => matches c doc && all cs'
                       end) clauses
                | _ => false
                end
              else
                match cond with
                | VObj [("$exists", VBool b)] =>
                    Bool.eqb (is_some (field (Some doc) k)) b
                | VObj [("$ne", v)] => negb (value_of (field (Some doc) k) v)
                | _ => value_of (field (Some doc) k) cond
                end)
             && fields rest
         end) fs
  | VStr _ => value_of (field (Some doc) "_id") sel
  | _ => false
  end.

Definition in_collection (c : string) (sel : Value) (cd : string * Value) : bool :=
  (fst cd =? c) && matches sel (snd cd).

(** [$set] and [$unset] on top-level fields; other commands leave the
    document as it is. *)
Definition apply_command (doc : Obj) (cm : string * Value) : Obj :=
  match cm with
  | (c, VObj m) =>
      if c =? "$set" then obj_extend doc m
      else if c =? "$unset" then fold_left (fun d kv => obj_delete (fst kv) d) m doc
      else doc
  | _ => doc
  end.

Definition apply_modifier (m : Value) (doc : Value) : Value :=
  match m, doc with
  | VObj cms, VObj fs => VObj (fold_left apply_command cms fs)
  | _, _ => doc
  end.

Fixpoint update_first (c : string) (sel m : Value) (l : list (string * Value))
  : list (string * Value) * nat :=
  match l with
  | [] => ([], 0)
  | cd :: rest =>
      if in_collection c sel cd then ((fst cd, apply_modifier m (snd cd)) :: rest, 1)
      else let r := update_first c sel m rest in (cd :: fst r, snd r)
  end.

#[export] Instance store : AppStoreOps Db :=
  {| coll_findOne := fun db c sel =>
       option_map snd (List.find (in_collection c sel) (docs db));
     coll_count := fun db c sel =>
       match sel with
       | Some s => length (List.filter (in_collection c s) (docs db))
       | None => 0
       end;
     coll_insert := fun c d db =>
       match field (Some d) "_id" with
       | Some id =>
           if existsb (in_collection c id) (docs db) then Throw StoreError
           else Ok ({| docs := docs db ++ [(c, d)];
                       journal := journal db ++ [OpInsert c d] |}, id)
       | None => Throw StoreError
       end;
     coll_update := fun c sel m db =>
       let r := update_first c sel m (docs db) in
       Ok ({| docs := fst r; journal := journal db ++ [OpUpdate c sel m] |}, snd r);
     coll_remove := fun c sel db =>
       Ok ({| docs := List.filter (fun cd => negb (in_collection c sel cd)) (docs db);
              journal := journal db ++ [OpRemove c sel] |},
           length (List.filter (in_collection c sel) (docs db))) |}.

(** A [tx] object with the options of the constructor, a permissive
    [checkPermission] and no transaction open. *)
Definition fresh_tx : Transact :=
  {| checkPermission := fun _ _ _ _ => true;
     makeContext := fun _ _ _ _ => [];
     requireUser := true; softDelete := false; selfRepairMode := "complete";
     removeRolledBackTransactions := false;
     tx_inverseOperations := inverseOperations;
     _transaction_id := None; _autoTransaction := false; _items := [];
     _startAttempts := 0; _rollback := false; _rollbackReason := EmptyString;
     _lastTransactionData := None; _context := []; _description := EmptyString |}.

Definition env : Env :=
  {| userId := Some "or6YSgs6nT8Bs5o6p"; now := 1000; isClient := false;
     Random_id := fun n => ("tx" ++ string_of_Z (Z.of_nat n))%string |}.

End Ref.

(** ** Statements of the design document, as predicates *)

(** The rule of section 4.2 for one key [k] of the update map:
    [$set] of [k] to its former value when [k] was there, [$unset] of
    [k] when it was not. *)
Definition inverts_key `{RT : Runtime} (existingDoc : option Value)
    (inverse : UpdateData) (k : string) : Prop :=
  match _drillDown existingDoc k with
  | Ok (Some v) =>
      command inverse = "$set" /\ obj_get k (data inverse) = Some v
  | Ok None =>
      command inverse = "$unset" /\ is_some (obj_get k (data inverse)) = true
  | Throw _ => False
  end.

(** The entry [formerValues[k]] the default inverse stores for a key
    whose former value is [former]. *)
Definition former_entry (former : option Value) : Value :=
  match former with
  | Some v => v
  | None => VStr EmptyString
  end.

(** The command the loop of [_inverseUsingSet] ends with: each key
    overwrites it. *)
Definition last_command (former : string -> option Value) (ks : list string)
    (init : string) : string :=
  fold_left (fun _ k => if is_some (former k) then "$set" else "$unset") ks init.

(** A value for which [JSON.parse(JSON.stringify(v))] gives [v] back. *)
Definition json_serializable `{RT : Runtime} (v : Value) : Prop :=
  JSON_stringify v <> EmptyString /\ JSON_parse (VStr (JSON_stringify v)) = Ok v.

(** ** Inputs on which the model is run *)

Module Inputs.

(** A post that has a title and no subtitle. *)
Definition post : Value := VObj [("_id", VStr "p1"); ("title", VStr "old")].

(** [{title: "new", subtitle: "sub"}]: one key the post has, one it lacks. *)
Definition mixed_map : Obj := [("title", VStr "new"); ("subtitle", VStr "sub")].

(** [{title: "new"}] *)
Definition title_map : Obj := [("title", VStr "new")].

(** [{$set: {subtitle: null}}] *)
Definition set_null : UpdateData :=
  {| command := "$set"; data := [("subtitle", VNull)] |}.

(** [{$set: {title: "new", tags: ["a", "b"], meta: {n: 1}}}] *)
Definition set_structured : UpdateData :=
  {| command := "$set";
     data := [("title", VStr "new");
              ("tags", VArr [VStr "a"; VStr "b"]);
              ("meta", VObj [("n", VNum 1)])] |}.

End Inputs.

(** The commands section 4.2 of the design document lists. *)
Definition supported_commands : list string :=
  ["$set"; "$unset"; "$addToSet"; "$pull"; "$inc"; "$push"].

(** A record of the [transactions] collection that carries at least one
    item. *)
Definition has_items (d : TxDoc) : bool :=
  match tx_items d with
  | Some (_ :: _) => true
  | _ => false
  end.

Definition records_have_items (txs : list TxDoc) : Prop :=
  Forall (fun d => has_items d = true) txs.

(** Worlds reached by running the model on the reference store. *)
Module Scenario.

#[local] Existing Instance Ref.runtime.
#[local] Existing Instance Ref.store.

Definition run {A} (m : M Ref.Db A) (w : World Ref.Db) : World Ref.Db :=
  snd (m w).

Definition counter : Value := VObj [("_id", VStr "c1"); ("n", VNum 5)].

(** A logged-in user, two documents, no transaction yet. *)
Definition initial : World Ref.Db :=
  {| tx := Ref.fresh_tx;
     collections := {| Ref.docs := [("posts", Inputs.post); ("counters", counter)];
                       Ref.journal := [] |};
     transactions := [];
     drawn := 0 |}.

(** [tx.start("edit")] *)
Definition opened : World Ref.Db :=
  run (start Ref.env (Some "edit")) initial.

(** [tx.start("edit"); tx.start("inner")] *)
Definition opened_twice : World Ref.Db :=
  run (start Ref.env (Some "inner")) opened.

Definition instant : Opt :=
  {| o_inverse := None; o_context := None; o_instant := true;
     o_overridePermissionCheck := false |}.

(** [tx.start("edit")] then two instant updates of the title of the
    post: ["old"] to ["mid"], ["mid"] to ["new"]. *)
Definition edited_twice : World Ref.Db :=
  run (update Ref.env "posts" "p1"
         [("$set", [("title", VStr "new")])] (OptHash instant None))
    (run (update Ref.env "posts" "p1"
            [("$set", [("title", VStr "mid")])] (OptHash instant None))
       opened).

(** [tx.start("edit")] then two queued updates: the title of the post,
    and an [$addToSet] on a document that is not in the collection. *)
Definition queued_two : World Ref.Db :=
  run (update Ref.env "posts" "gone"
         [("$addToSet", [("tags", VStr "x")])] (OptHash empty_opt None))
    (run (update Ref.env "posts" "p1"
            [("$set", [("title", VStr "new")])] (OptHash empty_opt None))
       opened).

(** The clock a little later. *)
Definition later : Env :=
  {| userId := userId Ref.env; now := 2000; isClient := false;
     Random_id := Random_id Ref.env |}.

Definition with_items (items : list Item) (w : World Ref.Db) : World Ref.Db :=
  let t := tx w in
  {| tx := with_state t (_transaction_id t) (_autoTransaction t) items
             (_startAttempts t) (_rollback t) (_rollbackReason t)
             (_lastTransactionData t) (_context t) (_description t);
     collections := collections w; transactions := transactions w;
     drawn := drawn w |}.

(** [tx.start("edit")], two queued updates of the title of the post
    (to ["mid"], then to ["new"]) and [tx.commit()]. *)
Definition committed_two : World Ref.Db :=
  run (commit Ref.env ArgUndefined false)
    (run (update Ref.env "posts" "p1"
            [("$set", [("title", VStr "new")])] (OptHash empty_opt None))
       (run (update Ref.env "posts" "p1"
               [("$set", [("title", VStr "mid")])] (OptHash empty_opt None))
          opened)).

(** The item a queued insert of [{title: "second"}] with the new id
    ["p2"] leaves in the item list. *)
Definition queued_insert : Item :=
  _createItem ActInsert "posts" "p2"
    (Some {| fd_newDoc := Some (VObj [("title", VStr "second")]);
             fd_update := None; fd_inverse := None; fd_hardDelete := false;
             fd_doc := None |})
    false false.

(** A transaction that inserts the post ["p2"], committed. *)
Definition inserted : World Ref.Db :=
  run (commit Ref.env ArgUndefined false) (with_items [queued_insert] opened).

(** Later, a second transaction edits the inserted post. *)
Definition inserted_then_edited : World Ref.Db :=
  run (update later "posts" "p2"
         [("$set", [("title", VStr "edited")])] (OptHash empty_opt None))
    inserted.

(** The inserting transaction is undone, and a later transaction
    inserts a post with the same id again. *)
Definition inserted_undone : World Ref.Db :=
  run (_meteorTransactionsUndo later (Some "tx0")) inserted.

Definition reinserted : World Ref.Db :=
  run (commit later ArgUndefined false)
    (with_items [queued_insert] (run (start later (Some "again")) inserted_undone)).

(** Two single updates of the title of the post, each in its own
    automatic transaction, the second one later than the first. *)
Definition two_transactions : World Ref.Db :=
  run (update later "posts" "p1"
         [("$set", [("title", VStr "second edit")])] (OptHash empty_opt None))
    (run (update Ref.env "posts" "p1"
            [("$set", [("title", VStr "first edit")])] (OptHash empty_opt None))
       initial).

(** The title of a post, as stored. *)
Definition title_of (id : string) (w : World Ref.Db) : option Value :=
  field (coll_findOne (collections w) "posts" (sel_id id)) "title".


(** The world after the user undoes the last transaction of
    [committed_two], [inserted_then_edited] and [two_transactions]. *)
Definition undone_two : World Ref.Db :=
  run (_meteorTransactionsUndo Ref.env None) committed_two.

Definition undone_latest : World Ref.Db :=
  run (_meteorTransactionsUndo later None) two_transactions.

Definition undone_both : World Ref.Db :=
  run (_meteorTransactionsUndo later None) undone_latest.

Definition no_record : TxDoc :=
  {| tx_id := EmptyString; tx_user_id := None; tx_description := EmptyString;
     tx_items := None; tx_context := []; tx_lastModified := 0;
     tx_state := StPending; tx_undone := None; tx_expired := None |}.

(** The record at position [n] of the [transactions] collection and the
    items it carries. *)
Definition record (n : nat) (w : World Ref.Db) : TxDoc :=
  nth n (transactions w) no_record.

Definition items_of (d : TxDoc) : list Item :=
  match tx_items d with
  | Some l => l
  | None => []
  end.


End Scenario.

(** [m] keeps the property [P] of the [transactions] collection, whether
    it returns or throws. *)
Definition maintains {Db A} (P : list TxDoc -> Prop) (m : M Db A) : Prop :=
  forall w, P (transactions w) -> P (transactions (snd (m w))).

(** A modifier that cannot empty the item list of a record. *)
Definition keeps_items (m : TxModifier) : Prop :=
  match m with
  | SetItems [] => False
  | _ => True
  end.

(** The application collections after the write [op] was tried: as the
    store leaves them, or as they were when the write throws. *)
Definition try_write {Db : Type} `{Store : AppStoreOps Db} (s : Db) (op : AppOp) : Db :=
  match op with
  | OpInsert c d =>
      match coll_insert c d s with Ok (s', _) => s' | Throw _ => s end
  | OpUpdate c sel m =>
      match coll_update c sel m s with Ok (s', _) => s' | Throw _ => s end
  | OpRemove c sel =>
      match coll_remove c sel s with Ok (s', _) => s' | Throw _ => s end
  end.

(** The write that undoes one item of the transaction [txid]: an
    inserted document is removed, an update is answered by its stored
    inverse (none when the item has no usable inverse), a hard-deleted
    document is inserted again and a soft-deleted one loses its
    tombstone. *)
Definition inverse_write `{RT : Runtime} (txid : string) (obj : Item)
  : Outcome (list AppOp) :=
  let collection := item_collection obj in
  match item_action obj with
  | ActInsert => Ok [OpRemove collection (sel_id_txid (item_id obj) (Some txid))]
  | ActUpdate =>
      match usable (item_inverse obj) with
      | Some inverse =>
          do d <- _unpackageForUpdate (p_data inverse);
          Ok [OpUpdate collection (sel_id (item_id obj))
                (VObj [(p_command inverse, VObj d)])]
      | None => Ok []
      end
  | ActRemove =>
      Ok [if truthy_opt (item_doc obj) then
            OpInsert collection (match item_doc obj with Some d => d | None => VNull end)
          else
            OpUpdate collection (sel_id (item_id obj)) (unset_deleted (Some txid))]
  end.

(** The write that does one item of the transaction [txid] again, at
    time [t]. *)
Definition forward_write `{RT : Runtime} (t : Z) (txid : string) (obj : Item)
  : Outcome (list AppOp) :=
  let collection := item_collection obj in
  match item_action obj with
  | ActInsert =>
      do newDoc <- extend_doc (item_newDoc obj)
                     [("transaction_id", VStr txid); ("_id", VStr (item_id obj))];
      Ok [OpInsert collection newDoc]
  | ActUpdate =>
      match usable (item_update obj) with
      | Some u =>
          do d <- _unpackageForUpdate (p_data u);
          Ok [OpUpdate collection (sel_id (item_id obj)) (VObj [(p_command u, VObj d)])]
      | None => Ok []
      end
  | ActRemove =>
      Ok [if truthy_opt (item_doc obj) then OpRemove collection (sel_id (item_id obj))
          else OpUpdate collection (sel_id (item_id obj)) (set_deleted t txid)]
  end.

(** The writes of the items of [l], one item after the other. *)
Definition writes_in_order (f : Item -> Outcome (list AppOp)) (l : list Item)
    (before : list AppOp) : Outcome (list AppOp) :=
  each_throwing (fun acc obj => do ops <- f obj; Ok (acc ++ ops)) l before.

(** The world with another [transactions] collection. *)
Definition with_transactions {Db} (txs : list TxDoc) (w : World Db) : World Db :=
  {| tx := tx w; collections := collections w; transactions := txs;
     drawn := drawn w |}.

(** The world with other application collections. *)
Definition with_collections {Db} (s : Db) (w : World Db) : World Db :=
  {| tx := tx w; collections := s; transactions := transactions w;
     drawn := drawn w |}.

(** Staleness as undo looks for it in one item of the transaction
    [txid]: the document the item inserted now carries the id of another
    transaction, or a document with the [_id] of the hard-deleted
    snapshot is in the collection, so that the snapshot cannot go back
    in. *)
Definition stale_for_undo {Db : Type} `{Store : AppStoreOps Db} (db : Db)
    (txid : string) (obj : Item) : Prop :=
  (item_action obj = ActInsert
   /\ is_some (coll_findOne db (item_collection obj)
                 (sel_id_other_txid (item_id obj) txid)) = true)
  \/ (item_action obj = ActRemove
      /\ exists d,
          item_doc obj = Some d /\ truthy d = true
          /\ Nat.ltb 0 (coll_count db (item_collection obj) (field (Some d) "_id"))
             = true).

(** Staleness as redo looks for it: a document with the [_id] of the
    one the item inserted is in the collection again. *)
Definition stale_for_redo {Db : Type} `{Store : AppStoreOps Db} (db : Db)
    (obj : Item) : Prop :=
  item_action obj = ActInsert
  /\ Nat.eqb (coll_count db (item_collection obj) (Some (sel_id (item_id obj)))) 0
     = false.

(** ** The rest of the public interface

    [cancel], [transactionStarted], [insert], [remove] and the wrappers
    [undo] and [redo].  As for [update], a document is named by its
    [_id] and the user callback of a single write is left out.  The
    collections carry no schema ([_Collection2Support] answers no) and
    hand out string ids, Meteor's default. *)

(** What [insert] returns: nothing, the [_id] of the document it wrote
    at once, or the flag [!this._rollback]. *)
Inductive InsertRet : Type :=
| InsertUndefined
| InsertId (id : string)
| InsertBool (b : bool).

(** [{newDoc: d}] *)
Definition newDoc_fieldData (d : Obj) : FieldData :=
  {| fd_newDoc := Some (VObj d); fd_update := None; fd_inverse := None;
     fd_hardDelete := false; fd_doc := None |}.

(** [{hardDelete: true}], with [doc] once the document has been read. *)
Definition hardDelete_fieldData (doc : option Value) : FieldData :=
  {| fd_newDoc := None; fd_update := None; fd_inverse := None;
     fd_hardDelete := true; fd_doc := doc |}.

(** [opt.instant] and [opt.context] of an options hash that may be
    [undefined]. *)
Definition opt_instant (opt : option Opt) : bool :=
  match opt with
  | Some o => o_instant o
  | None => false
  end.

Definition opt_context (opt : option Opt) : option Obj :=
  match opt with
  | Some o => o_context o
  | None => None
  end.

(** The selector of [remove]: on the server it leaves documents that
    are already soft deleted alone. *)
Definition remove_selector (isServer : bool) (_id : string) : Value :=
  if isServer then
    VObj [("_id", VStr _id); ("deleted", VObj [("$exists", VBool false)])]
  else sel_id _id.

(** What the callback of [undo] and [redo] may set off. *)
Inductive Reaction : Type :=
| OnTransactionExpired
| Callback (err : option Err) (res : bool).

(** [res] of the callback as a condition. *)
Definition ret_truthy (r : Outcome Ret) : bool :=
  match r with
  | Ok (RetBool b) => b
  | _ => false
  end.

Section Writes.
Context `{RT : Runtime}.
Context {Db : Type} `{Store : AppStoreOps Db}.
Variable env : Env.

(** [cancel()] *)
Definition cancel : M Db unit := set_rollback "transaction-cancelled".

(** [transactionStarted()] *)
Definition transactionStarted : M Db bool :=
  perform w <- get;
  ret (is_some (_transaction_id (tx w))).

(** [_doInsert(collection, newDoc, opt, callback)] where the collection
    has no schema: [collection.insert(newDoc)], which answers with the
    [_id] of the new document.  An answer that is not a string has no
    place in an item of this model and counts as a failed insert. *)
Definition _doInsert (collection : string) (newDoc : Value) : M Db string :=
  fun w =>
    match coll_insert collection newDoc (collections w) with
    | Ok (s, VStr newId) =>
        (Ok newId,
         {| tx := tx w; collections := s; transactions := transactions w;
            drawn := drawn w |})
    | Ok (_, _) => (Throw StoreError, w)
    | Throw e => (Throw e, w)
    end.

(** [insert(collection, newDoc, opt, callback)].  [_.extend] changes
    [newDoc] in place, so the item queued after a failed instant insert
    carries the fields the attempt had put in. *)
Definition insert (collection : string) (newDoc : Obj) (opt : OptArg)
  : M Db InsertRet :=
  perform w <- get;
  let self := tx w in
  if _rollback self || (requireUser self && negb (is_some (userId env))) then
    ret InsertUndefined
  else
    let opt := normalise_opt opt in
    let overridden := _permissionCheckOverridden opt in
    if overridden
       || _permissionCheck self "insert" collection (Some (VObj newDoc)) (VObj []) then
      _openAutoTransaction env ("add " ++ drop_last collection)%string ;;
      _setContext (match opt_context opt with
                   | Some c => c
                   | None => makeContext self "insert" collection
                               (Some (VObj newDoc)) (VObj [])
                   end) ;;
      perform w1 <- get;
      let txid := _transaction_id (tx w1) in
      perform r <-
        (if opt_instant opt || _autoTransaction (tx w1) then
           let tagged := obj_extend newDoc [("transaction_id", id_value txid)] in
           perform inserted <-
             try_catch
               (perform newId <- _doInsert collection (VObj tagged);
                ret (Some newId))
               (fun _ => set_rollback "insert-error" ;; ret None);
           match inserted with
           | Some newId =>
               let newDoc' :=
                 obj_extend tagged
                   [("_id", VStr newId); ("transaction_id", id_value txid)] in
               try_catch
                 (_recordTransaction env
                    (_createItem ActInsert collection newId
                       (Some (newDoc_fieldData newDoc')) true overridden) ;;
                  _pushToRecord ActInsert collection newId
                    (Some (newDoc_fieldData newDoc')) true overridden ;;
                  _closeAutoTransaction env opt ;;
                  ret (Some newId, newDoc'))
                 (fun _ => set_rollback "insert-error" ;; ret (None, newDoc'))
           | None => ret (None, tagged)
           end
         else ret (None, newDoc));
      match fst r with
      | Some newId => ret (InsertId newId)
      | None =>
          perform newId <- draw_id env;
          _pushToRecord ActInsert collection newId
            (Some (newDoc_fieldData (snd r))) false overridden ;;
          _closeAutoTransaction env opt ;;
          perform w' <- get;
          ret (InsertBool (negb (_rollback (tx w'))))
      end
    else
      set_rollback "permission-denied" ;;
      ret InsertUndefined.

(** [_doRemove(collection, _id, sel, instant, opt, callback)];
    [opt_softDelete] is [opt.softDelete], [None] when the hash lacks
    it. *)
Definition _doRemove (collection _id : string) (sel : Value) (instant : bool)
    (opt : option Opt) (opt_softDelete : option bool) : M Db unit :=
  perform w <- get;
  let self := tx w in
  let overridden := _permissionCheckOverridden opt in
  let soft :=
    match opt, opt_softDelete with
    | Some _, Some b => b
    | _, _ => softDelete self
    end in
  if soft then
    _pushToRecord ActRemove collection _id None instant overridden ;;
    if instant then
      _recordTransaction env
        (_createItem ActRemove collection _id None instant overridden) ;;
      run_op (OpUpdate collection sel
                (VObj [("$set",
                        VObj [("deleted", VDate (now env));
                              ("transaction_id", id_value (_transaction_id self))])])) ;;
      ret tt
    else ret tt
  else
    perform fields <-
      (if instant then
         match coll_findOne (collections w) collection sel with
         | Some (VObj fullDoc) =>
             let doc :=
               VObj (obj_set "deleted" (VDate (now env))
                       (obj_set "transaction_id" (id_value (_transaction_id self))
                          fullDoc)) in
             _recordTransaction env
               (_createItem ActRemove collection _id
                  (Some (hardDelete_fieldData (Some doc))) instant overridden) ;;
             run_op (OpRemove collection sel) ;;
             ret (hardDelete_fieldData (Some doc))
         | _ => throw TypeError
         end
       else ret (hardDelete_fieldData None));
    _pushToRecord ActRemove collection _id (Some fields) instant overridden.

(** [remove(collection, doc, opt, callback)]; [opt_softDelete] is the
    property [softDelete] of the options hash in force, [None] when it
    has none. *)
Definition remove (collection _id : string) (opt : OptArg)
    (opt_softDelete : option bool) : M Db Ret :=
  perform w <- get;
  let self := tx w in
  if _rollback self || (requireUser self && negb (is_some (userId env))) then
    ret RetUndefined
  else
    let opt_softDelete :=
      match opt with
      | OptHash _ _ => opt_softDelete
      | _ => None
      end in
    let opt := normalise_opt opt in
    let existingDoc := coll_findOne (collections w) collection (sel_id _id) in
    if _permissionCheckOverridden opt
       || _permissionCheck self "remove" collection existingDoc (VObj []) then
      _openAutoTransaction env ("remove " ++ drop_last collection)%string ;;
      let sel := remove_selector (negb (isClient env)) _id in
      _setContext (match opt_context opt with
                   | Some c => c
                   | None => makeContext self "remove" collection existingDoc (VObj [])
                   end) ;;
      (if opt_instant opt then
         try_catch (_doRemove collection _id sel true opt opt_softDelete)
           (fun _ => set_rollback "remove-error")
       else _doRemove collection _id sel false opt opt_softDelete) ;;
      _closeAutoTransaction env opt ;;
      perform w' <- get;
      ret (RetBool (negb (_rollback (tx w'))))
    else
      set_rollback "permission-denied" ;;
      ret RetUndefined.

(** The function [undo] and [redo] hand to [Meteor.call];
    [tx.onTransactionExpired] is a function, as the constructor leaves
    it. *)
Definition expiry_reply (callback : bool) (r : Outcome Ret) : list Reaction :=
  (if isClient env && ret_truthy r then [OnTransactionExpired] else [])
  ++ (if callback then
        [Callback (match r with Throw e => Some e | Ok _ => None end)
           (negb (ret_truthy r))]
      else []).

(** [undo(txid, callback)]: [txid] is [None] unless a string was
    given. *)
Definition undo (txid : option string) (callback : bool) : M Db (list Reaction) :=
  Meteor_call (_meteorTransactionsUndo env txid)
    (fun r => ret (expiry_reply callback r)).

(** [redo(txid, callback)] *)
Definition redo (txid : option string) (callback : bool) : M Db (list Reaction) :=
  Meteor_call (_meteorTransactionsRedo env txid)
    (fun r => ret (expiry_reply callback r)).

End Writes.

(** ** Further predicates *)

(** The pair [(c, id)] is listed in the result of [newIds]: [id] is in
    the array kept under the key [c]. *)
Definition listed (memo : list (string * list string)) (c id : string) : Prop :=
  exists ids, In (c, ids) memo /\ In id ids.

(** The document [_checkTransactionFields] hands to the permission
    check for one item: the snapshot or the new document when it carries
    the id of the transaction, else the stored document. *)
Definition checked_doc {Db : Type} `{Store : AppStoreOps Db} (db : Db)
    (txid : string) (value : Item) : option Value :=
  match item_action value with
  | ActRemove =>
      if has_txid (item_doc value) txid then item_doc value
      else coll_findOne db (item_collection value) (sel_id (item_id value))
  | ActInsert =>
      if has_txid (item_newDoc value) txid then item_newDoc value
      else coll_findOne db (item_collection value) (sel_id (item_id value))
  | ActUpdate => coll_findOne db (item_collection value) (sel_id (item_id value))
  end.

(** The stored form [p] unpackages to the map the modifier [fields]
    holds under the command of [p]. *)
Definition recombined `{RT : Runtime} (p : option Packaged) (fields : Obj) : Prop :=
  exists details m,
    p = Some details
    /\ _unpackageForUpdate (p_data details) = Ok m
    /\ obj_get (p_command details) fields = Some (VObj m).

(** The item [value] went through the permission check of
    [_checkTransactionFields]. *)
Definition permitted `{RT : Runtime} {Db : Type} `{Store : AppStoreOps Db}
    (t : Transact) (db : Db) (txid : string) (value : Item) : Prop :=
  let doc := checked_doc db txid value in
  match item_action value with
  | ActUpdate =>
      exists upd inv,
        recombined (item_update value) upd
        /\ recombined (item_inverse value) inv
        /\ checkPermission t "update" (item_collection value) doc (VObj upd) = true
        /\ checkPermission t "update" (item_collection value) doc (VObj inv) = true
  | a =>
      checkPermission t (action_name a) (item_collection value) doc (VObj []) = true
  end.

(** Further inputs and worlds on which the properties are instantiated. *)
Module Cases.

#[local] Existing Instance Ref.runtime.
#[local] Existing Instance Ref.store.

(** An insert queued under [overridePermissionCheck]. *)
Definition unchecked_insert : Item :=
  _createItem ActInsert "posts" "p9"
    (Some (newDoc_fieldData [("title", VStr "ninth")])) false true.

(** A [tx] object whose [checkPermission] refuses everything. *)
Definition strict_tx : Transact :=
  {| checkPermission := fun _ _ _ _ => false;
     makeContext := makeContext Ref.fresh_tx;
     requireUser := true; softDelete := false; selfRepairMode := "complete";
     removeRolledBackTransactions := false;
     tx_inverseOperations := inverseOperations;
     _transaction_id := None; _autoTransaction := false; _items := [];
     _startAttempts := 0; _rollback := false; _rollbackReason := EmptyString;
     _lastTransactionData := None; _context := []; _description := EmptyString |}.

(** Nobody is logged in. *)
Definition anonymous : Env :=
  {| userId := None; now := now Ref.env; isClient := false;
     Random_id := Random_id Ref.env |}.

(** The world [initial] under the [tx] object that refuses everything. *)
Definition guarded : World Ref.Db :=
  {| tx := strict_tx; collections := collections Scenario.initial;
     transactions := []; drawn := 0 |}.

(** [tx.start("edit")] and two queued updates of the title of the post,
    not yet committed. *)
Definition two_queued : World Ref.Db :=
  Scenario.run (update Ref.env "posts" "p1"
                  [("$set", [("title", VStr "new")])] (OptHash empty_opt None))
    (Scenario.run (update Ref.env "posts" "p1"
                     [("$set", [("title", VStr "mid")])] (OptHash empty_opt None))
       Scenario.opened).

(** The same two updates, queued under the [tx] object that refuses
    everything, by overriding its check. *)
Definition overriding : Opt :=
  {| o_inverse := None; o_context := None; o_instant := false;
     o_overridePermissionCheck := true |}.

Definition smuggled : World Ref.Db :=
  Scenario.run (update Ref.env "posts" "p1"
                  [("$set", [("title", VStr "new")])] (OptHash overriding None))
    (Scenario.run (start Ref.env (Some "edit")) guarded).

(** The items of [smuggled] without their [noCheck] mark, as a client
    could send them. *)
Definition unmarked (it : Item) : Item :=
  {| item_collection := item_collection it; item_id := item_id it;
     item_action := item_action it; item_state := item_state it;
     item_instant := item_instant it; item_noCheck := false;
     item_newDoc := item_newDoc it; item_update := item_update it;
     item_inverse := item_inverse it; item_hardDelete := item_hardDelete it;
     item_doc := item_doc it |}.

Definition refused : World Ref.Db :=
  Scenario.with_items (map unmarked (_items (tx smuggled))) smuggled.

(** The transaction of [queued_two], cancelled. *)
Definition cancelled : World Ref.Db := Scenario.run cancel Scenario.queued_two.

End Cases.

(** The [tx] object as [_cleanReset] leaves it. *)
Definition clean (t : Transact) : Transact :=
  with_state t None false [] 0 false EmptyString (_lastTransactionData t) []
    EmptyString.

(** The [tx] object with the flag [_rollback] set for [reason]. *)
Definition flagged (reason : string) (t : Transact) : Transact :=
  with_state t (_transaction_id t) (_autoTransaction t) (_items t)
    (_startAttempts t) true reason (_lastTransactionData t) (_context t)
    (_description t).

(** The [tx] object with [_lastTransactionData] as [commit] sets it on
    entry. *)
Definition noted (t : Transact) : Transact :=
  with_state t (_transaction_id t) (_autoTransaction t) (_items t)
    (_startAttempts t) (_rollback t) (_rollbackReason t)
    (Some {| ltd_transaction_id := _transaction_id t; ltd_writes := None |})
    (_context t) (_description t).

(** The world with another [tx] object. *)
Definition with_tx {Db} (t : Transact) (w : World Db) : World Db :=
  {| tx := t; collections := collections w; transactions := transactions w;
     drawn := drawn w |}.

(** The items at the positions [index], ..., [index + n - 1] of the
    record [id] are given the state [st], one write per item. *)
Fixpoint mark_items (id : option string) (st : State) (index n : nat)
    (txs : list TxDoc) : list TxDoc :=
  match n with
  | O => txs
  | Datatypes.S n' =>
      mark_items id st (Datatypes.S index) n'
        (Transactions_update id (SetItemState index st) txs)
  end.

(** [m] keeps the property [P] of the world, whether it returns or
    throws. *)
Definition preserves {Db A} (P : World Db -> Prop) (m : M Db A) : Prop :=
  forall w, P w -> P (snd (m w)).

(** [P] does not look at the stores. *)
Definition store_blind {Db} (P : World Db -> Prop) : Prop :=
  forall w s txs,
    P w ->
    P {| tx := tx w; collections := s; transactions := txs; drawn := drawn w |}.

(** What [rollback] does to the record of the transaction once the
    items are marked: it removes it or sets its state. *)
Definition settle (t : Transact) (txs : list TxDoc) : list TxDoc :=
  if removeRolledBackTransactions t then Transactions_remove (_transaction_id t) txs
  else Transactions_update (_transaction_id t) (SetState StRolledBack) txs.

(** The world [w] has the builder of [w0] and as many ids drawn. *)
Definition same_builder {Db} (w0 w : World Db) : Prop :=
  tx w = tx w0 /\ drawn w = drawn w0.

(** The fields of the record [i] that decide on which of the two stacks
    (undo, redo) the transaction is. *)
Definition status_of (i : string) (txs : list TxDoc)
  : option (State * option Z * option bool) :=
  option_map (fun d => (tx_state d, tx_undone d, tx_expired d))
    (Transactions_findOne (Some i) txs).

(** The [tx] object with [item] pushed on its items and [context]
    merged into its context. *)
Definition queued (item : Item) (context : Obj) (t : Transact) : Transact :=
  with_state t (_transaction_id t) (_autoTransaction t) (_items t ++ [item])
    (_startAttempts t) (_rollback t) (_rollbackReason t) (_lastTransactionData t)
    (obj_extend (_context t) context) (_description t).

(** The [tx] object with [context] merged into its context. *)
Definition in_context (context : Obj) (t : Transact) : Transact :=
  with_state t (_transaction_id t) (_autoTransaction t) (_items t)
    (_startAttempts t) (_rollback t) (_rollbackReason t) (_lastTransactionData t)
    (obj_extend (_context t) context) (_description t).

(** The context a write merges in: the one its options give, else the
    one [makeContext] computes. *)
Definition context_of (opt : option Opt) (t : Transact) (command collection : string)
    (doc : option Value) (modifier : Value) : Obj :=
  match opt_context opt with
  | Some c => c
  | None => makeContext t command collection doc modifier
  end.

(** Soft or hard delete: [softDelete] of the options hash when it has
    one, else [tx.softDelete]. *)
Definition soft_delete_chosen (opt : OptArg) (opt_softDelete : option bool)
    (t : Transact) : bool :=
  match opt, opt_softDelete with
  | OptHash _ _, Some b => b
  | _, _ => softDelete t
  end.

(** The write passes the permission check of the builder, or overrides
    it. *)
Definition may_write (opt : option Opt) (t : Transact) (command collection : string)
    (doc : option Value) (modifier : Value) : bool :=
  _permissionCheckOverridden opt || checkPermission t command collection doc modifier.

(** The record [_recordTransaction] inserts for the transaction [id] of
    the builder [t]. *)
Definition new_record (env : Env) (t : Transact) (id : string)
    (items : option (list Item)) : TxDoc :=
  {| tx_id := id; tx_user_id := userId env; tx_description := _description t;
     tx_items := items; tx_context := _context t; tx_lastModified := now env;
     tx_state := StPending; tx_undone := None; tx_expired := None |}.

(** The [transactions] collection once [item] is on the record of the
    transaction [id]: the record is created with the item when it is not
    there, else the item is added to its set of items. *)
Definition recorded (env : Env) (t : Transact) (id : string) (item : Item)
    (txs : list TxDoc) : list TxDoc :=
  match Transactions_findOne (Some id) txs with
  | Some _ => Transactions_update (Some id) (AddToSetItems item) txs
  | None => txs ++ [new_record env t id (Some [item])]
  end.

(** The world [w] is the world [w0] with [n] pending update items queued
    on the open transaction: no store was written, no id drawn, the
    transaction is the same and is not an automatic one. *)
Definition queueing {Db} (w0 : World Db) (n : nat) (w : World Db) : Prop :=
  collections w = collections w0
  /\ transactions w = transactions w0
  /\ drawn w = drawn w0
  /\ _transaction_id (tx w) = _transaction_id (tx w0)
  /\ _autoTransaction (tx w) = false
  /\ _rollback (tx w) = _rollback (tx w0)
  /\ exists more,
       _items (tx w) = _items (tx w0) ++ more
       /\ length more = n
       /\ Forall (fun it => item_action it = ActUpdate
                            /\ item_instant it = false
                            /\ item_state it = StPending) more.

(** The options hash [update] works with once its loop has started:
    [{}] where none was given. *)
Definition opt_or_empty (opt : option Opt) : Opt :=
  match opt with
  | Some o => o
  | None => empty_opt
  end.

(** The inverse [update] stores for one command of the modifier: the
    one its options give, else the one the table [inverseOperations]
    computes, else the one [_inverseUsingSet] computes. *)
Definition chosen_inverse `{RT : Runtime} (t : Transact) (opt : option Opt)
    (collection : string) (existingDoc : option Value)
    (actionField : string * Obj) : Outcome UpdateData :=
  match o_inverse (opt_or_empty opt) with
  | Some inverse => Ok inverse
  | None =>
      match tx_inverseOperations t (fst actionField) with
      | Some f => f collection existingDoc (snd actionField) (opt_or_empty opt)
      | None =>
          _inverseUsingSet collection existingDoc (snd actionField)
            (opt_or_empty opt)
      end
  end.

(** The item a queued update pushes for one command of the modifier. *)
Definition queued_update_item `{RT : Runtime} (collection _id : string)
    (updates : list (string * Obj)) (actionField : string * Obj)
    (inverse : UpdateData) (opt : Opt) : Item :=
  _createItem ActUpdate collection _id
    (Some (update_fieldData
             (_packageForStorage
                (aliased updates
                   {| command := fst actionField; data := snd actionField |}))
             (_packageForStorage inverse)))
    false (o_overridePermissionCheck opt).

(** Two items say the same: they agree on everything but their state
    and the values of their stored inverse (its command and its keys are
    the same). *)
Definition same_payload (a b : Item) : Prop :=
  item_collection a = item_collection b
  /\ item_id a = item_id b
  /\ item_action a = item_action b
  /\ item_instant a = item_instant b
  /\ item_noCheck a = item_noCheck b
  /\ item_newDoc a = item_newDoc b
  /\ item_update a = item_update b
  /\ item_hardDelete a = item_hardDelete b
  /\ item_doc a = item_doc b
  /\ option_map p_command (item_inverse a) = option_map p_command (item_inverse b)
  /\ option_map (fun p => map key (p_data p)) (item_inverse a)
     = option_map (fun p => map key (p_data p)) (item_inverse b).

(** The record of the transaction [txid] is there and its items say the
    same as [expected], one by one. *)
Definition holds_payload (txid : string) (expected : list Item)
    (txs : list TxDoc) : Prop :=
  exists rec stored,
    Transactions_findOne (Some txid) txs = Some rec
    /\ tx_items rec = Some stored
    /\ Forall2 same_payload stored expected.

(** The items phase 1 puts on record: the ones handed in when the
    transaction has a record already, else the ones handed in with the
    snapshots of the documents about to be hard deleted. *)
Definition items_on_record {Db : Type} `{Store : AppStoreOps Db} (txid : string)
    (items : list Item) (w : World Db) : list Item :=
  if is_some (Transactions_findOne (Some txid) (transactions w)) then items
  else snapshot_hard_deletes (collections w) items.

(** An update item is well formed when its stored inverse has an entry
    for each entry of its update, as the items [update] builds with the
    inverse it computes have.  [cacheValues] writes at
    [items.<index>.inverse.data.<i>.value] for each [i] of the update;
    for a well-formed item the entry is there and only its value
    changes. *)
Definition inverse_covers_update (item : Item) : bool :=
  match item_action item with
  | ActUpdate =>
      match item_update item, item_inverse item with
      | Some u, Some inv => Nat.leb (length (p_data u)) (length (p_data inv))
      | _, _ => false
      end
  | _ => true
  end.

Module InstantCase.
#[local] Existing Instance Ref.runtime.
#[local] Existing Instance Ref.store.

(** [tx.start("edit"); tx.insert(Posts, {_id: "p7", title: "seventh"},
    {instant: true})]: the post is written and its item waits for the
    commit. *)
Definition written : World Ref.Db :=
  snd (insert Ref.env "posts" [("_id", VStr "p7"); ("title", VStr "seventh")]
         (OptHash Scenario.instant None) Scenario.opened).

End InstantCase.

(** The modifiers phase 2 sends to the record of the transaction. *)
Definition modifier_of_phase_two (m : TxModifier) : Prop :=
  match m with
  | SetItemState _ _ | SetInverseValue _ _ _ | SetStateLastModified _ _ => True
  | _ => False
  end.

(** Worlds in which the default inverse, a hard delete and the record of
    an instant write are followed through. *)
Module Followed.
#[local] Existing Instance Ref.runtime.
#[local] Existing Instance Ref.store.

(** [tx.update(Posts, "p1", {$set: {title: "new", subtitle: "sub"}})]
    outside a transaction, on the post that has a title and no
    subtitle. *)
Definition mixed_update : World Ref.Db :=
  Scenario.run
    (update Ref.env "posts" "p1" [("$set", Inputs.mixed_map)]
       (OptHash empty_opt None))
    Scenario.initial.

(** A first transaction removes the post for good and is committed. *)
Definition removed : World Ref.Db :=
  Scenario.run (commit Ref.env ArgUndefined false)
    (Scenario.run (remove Ref.env "posts" "p1" OptUndefined None) Scenario.opened).

(** The removal is undone: the post is back. *)
Definition removed_undone : World Ref.Db :=
  Scenario.run (_meteorTransactionsUndo Scenario.later (Some "tx0")) removed.

(** Later, a second transaction edits the post that is back. *)
Definition removed_undone_then_edited : World Ref.Db :=
  Scenario.run
    (update Scenario.later "posts" "p1" [("$set", [("title", VStr "edited")])]
       (OptHash empty_opt None))
    removed_undone.

End Followed.

(** The two writes of [_recordTransaction], one at a time.  The first:
    [Transactions.insert] of the record of the open transaction, with no
    [items] field, where the transaction has no record yet. *)
Definition record_inserted {Db} (env : Env) : M Db unit :=
  perform w <- get;
  let self := tx w in
  if is_some (Transactions_findOne (_transaction_id self) (transactions w))
  then ret tt
  else
    match _transaction_id self with
    | Some id =>
        txs_insert
          {| tx_id := id; tx_user_id := userId env;
             tx_description := _description self; tx_items := None;
             tx_context := _context self; tx_lastModified := now env;
             tx_state := StPending; tx_undone := None; tx_expired := None |} ;;
        ret tt
    | None => throw StoreError
    end.

(** The second: [$addToSet] of the item on that record. *)
Definition item_added {Db} (item : Item) : M Db unit :=
  perform w <- get;
  txs_update (_transaction_id (tx w)) (AddToSetItems item).

(** Every record has an item, but for the record [id]. *)
Definition lacks_items_only (id : option string) (txs : list TxDoc) : Prop :=
  Forall (fun d => has_items d = true \/ Some (tx_id d) = id) txs.

(** The item of an instant insert of the post ["p7"]. *)
Definition instant_insert_item : Item :=
  _createItem ActInsert "posts" "p7"
    (Some (newDoc_fieldData [("_id", VStr "p7"); ("title", VStr "seventh")]))
    true false.

(** * Properties *)

(** ** Plain objects *)

Lemma obj_get_set_same (k : string) (v : Value) (o : Obj) :
  obj_get k (obj_set k v o) = Some v.
Proof.
  induction o as [|[k' v'] o IH]; simpl.
  - now rewrite String.eqb_refl.
  - destruct (k =? k') eqn:E; simpl.
    + now rewrite String.eqb_refl.
    + now rewrite E.
Qed.

Lemma obj_get_set_other (k k' : string) (v : Value) (o : Obj) :
  k <> k' -> obj_get k (obj_set k' v o) = obj_get k o.
Proof.
  intros Hne. induction o as [|[k0 v0] o IH]; simpl.
  - apply String.eqb_neq in Hne. now rewrite Hne.
  - destruct (k' =? k0) eqn:E; simpl.
    + apply String.eqb_eq in E. subst k0.
      apply String.eqb_neq in Hne. now rewrite Hne.
    + destruct (k =? k0); auto.
Qed.

Lemma obj_set_fresh (k : string) (v : Value) (o : Obj) :
  ~ In k (keys o) -> obj_set k v o = o ++ [(k, v)].
Proof.
  induction o as [|[k' v'] o IH]; simpl; intros Hn; auto.
  destruct (k =? k') eqn:E.
  - apply String.eqb_eq in E. subst. tauto.
  - f_equal. apply IH. tauto.
Qed.

(** ** The inverse operation calculator *)

Section InverseFacts.
Context `{RT : Runtime}.

(** The loop of [_inverseUsingSet], from any point on: when no lookup
    throws, every key visited ends up mapped to its former value (or to
    the empty string), keys not visited keep what they had, and the
    command is the one of the last key. *)
Lemma inverse_loop (existingDoc : option Value) (former : string -> option Value)
    (ks : list string) :
  (forall k, In k ks -> _drillDown existingDoc k = Ok (former k)) ->
  forall acc : string * Obj,
  exists d,
    each_throwing
      (fun acc keyName =>
         do formerVal <- _drillDown existingDoc keyName;
         match formerVal with
         | Some v => Ok ("$set", obj_set keyName v (snd acc))
         | None => Ok ("$unset", obj_set keyName (VStr EmptyString) (snd acc))
         end) ks acc
    = Ok (last_command former ks (fst acc), d)
    /\ (forall k, In k ks -> obj_get k d = Some (former_entry (former k)))
    /\ (forall k, ~ In k ks -> obj_get k d = obj_get k (snd acc)).
Proof.
  induction ks as [|k0 ks IH]; intros Hall acc.
  - exists (snd acc). simpl. destruct acc; simpl. repeat split; auto.
    intros k [].
  - simpl. rewrite (Hall k0) by (left; reflexivity). simpl.
    assert (Hrest : forall k, In k ks -> _drillDown existingDoc k = Ok (former k))
      by (intros k Hk; apply Hall; right; exact Hk).
    destruct (former k0) as [v0|] eqn:Hk0; simpl.
    + destruct (IH Hrest ("$set", obj_set k0 v0 (snd acc))) as (d & Hd & Hin & Hout).
      exists d. split; [exact Hd|]. split.
      * intros k [->|Hk]; [|auto].
        destruct (in_dec string_dec k ks) as [Hi|Hni]; [auto|].
        rewrite (Hout _ Hni). simpl. rewrite obj_get_set_same, Hk0. reflexivity.
      * intros k Hk. rewrite Hout by tauto. simpl.
        apply obj_get_set_other. intros ->. apply Hk. now left.
    + destruct (IH Hrest ("$unset", obj_set k0 (VStr EmptyString) (snd acc)))
        as (d & Hd & Hin & Hout).
      exists d. split; [exact Hd|]. split.
      * intros k [->|Hk]; [|auto].
        destruct (in_dec string_dec k ks) as [Hi|Hni]; [auto|].
        rewrite (Hout _ Hni). simpl. rewrite obj_get_set_same, Hk0. reflexivity.
      * intros k Hk. rewrite Hout by tauto. simpl.
        apply obj_get_set_other. intros ->. apply Hk. now left.
Qed.

Lemma last_command_all_set (former : string -> option Value) (ks : list string) :
  (forall k, In k ks -> is_some (former k) = true) ->
  last_command former ks "$set" = "$set".
Proof.
  unfold last_command. induction ks as [|k ks IH]; simpl; intros H; auto.
  rewrite (H k) by now left. apply IH. intros k' Hk'. apply H. now right.
Qed.

Lemma last_command_all_unset (former : string -> option Value) (ks : list string)
    (init : string) :
  ks <> [] ->
  (forall k, In k ks -> former k = None) ->
  last_command former ks init = "$unset".
Proof.
  unfold last_command. revert init.
  induction ks as [|k ks IH]; simpl; intros init Hne H; [congruence|].
  rewrite (H k) by now left. simpl.
  destruct ks as [|k' ks']; [reflexivity|].
  apply IH; [discriminate|]. intros k0 Hk0. apply H. now right.
Qed.

(** For a former document and an update map whose keys
    were either all present in the document or all absent from it, the
    default inverse used for [$set], [$unset] and [$inc] is computed (the
    call does not throw) and obeys the per-key rule: [$set] of every key
    to its former value in the first case, [$unset] of every key in the
    second. *)
Theorem inverse_per_key_when_keys_agree
    (collection : string) (existingDoc : option Value) (updateMap : Obj)
    (opt : Opt) :
  (forall k, In k (keys updateMap) ->
             exists v, _drillDown existingDoc k = Ok (Some v))
  \/ (forall k, In k (keys updateMap) -> _drillDown existingDoc k = Ok None) ->
  forall cmd, In cmd ["$set"; "$unset"; "$inc"] ->
  exists f inverse,
    inverseOperations cmd = Some f
    /\ f collection existingDoc updateMap opt = Ok inverse
    /\ forall k, In k (keys updateMap) -> inverts_key existingDoc inverse k.
Proof.
  intros Hagree cmd Hcmd.
  exists _inverseUsingSet.
  assert (Htable : inverseOperations cmd = Some _inverseUsingSet).
  { simpl in Hcmd. destruct Hcmd as [<-|[<-|[<-|[]]]]; reflexivity. }
  unfold _inverseUsingSet.
  destruct Hagree as [Hall|Hnone].
  - (* every key was present *)
    set (former := fun k => match _drillDown existingDoc k with
                            | Ok o => o
                            | Throw _ => None
                            end).
    assert (Hf : forall k, In k (keys updateMap) ->
                           _drillDown existingDoc k = Ok (former k)).
    { intros k Hk. destruct (Hall k Hk) as [v Hv]. unfold former. now rewrite Hv. }
    destruct (inverse_loop existingDoc former (keys updateMap) Hf ("$set", []))
      as (d & Hd & Hin & _).
    exists {| command := "$set"; data := d |}.
    split; [exact Htable|]. split.
    + rewrite Hd. simpl. rewrite last_command_all_set; [reflexivity|].
      intros k Hk. destruct (Hall k Hk) as [v Hv]. unfold former. now rewrite Hv.
    + intros k Hk. unfold inverts_key.
      destruct (Hall k Hk) as [v Hv]. rewrite Hv. simpl. split; [reflexivity|].
      rewrite (Hin k Hk). unfold former. now rewrite Hv.
  - (* no key was present *)
    assert (Hf : forall k, In k (keys updateMap) ->
                           _drillDown existingDoc k = Ok ((fun _ => None) k))
      by exact Hnone.
    destruct (inverse_loop existingDoc (fun _ => None) (keys updateMap) Hf ("$set", []))
      as (d & Hd & Hin & _).
    exists {| command := last_command (fun _ => None) (keys updateMap) "$set";
              data := d |}.
    split; [exact Htable|]. split.
    + rewrite Hd. reflexivity.
    + intros k Hk. unfold inverts_key. rewrite (Hnone k Hk). simpl. split.
      * apply last_command_all_unset; [|reflexivity].
        intros E. rewrite E in Hk. exact Hk.
      * now rewrite (Hin k Hk).
Qed.

End InverseFacts.

(** [$inc] of a key the post has. *)
Lemma inverse_per_key_when_keys_agree_witness :
  exists f inverse,
    inverseOperations (RT := Ref.runtime) "$inc" = Some f
    /\ f "posts" (Some Inputs.post) Inputs.title_map empty_opt = Ok inverse
    /\ forall k, In k (keys Inputs.title_map) ->
                 inverts_key (RT := Ref.runtime) (Some Inputs.post) inverse k.
Proof.
  apply (inverse_per_key_when_keys_agree (RT := Ref.runtime)
           "posts" (Some Inputs.post) Inputs.title_map empty_opt).
  - left. intros k [<-|[]]. eexists. reflexivity.
  - simpl. auto.
Defined.

(** C4. The default inverse on a map that mixes a key the document has
    with one it lacks.  For [{title: "new", subtitle: "sub"}] on a post
    that has a title and no subtitle the loop of [_inverseUsingSet]
    takes the branch [Restore former value] for the title and then
    overwrites its command on the subtitle: the inverse stored is the
    one command [$unset] of both keys, where the per-key rule asks for
    [$set] of the title to ["old"].  Followed through: the update
    returns [true], and undoing it takes the title off the post instead
    of putting ["old"] back. *)
Theorem inverse_of_mixed_keys_loses_the_title :
  _inverseUsingSet (RT := Ref.runtime) "posts" (Some Inputs.post)
    Inputs.mixed_map empty_opt
  = Ok {| command := "$unset";
          data := [("title", VStr "old"); ("subtitle", VStr EmptyString)] |}
  /\ In "title" (keys Inputs.mixed_map)
  /\ _drillDown (RT := Ref.runtime) (Some Inputs.post) "title"
     = Ok (Some (VStr "old"))
  /\ ~ inverts_key (RT := Ref.runtime) (Some Inputs.post)
         {| command := "$unset";
            data := [("title", VStr "old"); ("subtitle", VStr EmptyString)] |}
         "title"
  /\ Scenario.title_of "p1" Scenario.initial = Some (VStr "old")
  /\ fst (update (RT := Ref.runtime) (Store := Ref.store) Ref.env "posts" "p1"
            [("$set", Inputs.mixed_map)] (OptHash empty_opt None) Scenario.initial)
     = Ok (RetBool true)
  /\ Scenario.title_of "p1" Followed.mixed_update = Some (VStr "new")
  /\ fst (_meteorTransactionsUndo (RT := Ref.runtime) (Store := Ref.store)
            Scenario.later None Followed.mixed_update)
     = Ok (RetBool false)
  /\ Scenario.title_of "p1"
       (Scenario.run
          (_meteorTransactionsUndo (RT := Ref.runtime) (Store := Ref.store)
             Scenario.later None)
          Followed.mixed_update)
     = None.
Proof.
  split; [reflexivity|]. split; [simpl; auto|]. split; [reflexivity|].
  split.
  - unfold inverts_key. simpl. intros [H _]. discriminate H.
  - repeat split; vm_compute; reflexivity.
Qed.

(** ** The stored form of an update *)

Section PackagingFacts.
Context `{RT : Runtime}.

Lemma unpackage_package_value (v : Value) :
  v <> VNull ->
  (isObject v = true -> json_serializable v) ->
  unpackage_value (package_value v) = Ok v.
Proof.
  intros Hnull Hser. unfold package_value.
  destruct v; simpl in *; try reflexivity; try congruence;
    destruct (Hser eq_refl) as [Hne Hparse];
    unfold unpackage_value; simpl;
    apply String.eqb_neq in Hne; rewrite Hne; simpl; exact Hparse.
Qed.

Lemma unpackage_loop (d : Obj) :
  forall acc : Obj,
  List.NoDup (keys acc ++ keys d) ->
  (forall k v, In (k, v) d ->
     v <> VNull /\ (isObject v = true -> json_serializable v)) ->
  each_throwing
    (fun objForUpdate val =>
       do unpackagedValue <- unpackage_value (value val);
       Ok (obj_set (key val) unpackagedValue objForUpdate))
    (map (fun kv => {| key := fst kv; value := package_value (snd kv) |}) d)
    acc
  = Ok (acc ++ d).
Proof.
  induction d as [|[k v] d IH]; intros acc Hnd Hok; simpl.
  - now rewrite app_nil_r.
  - destruct (Hok k v (or_introl eq_refl)) as [Hnull Hser].
    rewrite (unpackage_package_value v Hnull Hser). simpl.
    assert (Hfresh : ~ In k (keys acc)).
    { intros Hin. simpl in Hnd. apply List.NoDup_remove_2 in Hnd. apply Hnd.
      apply in_or_app. now left. }
    rewrite (obj_set_fresh k v acc Hfresh).
    rewrite IH.
    + now rewrite <- app_assoc.
    + unfold keys in *. rewrite List.map_app. simpl in *.
      now rewrite <- app_assoc.
    + intros k' v' Hin. apply (Hok k' v'). now right.
Qed.

(** Away from [null], packaging is undone by unpackaging: for an update
    map with distinct keys whose values are not [null] and whose objects
    and arrays are serializable, the stored form unpackages to the map
    itself. *)
Lemma package_roundtrip (u : UpdateData) :
  List.NoDup (keys (data u)) ->
  (forall k v, In (k, v) (data u) ->
     v <> VNull /\ (isObject v = true -> json_serializable v)) ->
  _unpackageForUpdate (p_data (_packageForStorage u)) = Ok (data u).
Proof.
  intros Hnd Hok. unfold _unpackageForUpdate, _packageForStorage. simpl.
  now rewrite (unpackage_loop (data u) [] Hnd Hok).
Qed.

(** C7. The update [{$set: {subtitle: null}}] is stored with its [null]
    as it is ([_.isObject(null)] is false), and reading the stored form
    back throws a [TypeError] at [val.value.json]: the round trip the
    design document promises for scalars fails on [null]. *)
Theorem unpackage_of_packaged_null_throws :
  p_data (_packageForStorage Inputs.set_null)
  = [{| key := "subtitle"; value := VNull |}]
  /\ _unpackageForUpdate (p_data (_packageForStorage Inputs.set_null))
     = Throw TypeError.
Proof. split; reflexivity. Qed.

End PackagingFacts.

(** The round trip on the reference runtime, for a map with a string,
    an array and an object. *)
Lemma package_roundtrip_example :
  _unpackageForUpdate (RT := Ref.runtime)
    (p_data (_packageForStorage (RT := Ref.runtime) Inputs.set_structured))
  = Ok (data Inputs.set_structured).
Proof.
  apply (package_roundtrip (RT := Ref.runtime)).
  - repeat constructor; simpl; intuition discriminate.
  - intros k v [E|[E|[E|[]]]]; inversion E; subst; clear E.
    + split; [discriminate|]. intros H. discriminate H.
    + split; [discriminate|]. intros _. split; [discriminate|reflexivity].
    + split; [discriminate|]. intros _. split; [discriminate|reflexivity].
Qed.

(** ** The transaction builder *)

Section BuilderFacts.
Context `{RT : Runtime}.
Context {Db : Type} `{Store : AppStoreOps Db}.
Variable env : Env.

(** C10 (as amended). When [commit] is called on an open transaction
    whose item list is empty, by a user who may commit, with no
    transaction id other than the open one, and with no start attempt
    pending (or with the id of the open transaction, or [null]), it
    returns [true], does not invoke the callback, and leaves the
    application collections and the [transactions] collection as they
    were. *)
Theorem commit_of_empty_transaction
    (txid : CommitArg) (callback : bool) (w : World Db) (current : string) :
  _transaction_id (tx w) = Some current ->
  _items (tx w) = [] ->
  (requireUser (tx w) = true -> is_some (userId env) = true) ->
  names_other_transaction txid current = false ->
  ((_startAttempts (tx w) <= 0)%Z \/ names_this_transaction txid current = true) ->
  exists w',
    commit env txid callback w = (Ok (RetBool true, []), w')
    /\ collections w' = collections w
    /\ transactions w' = transactions w.
Proof.
  intros Hopen Hempty Huser Hother Hattempts.
  unfold commit, bind, get. simpl.
  assert (Hu : requireUser (tx w) && negb (is_some (userId env)) = false).
  { destruct (requireUser (tx w)); [|reflexivity].
    rewrite Huser by reflexivity. reflexivity. }
  rewrite Hu. unfold set_lastTransactionData, bind, get, set_tx. simpl.
  rewrite Hopen, Hother.
  assert (Ha : (0 <? _startAttempts (tx w))%Z
               && negb (names_this_transaction txid current) = false).
  { destruct Hattempts as [Hle|Hthis].
    - apply Z.ltb_ge in Hle. now rewrite Hle.
    - rewrite Hthis. apply andb_false_r. }
  rewrite Ha, Hempty. unfold ret.
  eexists. split; [reflexivity|]. split; reflexivity.
Qed.

(** Whatever its arguments, [commit] on an empty item list writes to no
    collection. *)
Lemma commit_of_empty_list_writes_nothing
    (txid : CommitArg) (callback : bool) (w : World Db) :
  _items (tx w) = [] ->
  collections (snd (commit env txid callback w)) = collections w
  /\ transactions (snd (commit env txid callback w)) = transactions w.
Proof.
  intros Hempty. unfold commit, bind, get. simpl.
  destruct (requireUser (tx w) && negb (is_some (userId env))); [split; reflexivity|].
  unfold set_lastTransactionData, bind, get, set_tx. simpl.
  destruct (_transaction_id (tx w)) as [current|]; [|split; reflexivity].
  destruct (names_other_transaction txid current); [split; reflexivity|].
  destruct ((0 <? _startAttempts (tx w))%Z
            && negb (names_this_transaction txid current)); [split; reflexivity|].
  rewrite Hempty. split; reflexivity.
Qed.

(** C6. The start-up script of the server leaves the world as it found
    it, whatever [tx.selfRepairMode] says and whatever transactions are
    pending: the cases [complete] and [rollback] of its [switch] are
    empty. *)
Theorem startup_selfRepair_changes_nothing (w : World Db) :
  startup_selfRepair w = (Ok tt, w).
Proof.
  unfold startup_selfRepair, bind, get, ret. simpl.
  destruct (selfRepairMode (tx w) =? "complete"); [reflexivity|].
  destruct (selfRepairMode (tx w) =? "rollback"); reflexivity.
Qed.

End BuilderFacts.

(** C10, witness: a freshly started transaction committed with a
    callback. *)
Lemma commit_of_empty_transaction_witness :
  exists w',
    commit (RT := Ref.runtime) (Store := Ref.store) Ref.env ArgFunction false Scenario.opened
    = (Ok (RetBool true, []), w')
    /\ collections w' = collections Scenario.opened
    /\ transactions w' = transactions Scenario.opened.
Proof.
  apply (commit_of_empty_transaction (RT := Ref.runtime) (Store := Ref.store) Ref.env
           ArgFunction false Scenario.opened "tx0").
  - reflexivity.
  - reflexivity.
  - reflexivity.
  - reflexivity.
  - left. vm_compute. discriminate.
Defined.

(** C10, counterexample: after [tx.start("edit"); tx.start("inner")] the
    transaction is open and its item list is empty, yet
    [tx.commit(callback)] returns [undefined] and invokes the callback
    with the error [multiple-transactions-open]. *)
Lemma commit_of_empty_transaction_counterexample :
  _transaction_id (tx Scenario.opened_twice) = Some "tx0"
  /\ _items (tx Scenario.opened_twice) = []
  /\ fst (commit (RT := Ref.runtime) (Store := Ref.store) Ref.env ArgFunction false Scenario.opened_twice)
     = Ok (RetUndefined,
           [{| cb_error := Some (MeteorError "multiple-transactions-open");
               cb_result := ResFalse |}]).
Proof. repeat split; reflexivity. Qed.

(** ** Properties of the [transactions] collection kept by the monad *)

Section Maintains.
Context {Db : Type} `{Store : AppStoreOps Db}.
Variable P : list TxDoc -> Prop.

Lemma maintains_ret {A} (a : A) : maintains (Db := Db) P (ret a).
Proof. intros w H. exact H. Qed.

Lemma maintains_throw {A} (e : Err) : maintains (Db := Db) (A := A) P (throw e).
Proof. intros w H. exact H. Qed.

Lemma maintains_lift {A} (o : Outcome A) : maintains (Db := Db) P (lift o).
Proof. intros w H. exact H. Qed.

Lemma maintains_get : maintains (Db := Db) P get.
Proof. intros w H. exact H. Qed.

Lemma maintains_set_tx (t : Transact) : maintains (Db := Db) P (set_tx t).
Proof. intros w H. exact H. Qed.

Lemma maintains_bind {A B} (m : M Db A) (k : A -> M Db B) :
  maintains P m -> (forall a, maintains P (k a)) -> maintains P (bind m k).
Proof.
  intros Hm Hk w H. unfold bind. specialize (Hm w H).
  destruct (m w) as [[a|e] w']; simpl in *.
  - apply Hk. exact Hm.
  - exact Hm.
Qed.

Lemma maintains_try_catch {A} (m : M Db A) (h : Err -> M Db A) :
  maintains P m -> (forall e, maintains P (h e)) -> maintains P (try_catch m h).
Proof.
  intros Hm Hh w H. unfold try_catch. specialize (Hm w H).
  destruct (m w) as [[a|e] w']; simpl in *.
  - exact Hm.
  - apply Hh. exact Hm.
Qed.

Lemma maintains_run_op (op : AppOp) : maintains P (run_op op).
Proof.
  intros w H. unfold run_op.
  destruct op as [c d|c sel m|c sel].
  - destruct (coll_insert c d (collections w)) as [[s id]|e]; exact H.
  - destruct (coll_update c sel m (collections w)) as [[s n]|e]; exact H.
  - destruct (coll_remove c sel (collections w)) as [[s n]|e]; exact H.
Qed.

Lemma maintains_attempt (op : AppOp) : maintains P (attempt op).
Proof.
  unfold attempt. apply maintains_try_catch.
  - apply maintains_bind; [apply maintains_run_op|intros; apply maintains_ret].
  - intros; apply maintains_ret.
Qed.

Lemma maintains_each_indexed {A St} (f : St -> nat -> A -> M Db St) (l : list A) :
  (forall s i x, maintains P (f s i x)) ->
  forall i s, maintains P (each_indexed f l i s).
Proof.
  intros Hf. induction l as [|x l IH]; intros i s; simpl.
  - apply maintains_ret.
  - apply maintains_bind; [apply Hf|]. intros s'. apply IH.
Qed.

Lemma maintains_txs_update (id : option string) (m : TxModifier) :
  (forall txs, P txs -> P (Transactions_update id m txs)) ->
  maintains (Db := Db) P (txs_update id m).
Proof. intros Hm w H. unfold txs_update, bind, get, set_transactions. simpl. auto. Qed.

Lemma maintains_txs_remove (id : option string) :
  (forall txs, P txs -> P (Transactions_remove id txs)) ->
  maintains (Db := Db) P (txs_remove id).
Proof. intros Hm w H. unfold txs_remove, bind, get, set_transactions. simpl. auto. Qed.

Lemma maintains_Meteor_call {A B} (method : M Db A)
    (callback : Outcome A -> M Db (list B)) :
  maintains P method -> (forall r, maintains P (callback r)) ->
  maintains P (Meteor_call method callback).
Proof.
  intros Hm Hc w H. unfold Meteor_call. specialize (Hm w H).
  destruct (method w) as [r w1]. simpl in Hm. specialize (Hc r w1 Hm).
  destruct (callback r w1) as [[calls|e] w2]; exact Hc.
Qed.

End Maintains.

Create HintDb maintains.

#[local] Hint Resolve maintains_ret maintains_throw maintains_lift maintains_get
  maintains_set_tx maintains_run_op maintains_attempt : maintains.

(** One step through a computation, for goals of the form
    [maintains P m]. *)
Ltac maintains_step :=
  lazymatch goal with
  | |- maintains _ (bind _ _) => apply maintains_bind; [|intros ?]
  | |- maintains _ (try_catch _ _) => apply maintains_try_catch; [|intros ?]
  | |- maintains _ (each_indexed _ _ _ _) => apply maintains_each_indexed; intros ? ? ?
  | |- maintains _ (Meteor_call _ _) => apply maintains_Meteor_call; [|intros ?]
  | |- maintains _ (if ?b then _ else _) => destruct b
  | |- maintains _ (match ?x with _ => _ end) => destruct x
  | |- maintains _ (let _ := _ in _) => cbv zeta
  | |- maintains _ _ => solve [auto with maintains]
  end.

Ltac maintains_auto := repeat maintains_step.

(** ** No record without items *)

Lemma alter_not_nil {A} (f : A -> A) (i : nat) (l : list A) :
  l <> [] -> alter f i l <> [].
Proof. destruct l as [|x l]; [congruence|]. destruct i; discriminate. Qed.

Lemma apply_TxModifier_has_items (m : TxModifier) (d : TxDoc) :
  keeps_items m -> has_items d = true -> has_items (apply_TxModifier m d) = true.
Proof.
  unfold has_items. intros Hm Hd.
  destruct (tx_items d) as [[|x l]|] eqn:E; try discriminate.
  destruct m as [items|item|index st|index i v|st|st t|t st|st|b]; simpl in *;
    rewrite ?E; simpl; try reflexivity.
  - destruct items; [contradiction|reflexivity].
  - destruct (Item_eqb item x || existsb (Item_eqb item) l); simpl;
      [now rewrite E|reflexivity].
  - destruct index; reflexivity.
  - destruct index; reflexivity.
Qed.

Lemma Transactions_update_have_items (id : option string) (m : TxModifier)
    (txs : list TxDoc) :
  keeps_items m -> records_have_items txs ->
  records_have_items (Transactions_update id m txs).
Proof.
  intros Hm H. destruct id as [i|]; [|exact H]. simpl.
  induction H as [|d txs Hd H IH]; simpl; [constructor|].
  destruct (tx_id d =? i).
  - constructor; [|exact H]. now apply apply_TxModifier_has_items.
  - constructor; assumption.
Qed.

Lemma Transactions_remove_have_items (id : option string) (txs : list TxDoc) :
  records_have_items txs -> records_have_items (Transactions_remove id txs).
Proof.
  intros H. destruct id as [i|]; [|exact H]. simpl.
  induction H as [|d txs Hd H IH]; simpl; [constructor|].
  destruct (negb (tx_id d =? i)); [constructor|]; assumption.
Qed.

Lemma Transactions_update_id_new (i : string) (m : TxModifier) (d : TxDoc)
    (txs : list TxDoc) :
  List.find (fun d' => tx_id d' =? i) txs = None ->
  tx_id d = i ->
  Transactions_update_id i m (txs ++ [d]) = txs ++ [apply_TxModifier m d].
Proof.
  intros Hnone Hid. induction txs as [|d0 txs IH]; simpl in *.
  - rewrite Hid, String.eqb_refl. reflexivity.
  - destruct (tx_id d0 =? i); [discriminate|]. now rewrite IH.
Qed.

Lemma find_none_existsb (i : string) (txs : list TxDoc) :
  List.find (fun d' => tx_id d' =? i) txs = None ->
  existsb (fun d' => tx_id d' =? i) txs = false.
Proof.
  intros Hnone. induction txs as [|d0 txs IH]; simpl in *; [reflexivity|].
  destruct (tx_id d0 =? i); [discriminate|]. now apply IH.
Qed.

Section HaveItems.
Context `{RT : Runtime}.
Context {Db : Type} `{Store : AppStoreOps Db}.
Variable env : Env.

Lemma have_items_txs_update (id : option string) (m : TxModifier) :
  keeps_items m -> maintains (Db := Db) records_have_items (txs_update id m).
Proof.
  intros Hm. apply maintains_txs_update. intros txs.
  now apply Transactions_update_have_items.
Qed.

Lemma have_items_txs_remove (id : option string) :
  maintains (Db := Db) records_have_items (txs_remove id).
Proof.
  apply maintains_txs_remove. intros txs. apply Transactions_remove_have_items.
Qed.

Lemma have_items_txs_insert (d : TxDoc) :
  has_items d = true -> maintains (Db := Db) records_have_items (txs_insert d).
Proof.
  intros Hd w H. unfold txs_insert, bind, get, lift, Transactions_insert. simpl.
  destruct (existsb (fun d' => tx_id d' =? tx_id d) (transactions w)); simpl;
    [exact H|].
  apply Forall_app. split; [exact H|]. constructor; [exact Hd|constructor].
Qed.

(** [_recordTransaction] creates the record without items and adds the
    item in the next write: when it is done, the record has the item. *)
Lemma have_items_recordTransaction (item : Item) :
  maintains (Db := Db) records_have_items (_recordTransaction env item).
Proof.
  intros w H. unfold _recordTransaction, bind, get. simpl.
  destruct (Transactions_findOne (_transaction_id (tx w)) (transactions w))
    as [found|] eqn:Hfind; simpl.
  - unfold ret, txs_update, bind, get, set_transactions. simpl.
    now apply Transactions_update_have_items.
  - destruct (_transaction_id (tx w)) as [id|] eqn:Hid; simpl; [|exact H].
    unfold txs_insert, bind, get, lift, Transactions_insert. simpl in *.
    rewrite (find_none_existsb id) by exact Hfind. simpl.
    unfold txs_update, bind, get, set_transactions. simpl.
    rewrite (Transactions_update_id_new id) by (auto; reflexivity).
    apply Forall_app. split; [exact H|]. constructor; [reflexivity|constructor].
Qed.

#[local] Hint Resolve have_items_txs_update have_items_txs_remove
  have_items_txs_insert have_items_recordTransaction : maintains.
#[local] Hint Extern 1 (keeps_items _) => exact I : maintains.
#[local] Hint Extern 1 (has_items _ = true) => reflexivity : maintains.

Lemma have_items_changeItemState (txid : option string) (index : nat) (st : State) :
  maintains (Db := Db) records_have_items (_changeItemState txid index st).
Proof. unfold _changeItemState. auto with maintains. Qed.

Lemma have_items_cleanReset : maintains (Db := Db) records_have_items _cleanReset.
Proof. unfold _cleanReset. maintains_auto. Qed.

Lemma have_items_set_rollback (reason : string) :
  maintains (Db := Db) records_have_items (set_rollback reason).
Proof. unfold set_rollback. maintains_auto. Qed.

Lemma have_items_setContext (context : Obj) :
  maintains (Db := Db) records_have_items (_setContext context).
Proof. unfold _setContext. maintains_auto. Qed.

Lemma have_items_pushToRecord (type : Action) (collection _id : string)
    (fieldData : option FieldData) (instant overridden : bool) :
  maintains (Db := Db) records_have_items
    (_pushToRecord type collection _id fieldData instant overridden).
Proof. unfold _pushToRecord. maintains_auto. Qed.

Lemma have_items_set_lastTransactionData (ltd : LastTransactionData) :
  maintains (Db := Db) records_have_items (set_lastTransactionData ltd).
Proof. unfold set_lastTransactionData. maintains_auto. Qed.

Lemma have_items_decrement :
  maintains (Db := Db) records_have_items decrement_startAttempts.
Proof. unfold decrement_startAttempts. maintains_auto. Qed.

#[local] Hint Resolve have_items_changeItemState have_items_cleanReset
  have_items_set_rollback have_items_setContext have_items_pushToRecord
  have_items_set_lastTransactionData have_items_decrement : maintains.

Lemma have_items_rollback : maintains (Db := Db) records_have_items rollback.
Proof. unfold rollback, rollback_step. maintains_auto. Qed.

#[local] Hint Resolve have_items_rollback : maintains.

Lemma have_items_cacheValues (txid : string) (item : Item) (index : nat)
    (updateCache : Cache) :
  maintains (Db := Db) records_have_items (cacheValues txid item index updateCache).
Proof. unfold cacheValues. maintains_auto. Qed.

#[local] Hint Resolve have_items_cacheValues : maintains.

Lemma have_items_process_step (txid : string) (st : bool * Cache) (index : nat)
    (item : Item) :
  maintains (Db := Db) records_have_items (process_step env txid st index item).
Proof. unfold process_step. maintains_auto. Qed.

#[local] Hint Resolve have_items_process_step : maintains.

Lemma have_items_Process (txid description : string) (items : list Item)
    (context : Obj) :
  maintains (Db := Db) records_have_items
    (_meteorTransactionsProcess env txid description items context).
Proof.
  unfold _meteorTransactionsProcess.
  destruct items as [|item items].
  - intros w H. unfold bind, get, lift. simpl. exact H.
  - maintains_auto.
Qed.

#[local] Hint Resolve have_items_Process : maintains.

Lemma have_items_commit (txid : CommitArg) (callback : bool) :
  maintains (Db := Db) records_have_items (commit env txid callback).
Proof. unfold commit, commit_result. maintains_auto. Qed.

#[local] Hint Resolve have_items_commit : maintains.

Lemma have_items_start (description : option string) :
  maintains (Db := Db) records_have_items (start env description).
Proof.
  unfold start. maintains_auto.
Qed.

#[local] Hint Resolve have_items_start : maintains.

Lemma have_items_update (collection _id : string) (updates : list (string * Obj))
    (opt : OptArg) :
  maintains (Db := Db) records_have_items (update env collection _id updates opt).
Proof.
  unfold update, _openAutoTransaction, _closeAutoTransaction, update_step, _doUpdate.
  maintains_auto.
Qed.

Lemma have_items_process_queue (txid : string) (st : State)
    (item_index : nat -> nat) (queuedItems : list AppOp) :
  maintains (Db := Db) records_have_items
    (process_queue txid st item_index queuedItems).
Proof. unfold process_queue. maintains_auto. Qed.

#[local] Hint Resolve have_items_process_queue : maintains.

Lemma have_items_Undo (txid : option string) :
  maintains (Db := Db) records_have_items (_meteorTransactionsUndo env txid).
Proof. unfold _meteorTransactionsUndo. maintains_auto. Qed.

Lemma have_items_Redo (txid : option string) :
  maintains (Db := Db) records_have_items (_meteorTransactionsRedo env txid).
Proof. unfold _meteorTransactionsRedo. maintains_auto. Qed.

#[local] Hint Resolve have_items_Undo have_items_Redo : maintains.

Lemma have_items_insert (collection : string) (newDoc : Obj) (opt : OptArg) :
  maintains (Db := Db) records_have_items (insert env collection newDoc opt).
Proof.
  unfold insert, _openAutoTransaction, _closeAutoTransaction, draw_id.
  maintains_auto.
  intros w H. unfold _doInsert.
  destruct (coll_insert collection _ (collections w)) as [[s [| | | | | |]]|e];
    exact H.
Qed.

Lemma have_items_doRemove (collection _id : string) (sel : Value) (instant : bool)
    (opt : option Opt) (opt_softDelete : option bool) :
  maintains (Db := Db) records_have_items
    (_doRemove env collection _id sel instant opt opt_softDelete).
Proof. unfold _doRemove. maintains_auto. Qed.

Lemma have_items_remove (collection _id : string) (opt : OptArg)
    (opt_softDelete : option bool) :
  maintains (Db := Db) records_have_items
    (remove env collection _id opt opt_softDelete).
Proof.
  pose proof have_items_doRemove as Hd.
  unfold remove, _openAutoTransaction, _closeAutoTransaction.
  maintains_auto; apply Hd.
Qed.

Lemma have_items_cancel : maintains (Db := Db) records_have_items cancel.
Proof. unfold cancel. auto with maintains. Qed.

Lemma have_items_undo (txid : option string) (callback : bool) :
  maintains (Db := Db) records_have_items (undo env txid callback).
Proof. unfold undo. maintains_auto. Qed.

Lemma have_items_redo (txid : option string) (callback : bool) :
  maintains (Db := Db) records_have_items (redo env txid callback).
Proof. unfold redo. maintains_auto. Qed.

End HaveItems.

Section NoEmptyRecord.
Context `{RT : Runtime}.
Context {Db : Type} `{Store : AppStoreOps Db}.
Variable env : Env.

(** [_recordTransaction] is its two writes, one after the other. *)
Lemma recordTransaction_in_two_writes (item : Item) (w : World Db) :
  _recordTransaction env item w = (record_inserted env ;; item_added item) w.
Proof.
  unfold _recordTransaction, record_inserted, item_added, bind, get. simpl.
  destruct (Transactions_findOne (_transaction_id (tx w)) (transactions w));
    simpl; [reflexivity|].
  destruct (_transaction_id (tx w)) as [id|] eqn:Hid; simpl; [|reflexivity].
  unfold txs_insert, bind, get, lift, ret, set_transactions. simpl.
  destruct (Transactions_insert _ (transactions w)) as [[txs newId]|e];
    simpl; rewrite ?Hid; reflexivity.
Qed.

(** Between the two writes, the record of the open transaction is the
    only one that may be without items. *)
Lemma record_inserted_lacks_only_open (w : World Db) :
  records_have_items (transactions w) ->
  lacks_items_only (_transaction_id (tx w))
    (transactions (snd (record_inserted env w))).
Proof.
  intros H.
  assert (Hw : lacks_items_only (_transaction_id (tx w)) (transactions w)).
  { eapply Forall_impl; [exact H|]. intros d Hd. now left. }
  unfold record_inserted, bind, get. simpl.
  destruct (Transactions_findOne (_transaction_id (tx w)) (transactions w));
    simpl; [exact Hw|].
  destruct (_transaction_id (tx w)) as [id|]; simpl; [|exact Hw].
  unfold txs_insert, bind, get, lift, Transactions_insert. simpl.
  destruct (existsb (fun d' => tx_id d' =? id) (transactions w)); simpl;
    [exact Hw|].
  apply Forall_app. split; [exact Hw|].
  constructor; [now right|constructor].
Qed.

(** C8 (as amended). No operation of the package leaves a record without
    items behind: if every record of the [transactions] collection has
    at least one item before [start], [insert], [update], [remove],
    [cancel], [commit], [rollback], [undo], [redo], the three methods
    or [_recordTransaction], then so it is after, whether the operation
    returns or throws.  Inside [_recordTransaction] it is otherwise:
    the call is an insert of the record followed by an [$addToSet] of
    the item, and between the two the record of the open transaction
    (and no other) is in the collection without items.  [commit] on an
    empty item list writes no record (it writes to no collection at
    all). *)
Theorem no_record_without_items (w : World Db) :
  records_have_items (transactions w) ->
  (forall txid callback,
      _items (tx w) = [] ->
      transactions (snd (commit env txid callback w)) = transactions w
      /\ collections (snd (commit env txid callback w)) = collections w)
  /\ (forall txid callback,
         records_have_items (transactions (snd (commit env txid callback w))))
  /\ (forall item,
         records_have_items (transactions (snd (_recordTransaction env item w))))
  /\ (forall txid description items context,
         records_have_items
           (transactions
              (snd (_meteorTransactionsProcess env txid description items context w))))
  /\ (forall collection _id updates opt,
         records_have_items
           (transactions (snd (update env collection _id updates opt w))))
  /\ records_have_items (transactions (snd (rollback w)))
  /\ (forall txid,
         records_have_items (transactions (snd (_meteorTransactionsUndo env txid w))))
  /\ (forall txid,
         records_have_items (transactions (snd (_meteorTransactionsRedo env txid w))))
  /\ (forall description,
         records_have_items (transactions (snd (start env description w))))
  /\ (forall collection newDoc opt,
         records_have_items
           (transactions (snd (insert env collection newDoc opt w))))
  /\ (forall collection _id opt opt_softDelete,
         records_have_items
           (transactions (snd (remove env collection _id opt opt_softDelete w))))
  /\ records_have_items (transactions (snd (cancel w)))
  /\ (forall txid callback,
         records_have_items (transactions (snd (undo env txid callback w))))
  /\ (forall txid callback,
         records_have_items (transactions (snd (redo env txid callback w))))
  /\ (forall item,
         _recordTransaction env item w
         = (record_inserted env ;; item_added item) w
         /\ lacks_items_only (_transaction_id (tx w))
              (transactions (snd (record_inserted env w)))).
Proof.
  intros H.
  repeat match goal with |- _ /\ _ => split end.
  - intros txid callback Hempty. split;
      now apply commit_of_empty_list_writes_nothing.
  - intros txid callback. exact (have_items_commit env txid callback w H).
  - intros item. exact (have_items_recordTransaction env item w H).
  - intros txid description items context.
    exact (have_items_Process env txid description items context w H).
  - intros collection _id updates opt.
    exact (have_items_update env collection _id updates opt w H).
  - exact (have_items_rollback w H).
  - intros txid. exact (have_items_Undo env txid w H).
  - intros txid. exact (have_items_Redo env txid w H).
  - intros description. exact (have_items_start env description w H).
  - intros collection newDoc opt.
    exact (have_items_insert env collection newDoc opt w H).
  - intros collection _id opt opt_softDelete.
    exact (have_items_remove env collection _id opt opt_softDelete w H).
  - exact (have_items_cancel w H).
  - intros txid callback. exact (have_items_undo env txid callback w H).
  - intros txid callback. exact (have_items_redo env txid callback w H).
  - intros item. split.
    + apply recordTransaction_in_two_writes.
    + now apply record_inserted_lacks_only_open.
Qed.

Lemma inverseOperations_unsupported (cmd : string) :
  ~ In cmd supported_commands -> inverseOperations cmd = None.
Proof.
  intros Hn. unfold inverseOperations, supported_commands in *. simpl in Hn.
  repeat match goal with
         | |- context [cmd =? ?s] =>
             let E := fresh "E" in
             destruct (cmd =? s) eqn:E;
             [apply String.eqb_eq in E; subst cmd; exfalso; apply Hn; tauto|]
         end.
  reflexivity.
Qed.

(** C5 (as amended). An update whose command is outside the supported
    set and that comes with no explicit inverse is not rejected: in an
    open transaction, for a user who may update, with the table
    [inverseOperations] of the constructor and no [instant] option, the
    inverse is the one [_inverseUsingSet] computes from the former
    document, the action is queued behind the items already there with
    that inverse, [update] returns [true], and nothing is written to any
    collection. *)
Theorem update_with_unsupported_command_is_queued
    (collection _id command : string) (updateMap : Obj) (opt : OptArg)
    (w : World Db) (current : string) (inverse : UpdateData) :
  let o := match normalise_opt opt with Some o => o | None => empty_opt end in
  let existingDoc := coll_findOne (collections w) collection (sel_id _id) in
  ~ In command supported_commands ->
  tx_inverseOperations (tx w) command = inverseOperations command ->
  o_inverse o = None ->
  o_instant o = false ->
  _rollback (tx w) = false ->
  (requireUser (tx w) = true -> is_some (userId env) = true) ->
  _transaction_id (tx w) = Some current ->
  _autoTransaction (tx w) = false ->
  _permissionCheckOverridden (normalise_opt opt)
  || _permissionCheck (tx w) "update" collection existingDoc
       (modifier_value [(command, updateMap)]) = true ->
  _inverseUsingSet collection existingDoc updateMap o = Ok inverse ->
  exists w',
    update env collection _id [(command, updateMap)] opt w = (Ok (RetBool true), w')
    /\ _items (tx w')
       = _items (tx w)
         ++ [_createItem ActUpdate collection _id
               (Some (update_fieldData
                        (_packageForStorage {| command := command; data := updateMap |})
                        (_packageForStorage inverse)))
               false (o_overridePermissionCheck o)]
    /\ collections w' = collections w
    /\ transactions w' = transactions w.
Proof.
  intros o existingDoc Hcmd Htable Hinv Hinstant Hrb Huser Hopen Hauto Hperm Hcalc.
  assert (Hu : requireUser (tx w) && negb (is_some (userId env)) = false).
  { destruct (requireUser (tx w)); [|reflexivity].
    rewrite Huser by reflexivity. reflexivity. }
  assert (Hset : (command =? "$set") = false).
  { apply String.eqb_neq. intros ->. apply Hcmd. simpl. tauto. }
  assert (Hoi : match normalise_opt opt with
                | Some o0 => o_inverse o0
                | None => None
                end = None).
  { subst o. destruct (normalise_opt opt); [exact Hinv|reflexivity]. }
  unfold update, bind, get. simpl.
  rewrite Hrb, Hu. simpl.
  fold existingDoc. rewrite Hperm.
  unfold _openAutoTransaction, bind, get. simpl. rewrite Hopen. simpl.
  unfold update_step, bind, get. simpl.
  rewrite Hoi, Htable, (inverseOperations_unsupported command Hcmd).
  fold o. unfold lift. rewrite Hcalc. simpl.
  unfold _setContext, bind, get, set_tx. simpl.
  rewrite Hinstant.
  unfold _doUpdate, bind, get. simpl.
  unfold _pushToRecord, bind, get, set_tx. simpl.
  unfold aliased. simpl. rewrite Hset.
  unfold _closeAutoTransaction, bind, get. simpl. rewrite Hauto.
  unfold ret. simpl. rewrite Hrb. simpl.
  eexists. split; [reflexivity|].
  simpl. repeat split; reflexivity.
Qed.

End NoEmptyRecord.

(** C8, witness: the world after two instant updates, whose one record
    has two items. *)
Lemma no_record_without_items_witness :
  records_have_items
    (transactions
       (snd (commit (RT := Ref.runtime) (Store := Ref.store) Ref.env
               ArgUndefined false Scenario.edited_twice))).
Proof.
  refine (proj1 (proj2 (no_record_without_items (RT := Ref.runtime)
                          (Store := Ref.store) Ref.env Scenario.edited_twice _))
            ArgUndefined false).
  vm_compute. repeat constructor.
Defined.

(** C8, counterexample.  In the open transaction of [opened], whose
    record is not in the collection yet, an instant write calls
    [_recordTransaction]: after the first of its two writes the
    collection holds the record of the transaction with no items, until
    the second write adds the item.  And [commit] on the empty item
    list of [opened] returns [true] without discarding the transaction:
    it stays open under its id. *)
Lemma record_without_items_counterexample :
  records_have_items (transactions Scenario.opened)
  /\ _recordTransaction (Db := Ref.Db) Ref.env instant_insert_item Scenario.opened
     = (record_inserted Ref.env ;; item_added instant_insert_item) Scenario.opened
  /\ (exists d,
        transactions (snd (record_inserted (Db := Ref.Db) Ref.env Scenario.opened))
        = [d]
        /\ tx_id d = "tx0"
        /\ tx_state d = StPending
        /\ tx_items d = None)
  /\ ~ records_have_items
        (transactions (snd (record_inserted (Db := Ref.Db) Ref.env Scenario.opened)))
  /\ _transaction_id (tx Scenario.opened) = Some "tx0"
  /\ _items (tx Scenario.opened) = []
  /\ fst (commit (RT := Ref.runtime) (Store := Ref.store) Ref.env ArgUndefined
            false Scenario.opened)
     = Ok (RetBool true, [])
  /\ _transaction_id
       (tx (snd (commit (RT := Ref.runtime) (Store := Ref.store) Ref.env
                   ArgUndefined false Scenario.opened)))
     = Some "tx0".
Proof.
  split; [constructor|]. split; [reflexivity|]. split.
  - eexists. split; [vm_compute; reflexivity|]. repeat split.
  - split.
    + intros H. vm_compute in H. inversion H as [|d l Hd _]. discriminate Hd.
    + repeat split; vm_compute; reflexivity.
Qed.

(** C5, witness: [{$mul: {n: 2}}] on the counter, in an open
    transaction. *)
Lemma update_with_unsupported_command_is_queued_witness :
  exists w',
    update (RT := Ref.runtime) (Store := Ref.store) Ref.env "counters" "c1"
      [("$mul", [("n", VNum 2)])] OptUndefined Scenario.opened
    = (Ok (RetBool true), w')
    /\ _items (tx w')
       = _items (tx Scenario.opened)
         ++ [_createItem ActUpdate "counters" "c1"
               (Some (update_fieldData
                        (_packageForStorage (RT := Ref.runtime)
                           {| command := "$mul"; data := [("n", VNum 2)] |})
                        (_packageForStorage (RT := Ref.runtime)
                           {| command := "$set"; data := [("n", VNum 5)] |})))
               false false]
    /\ collections w' = collections Scenario.opened
    /\ transactions w' = transactions Scenario.opened.
Proof.
  apply (update_with_unsupported_command_is_queued
           (RT := Ref.runtime) (Store := Ref.store) Ref.env
           "counters" "c1" "$mul" [("n", VNum 2)] OptUndefined Scenario.opened
           "tx0" {| command := "$set"; data := [("n", VNum 5)] |}).
  - simpl. intuition discriminate.
  - reflexivity.
  - reflexivity.
  - reflexivity.
  - reflexivity.
  - reflexivity.
  - reflexivity.
  - reflexivity.
  - reflexivity.
  - reflexivity.
Defined.

(** C5, counterexample: [{$mul: {n: 2}}] is not among the supported
    commands and no inverse is supplied, yet [update] returns [true] and
    the item list of the open transaction, empty before, holds the
    action with the computed inverse [{$set: {n: 5}}]. *)
Lemma update_with_unsupported_command_counterexample :
  ~ In "$mul" supported_commands
  /\ _items (tx Scenario.opened) = []
  /\ fst (update (RT := Ref.runtime) (Store := Ref.store) Ref.env "counters" "c1"
            [("$mul", [("n", VNum 2)])] OptUndefined Scenario.opened)
     = Ok (RetBool true)
  /\ map (fun i => (item_action i, item_update i, item_inverse i))
       (_items (tx (snd (update (RT := Ref.runtime) (Store := Ref.store) Ref.env
                           "counters" "c1" [("$mul", [("n", VNum 2)])]
                           OptUndefined Scenario.opened))))
     = [(ActUpdate,
         Some {| p_command := "$mul"; p_data := [{| key := "n"; value := VNum 2 |}] |},
         Some {| p_command := "$set"; p_data := [{| key := "n"; value := VNum 5 |}] |})].
Proof.
  split; [simpl; intuition discriminate|].
  repeat split; reflexivity.
Qed.

(** ** Rollback *)

Section RollbackFacts.
Context `{RT : Runtime}.
Context {Db : Type} `{Store : AppStoreOps Db}.

(** The loop of [rollback] passes over an item that is not [instant]
    without a write to the application collections. *)
Lemma rollback_step_skips_queued (txid : option string) (error : bool)
    (index : nat) (obj : Item) (w : World Db) :
  item_instant obj = false ->
  collections (snd (rollback_step txid error index obj w)) = collections w.
Proof.
  intros Hq. unfold rollback_step, bind. rewrite Hq.
  destruct (item_action obj); simpl; destruct error; reflexivity.
Qed.

End RollbackFacts.

(** C1. Two runs of the model on the reference store.

    First run: in one transaction the title of a post is updated at once
    from ["old"] to ["mid"] and then from ["mid"] to ["new"]; the stored
    inverses are [$set title "old"] and [$set title "mid"]. [rollback]
    writes them in that order, the inverse of the first action first, and
    the post is left with the title ["mid"], not ["old"].

    Second run: two updates are queued and the second one fails in phase
    2 of the commit. The first one had been applied; the rollback pass
    writes nothing for it (it is not [instant]): the post keeps the title
    ["new"] while the record and both its items are marked
    [rolledBack]. *)
Theorem rollback_order_and_scope :
  (map item_inverse (_items (tx Scenario.edited_twice))
   = [Some {| p_command := "$set";
              p_data := [{| key := "title"; value := VStr "old" |}] |};
      Some {| p_command := "$set";
              p_data := [{| key := "title"; value := VStr "mid" |}] |}]
   /\ Scenario.title_of "p1" Scenario.edited_twice = Some (VStr "new")
   /\ Ref.journal
        (collections
           (Scenario.run (rollback (RT := Ref.runtime) (Store := Ref.store))
              Scenario.edited_twice))
      = Ref.journal (collections Scenario.edited_twice)
        ++ [OpUpdate "posts" (sel_id "p1")
              (VObj [("$set", VObj [("title", VStr "old")])]);
            OpUpdate "posts" (sel_id "p1")
              (VObj [("$set", VObj [("title", VStr "mid")])])]
   /\ Scenario.title_of "p1"
        (Scenario.run (rollback (RT := Ref.runtime) (Store := Ref.store))
           Scenario.edited_twice)
      = Some (VStr "mid"))
  /\ (Scenario.title_of "p1" Scenario.queued_two = Some (VStr "old")
      /\ map item_instant (_items (tx Scenario.queued_two)) = [false; false]
      /\ Ref.journal
           (collections
              (Scenario.run
                 (commit (RT := Ref.runtime) (Store := Ref.store) Ref.env
                    ArgUndefined false)
                 Scenario.queued_two))
         = [OpUpdate "posts" (sel_id "p1")
              (VObj [("$set", VObj [("title", VStr "new");
                                    ("transaction_id", VStr "tx0")])]);
            OpUpdate "posts" (sel_id "gone")
              (VObj [("$addToSet", VObj [("tags", VStr "x")]);
                     ("$set", VObj [("transaction_id", VStr "tx0")])])]
      /\ Scenario.title_of "p1"
           (Scenario.run
              (commit (RT := Ref.runtime) (Store := Ref.store) Ref.env
                 ArgUndefined false)
              Scenario.queued_two)
         = Some (VStr "new")
      /\ map (fun d => (tx_state d, option_map (map item_state) (tx_items d)))
           (transactions
              (Scenario.run
                 (commit (RT := Ref.runtime) (Store := Ref.store) Ref.env
                    ArgUndefined false)
                 Scenario.queued_two))
         = [(StRolledBack, Some [StRolledBack; StRolledBack])]).
Proof.
  split.
  - repeat split; vm_compute; reflexivity.
  - repeat split; vm_compute; reflexivity.
Qed.

(** ** Undo and redo *)

Lemma pick_latest_In (sort_key : TxDoc -> Z) (l : list TxDoc) (d : TxDoc) :
  pick_latest sort_key l = Some d -> In d l.
Proof.
  revert d. induction l as [|d0 l IH]; simpl; intros d H; [discriminate|].
  destruct (pick_latest sort_key l) as [d'|].
  - destruct (sort_key d0 <? sort_key d')%Z; inversion H; subst; auto.
  - inversion H; auto.
Qed.

(** What undo and redo select is a record of the collection that
    satisfies the eligibility test. *)
Lemma find_transaction_In (eligible : TxDoc -> bool) (sort_key : TxDoc -> Z)
    (txid user : option string) (txs : list TxDoc) (d : TxDoc) :
  find_transaction eligible sort_key txid user txs = Some d ->
  In d txs /\ eligible d = true.
Proof.
  unfold find_transaction. destruct (txid_given txid) as [i|]; intros H.
  - apply List.find_some in H. destruct H as [Hin Hb].
    apply andb_true_iff in Hb. tauto.
  - apply pick_latest_In in H. apply List.filter_In in H. destruct H as [Hin Hb].
    apply andb_true_iff in Hb. tauto.
Qed.

Lemma Transactions_update_ids (id : option string) (m : TxModifier)
    (txs : list TxDoc) :
  map tx_id (Transactions_update id m txs) = map tx_id txs.
Proof.
  destruct id as [i|]; [|reflexivity]. simpl.
  induction txs as [|d txs IH]; simpl; [reflexivity|].
  destruct (tx_id d =? i); simpl.
  - f_equal. destruct m; simpl; try reflexivity.
    destruct (tx_items d) as [l|]; [|reflexivity].
    destruct (existsb (Item_eqb item) l); reflexivity.
  - now rewrite IH.
Qed.

Section UndoRedoFacts.
Context `{RT : Runtime}.
Context {Db : Type} `{Store : AppStoreOps Db}.
Variable env : Env.

Lemma attempt_spec (op : AppOp) (w : World Db) :
  exists threw,
    attempt op w = (Ok threw, with_collections (try_write (collections w) op) w).
Proof.
  unfold attempt, try_catch, bind, run_op, ret, with_collections, try_write.
  destruct op as [c d|c sel m|c sel].
  - destruct (coll_insert c d (collections w)) as [[s id]|e];
      simpl; eexists; destruct w; reflexivity.
  - destruct (coll_update c sel m (collections w)) as [[s n]|e];
      simpl; eexists; destruct w; reflexivity.
  - destruct (coll_remove c sel (collections w)) as [[s n]|e];
      simpl; eexists; destruct w; reflexivity.
Qed.

Lemma bind_Ok {A B} (m : M Db A) (k : A -> M Db B) (w w' : World Db) (a : A) :
  m w = (Ok a, w') -> bind m k w = k a w'.
Proof. intros H. unfold bind. now rewrite H. Qed.

Lemma bind_Throw {A B} (m : M Db A) (k : A -> M Db B) (w w' : World Db) (e : Err) :
  m w = (Throw e, w') -> bind m k w = (Throw e, w').
Proof. intros H. unfold bind. now rewrite H. Qed.

Lemma txs_update_spec (id : option string) (m : TxModifier) (w : World Db) :
  txs_update id m w
  = (Ok tt, with_transactions (Transactions_update id m (transactions w)) w).
Proof. reflexivity. Qed.

(** The second loop of undo and redo never throws; it tries the queued
    writes in the order of the queue and touches the [transactions]
    collection only through [_changeItemState]. *)
Lemma process_queue_spec (txid : string) (st : State) (item_index : nat -> nat)
    (queuedItems : list AppOp) :
  forall (index : nat) (w : World Db),
  exists txs,
    each_indexed
      (fun _ index queuedItem =>
         perform fail <- attempt queuedItem;
         if fail then ret tt
         else _changeItemState (Some txid) (item_index index) st)
      queuedItems index tt w
    = (Ok tt,
       with_transactions txs
         (with_collections (fold_left try_write queuedItems (collections w)) w))
    /\ map tx_id txs = map tx_id (transactions w).
Proof.
  induction queuedItems as [|op q IH]; intros index w; simpl.
  - exists (transactions w). split; [|reflexivity].
    unfold ret, with_transactions, with_collections. destruct w; reflexivity.
  - destruct (attempt_spec op w) as [threw Hop].
    destruct threw.
    + erewrite bind_Ok; [|erewrite bind_Ok; [|exact Hop]; reflexivity].
      destruct (IH (Datatypes.S index)
                  (with_collections (try_write (collections w) op) w))
        as (txs & Hq & Hids).
      rewrite Hq. exists txs. split; [reflexivity|exact Hids].
    + erewrite bind_Ok;
        [|erewrite bind_Ok; [|exact Hop]; unfold _changeItemState;
          apply txs_update_spec].
      match goal with
      | |- context [each_indexed _ q _ tt ?w1] =>
          destruct (IH (Datatypes.S index) w1) as (txs & Hq & Hids)
      end.
      rewrite Hq. exists txs. split; [reflexivity|].
      rewrite Hids.
      exact (Transactions_update_ids (Some txid) _ (transactions w)).
Qed.

(** Once the first loop of undo has set [expired], it neither queues
    nor reads anything more. *)
Lemma undo_scan_expired (db : Db) (txid : string) (l : list Item)
    (q : list AppOp) :
  each_throwing (undo_scan_step db txid) l (true, q) = Ok (true, q).
Proof. induction l as [|obj l IH]; simpl; auto. Qed.

(** When the first loop of undo ends without [expired], its queue holds
    the inverse writes of the items it went through, in that order. *)
Lemma undo_scan_writes (db : Db) (txid : string) (l : list Item) :
  forall q0 q,
  each_throwing (undo_scan_step db txid) l (false, q0) = Ok (false, q) ->
  writes_in_order (inverse_write txid) l q0 = Ok q.
Proof.
  unfold writes_in_order.
  induction l as [|obj l IH]; intros q0 q H; simpl in *.
  - now inversion H.
  - unfold undo_scan_step at 1 in H. unfold inverse_write at 1. simpl in H.
    destruct (item_action obj).
    + (* insert *)
      simpl.
      destruct (is_some (coll_findOne db (item_collection obj)
                           (sel_id_other_txid (item_id obj) txid))).
      * simpl in H. rewrite (undo_scan_expired db txid l) in H. discriminate H.
      * simpl in H. now apply IH.
    + (* update *)
      destruct (usable (item_inverse obj)) as [inverse|].
      * destruct (_unpackageForUpdate (p_data inverse)) as [d|e]; simpl in *;
          [now apply IH|discriminate H].
      * simpl in *. rewrite app_nil_r. now apply IH.
    + (* remove *)
      simpl. destruct (item_doc obj) as [d|]; simpl in *.
      * destruct (truthy d).
        -- match type of H with
           | context [Nat.ltb 0 ?n] => destruct (Nat.ltb 0 n)
           end; simpl in H.
           ++ rewrite (undo_scan_expired db txid l) in H. discriminate H.
           ++ now apply IH.
        -- now apply IH.
      * now apply IH.
Qed.

(** The first loop of redo never takes [expired] back. *)
Lemma redo_scan_expired (db : Db) (txid : string) (l : list Item) :
  forall q e q',
  each_throwing (redo_scan_step env db txid) l (true, q) = Ok (e, q') -> e = true.
Proof.
  induction l as [|obj l IH]; intros q e q' H; simpl in *.
  - now inversion H.
  - unfold redo_scan_step at 1 in H. simpl in H.
    destruct (item_action obj); simpl in H.
    + eapply IH; exact H.
    + destruct (usable (item_update obj)) as [u|]; simpl in H.
      * destruct (_unpackageForUpdate (p_data u)); simpl in H;
          [eapply IH; exact H|discriminate H].
      * eapply IH; exact H.
    + eapply IH; exact H.
Qed.

(** When the first loop of redo ends without [expired], its queue holds
    the forward writes of the items it went through, in that order. *)
Lemma redo_scan_writes (db : Db) (txid : string) (l : list Item) :
  forall q0 q,
  each_throwing (redo_scan_step env db txid) l (false, q0) = Ok (false, q) ->
  writes_in_order (forward_write (now env) txid) l q0 = Ok q.
Proof.
  unfold writes_in_order.
  induction l as [|obj l IH]; intros q0 q H; simpl in *.
  - now inversion H.
  - unfold redo_scan_step at 1 in H. unfold forward_write at 1. simpl in H.
    destruct (item_action obj).
    + (* insert *)
      simpl in H.
      destruct (Nat.eqb (coll_count db (item_collection obj)
                           (Some (sel_id (item_id obj)))) 0).
      * destruct (extend_doc (item_newDoc obj)
                    [("transaction_id", VStr txid); ("_id", VStr (item_id obj))])
          as [newDoc|e]; simpl in *; [now apply IH|discriminate H].
      * simpl in H. apply redo_scan_expired in H. discriminate H.
    + (* update *)
      destruct (usable (item_update obj)) as [u|].
      * destruct (_unpackageForUpdate (p_data u)) as [d|e]; simpl in *;
          [now apply IH|discriminate H].
      * simpl in *. rewrite app_nil_r. now apply IH.
    + (* remove *)
      simpl in *. now apply IH.
Qed.

(** One step of the first loop of undo on a stale item sets [expired]. *)
Lemma undo_scan_step_stale (db : Db) (txid : string) (q0 : list AppOp) (obj : Item) :
  stale_for_undo db txid obj ->
  exists q, undo_scan_step db txid (false, q0) obj = Ok (true, q).
Proof.
  intros [[Ha Hf]|[Ha (d & Hd & Ht & Hc)]]; unfold undo_scan_step; cbn [fst snd];
    rewrite Ha.
  - rewrite Hf. eauto.
  - rewrite Hd, Ht, Hc. eauto.
Qed.

(** The first loop of undo sets [expired] when it meets a stale item,
    unless it throws before. *)
Lemma undo_scan_detects (db : Db) (txid : string) (l : list Item) :
  (exists obj, In obj l /\ stale_for_undo db txid obj) ->
  forall acc e q,
  each_throwing (undo_scan_step db txid) l acc = Ok (e, q) -> e = true.
Proof.
  induction l as [|obj l IH]; intros (stale & Hin & Hstale) acc e q H.
  - contradiction.
  - destruct acc as [expired q0]. destruct expired.
    + rewrite (undo_scan_expired db txid (obj :: l)) in H. now inversion H.
    + cbn [each_throwing fold_left] in H. destruct Hin as [->|Hin].
      * destruct (undo_scan_step_stale db txid q0 stale Hstale) as [q1 Hstep].
        change (obind (undo_scan_step db txid (false, q0) stale)
                  (each_throwing (undo_scan_step db txid) l) = Ok (e, q)) in H.
        rewrite Hstep in H. simpl in H.
        rewrite (undo_scan_expired db txid l) in H. now inversion H.
      * change (obind (undo_scan_step db txid (false, q0) obj)
                  (each_throwing (undo_scan_step db txid) l) = Ok (e, q)) in H.
        destruct (undo_scan_step db txid (false, q0) obj) as [acc'|err];
          simpl in H; [|discriminate H].
        eapply IH; [|exact H]. exists stale. now split.
Qed.

(** The first loop of redo sets [expired] when it meets a stale item,
    unless it throws before. *)
Lemma redo_scan_detects (db : Db) (txid : string) (l : list Item) :
  (exists obj, In obj l /\ stale_for_redo db obj) ->
  forall acc e q,
  each_throwing (redo_scan_step env db txid) l acc = Ok (e, q) -> e = true.
Proof.
  induction l as [|obj l IH]; intros (stale & Hin & Hstale) acc e q H.
  - contradiction.
  - simpl in H. destruct Hin as [->|Hin].
    + destruct acc as [expired q0]. destruct expired.
      * destruct (redo_scan_step env db txid (true, q0) stale) as [[e' q']|err] eqn:Hstep;
          simpl in H; [|discriminate H].
        assert (e' = true).
        { unfold redo_scan_step in Hstep. simpl in Hstep.
          destruct Hstale as [Ha _]. rewrite Ha in Hstep. now inversion Hstep. }
        subst e'. now apply (redo_scan_expired db txid l q' e q).
      * unfold redo_scan_step at 1 in H. simpl in H.
        destruct Hstale as [Ha Hc]. rewrite Ha, Hc in H. simpl in H.
        now apply (redo_scan_expired db txid l q0 e q).
    + destruct (redo_scan_step env db txid acc obj) as [acc'|err];
        simpl in H; [|discriminate H].
      eapply IH; [|exact H]. exists stale. now split.
Qed.

End UndoRedoFacts.

Section UndoRedoOutcomes.
Context `{RT : Runtime}.
Context {Db : Type} `{Store : AppStoreOps Db}.
Variable env : Env.

Lemma process_queue_run (txid : string) (st : State) (item_index : nat -> nat)
    (queuedItems : list AppOp) (w : World Db) :
  exists txs,
    process_queue txid st item_index queuedItems w
    = (Ok tt,
       with_transactions txs
         (with_collections (fold_left try_write queuedItems (collections w)) w))
    /\ map tx_id txs = map tx_id (transactions w).
Proof. unfold process_queue. apply process_queue_spec. Qed.

(** The ways [_meteorTransactionsUndo] can return a boolean. *)
Lemma undo_outcome (txid : option string) (w w' : World Db) (b : bool) :
  _meteorTransactionsUndo env txid w = (Ok (RetBool b), w') ->
  match find_transaction undo_eligible tx_lastModified txid (userId env)
          (transactions w) with
  | None => b = false /\ w' = w
  | Some T =>
      match tx_items T with
      | None =>
          b = false
          /\ w' = with_transactions
                    (Transactions_remove (Some (tx_id T)) (transactions w)) w
      | Some items =>
          (b = true
           /\ w' = with_transactions
                     (Transactions_update (Some (tx_id T)) (SetExpired true)
                        (transactions w)) w)
          \/ (b = false
              /\ exists q txs,
                  each_throwing (undo_scan_step (collections w) (tx_id T))
                    (rev items) (false, []) = Ok (false, q)
                  /\ map tx_id txs = map tx_id (transactions w)
                  /\ w' = with_transactions
                            (Transactions_update (Some (tx_id T))
                               (SetUndoneState (now env) StUndone) txs)
                            (with_collections
                               (fold_left try_write q (collections w)) w))
      end
  end.
Proof.
  intros H. unfold _meteorTransactionsUndo in H.
  cbv beta iota delta [bind get ret lift txs_update txs_remove set_transactions] in H.
  destruct (requireUser (tx w) && negb (is_some (userId env))); [discriminate H|].
  destruct (find_transaction undo_eligible tx_lastModified txid (userId env)
              (transactions w)) as [T|].
  - destruct (tx_items T) as [items|].
    + destruct (_checkTransactionFields env (tx w) (collections w) items (tx_id T))
        as [allowed|e]; [|discriminate H].
      destruct allowed.
      * destruct (each_throwing (undo_scan_step (collections w) (tx_id T))
                    (rev items) (false, [])) as [[expired q]|e] eqn:Hscan;
          [|discriminate H].
        cbv beta iota delta [fst snd] in H.
        destruct expired.
        -- left. inversion H. split; reflexivity.
        -- right.
           destruct (process_queue_run (tx_id T) StUndone
                       (fun index => (length q - 1) - index) q w)
             as (txs & Hq & Hids).
           rewrite Hq in H. inversion H. split; [reflexivity|].
           exists q, txs. repeat split; auto.
      * left. inversion H. split; reflexivity.
    + inversion H. split; reflexivity.
  - inversion H. split; reflexivity.
Qed.

(** The ways [_meteorTransactionsRedo] can return a boolean. *)
Lemma redo_outcome (txid : option string) (w w' : World Db) (b : bool) :
  _meteorTransactionsRedo env txid w = (Ok (RetBool b), w') ->
  match find_transaction redo_eligible undone_key txid (userId env)
          (transactions w) with
  | None => b = false /\ w' = w
  | Some T =>
      match tx_items T with
      | None => b = false /\ w' = w
      | Some items =>
          (b = true
           /\ w' = with_transactions
                     (Transactions_update (Some (tx_id T)) (SetExpired true)
                        (transactions w)) w)
          \/ (b = false
              /\ exists q txs,
                  each_throwing (redo_scan_step env (collections w) (tx_id T))
                    items (false, []) = Ok (false, q)
                  /\ map tx_id txs = map tx_id (transactions w)
                  /\ w' = with_transactions
                            (Transactions_update (Some (tx_id T))
                               (UnsetUndoneSetState StDone) txs)
                            (with_collections
                               (fold_left try_write q (collections w)) w))
      end
  end.
Proof.
  intros H. unfold _meteorTransactionsRedo in H.
  cbv beta iota delta [bind get ret lift txs_update txs_remove set_transactions] in H.
  destruct (requireUser (tx w) && negb (is_some (userId env))); [discriminate H|].
  destruct (find_transaction redo_eligible undone_key txid (userId env)
              (transactions w)) as [T|].
  - destruct (tx_items T) as [items|].
    + destruct (_checkTransactionFields env (tx w) (collections w) items (tx_id T))
        as [allowed|e]; [|discriminate H].
      destruct allowed.
      * destruct (each_throwing (redo_scan_step env (collections w) (tx_id T))
                    items (false, [])) as [[expired q]|e] eqn:Hscan;
          [|discriminate H].
        cbv beta iota delta [fst snd] in H.
        destruct expired.
        -- left. inversion H. split; reflexivity.
        -- right.
           destruct (process_queue_run (tx_id T) StDone (fun index => index) q w)
             as (txs & Hq & Hids).
           rewrite Hq in H. inversion H. split; [reflexivity|].
           exists q, txs. repeat split; auto.
      * left. inversion H. split; reflexivity.
    + inversion H. split; reflexivity.
  - inversion H. split; reflexivity.
Qed.

(** A call that returns a boolean was made by a user who may call. *)
Lemma undo_returns_boolean (txid : option string) (w w' : World Db) (b : bool) :
  _meteorTransactionsUndo env txid w = (Ok (RetBool b), w') ->
  requireUser (tx w) && negb (is_some (userId env)) = false.
Proof.
  intros H. unfold _meteorTransactionsUndo in H.
  cbv beta iota delta [bind get ret] in H.
  destruct (requireUser (tx w) && negb (is_some (userId env)));
    [discriminate H|reflexivity].
Qed.

(** Undo of a transaction with a stale item: the record is marked
    expired and the call returns [true]. *)
Lemma undo_of_stale_transaction (txid : option string) (w : World Db)
    (T : TxDoc) (items : list Item) (allowed : bool) (scanned : bool * list AppOp) :
  requireUser (tx w) && negb (is_some (userId env)) = false ->
  find_transaction undo_eligible tx_lastModified txid (userId env) (transactions w)
  = Some T ->
  tx_items T = Some items ->
  _checkTransactionFields env (tx w) (collections w) items (tx_id T) = Ok allowed ->
  each_throwing (undo_scan_step (collections w) (tx_id T)) (rev items) (false, [])
  = Ok scanned ->
  (exists obj, In obj items /\ stale_for_undo (collections w) (tx_id T) obj) ->
  _meteorTransactionsUndo env txid w
  = (Ok (RetBool true),
     with_transactions
       (Transactions_update (Some (tx_id T)) (SetExpired true) (transactions w)) w).
Proof.
  intros Huser Hfind Hitems Hcheck Hscan (obj & Hin & Hstale).
  destruct scanned as [e q].
  assert (e = true) as ->.
  { apply (undo_scan_detects (collections w) (tx_id T) (rev items)) with (2 := Hscan).
    exists obj. split; [now apply in_rev in Hin|exact Hstale]. }
  unfold _meteorTransactionsUndo.
  cbv beta iota zeta delta [bind get ret lift txs_update set_transactions].
  rewrite Huser, Hfind, Hitems, Hcheck.
  destruct allowed; [rewrite Hscan|]; reflexivity.
Qed.

(** Redo of a transaction with a stale item, likewise. *)
Lemma redo_of_stale_transaction (txid : option string) (w : World Db)
    (T : TxDoc) (items : list Item) (allowed : bool) (scanned : bool * list AppOp) :
  requireUser (tx w) && negb (is_some (userId env)) = false ->
  find_transaction redo_eligible undone_key txid (userId env) (transactions w)
  = Some T ->
  tx_items T = Some items ->
  _checkTransactionFields env (tx w) (collections w) items (tx_id T) = Ok allowed ->
  each_throwing (redo_scan_step env (collections w) (tx_id T)) items (false, [])
  = Ok scanned ->
  (exists obj, In obj items /\ stale_for_redo (collections w) obj) ->
  _meteorTransactionsRedo env txid w
  = (Ok (RetBool true),
     with_transactions
       (Transactions_update (Some (tx_id T)) (SetExpired true) (transactions w)) w).
Proof.
  intros Huser Hfind Hitems Hcheck Hscan Hstale.
  destruct scanned as [e q].
  assert (e = true) as ->.
  { exact (redo_scan_detects env (collections w) (tx_id T) items Hstale _ _ _ Hscan). }
  unfold _meteorTransactionsRedo.
  cbv beta iota zeta delta [bind get ret lift txs_update set_transactions].
  rewrite Huser, Hfind, Hitems, Hcheck.
  destruct allowed; [rewrite Hscan|]; reflexivity.
Qed.

(** The first loop of undo sets [expired] on a stale item only. *)
Lemma undo_scan_only_stale (db : Db) (txid : string) (l : list Item) :
  forall q q',
  each_throwing (undo_scan_step db txid) l (false, q) = Ok (true, q') ->
  exists obj, In obj l /\ stale_for_undo db txid obj.
Proof.
  induction l as [|obj l IH]; intros q q' H.
  - discriminate H.
  - cbn [each_throwing] in H.
    change (obind (undo_scan_step db txid (false, q) obj)
              (each_throwing (undo_scan_step db txid) l) = Ok (true, q')) in H.
    destruct (undo_scan_step db txid (false, q) obj) as [[e q1]|err] eqn:Hstep;
      simpl in H; [|discriminate H].
    destruct e.
    + exists obj. split; [now left|].
      unfold undo_scan_step in Hstep. cbn [fst snd] in Hstep.
      destruct (item_action obj) eqn:Ha.
      * left. split; [exact Ha|].
        destruct (is_some (coll_findOne db (item_collection obj)
                             (sel_id_other_txid (item_id obj) txid)));
          [reflexivity|discriminate Hstep].
      * destruct (usable (item_inverse obj)) as [inverse|]; [|discriminate Hstep].
        destruct (_unpackageForUpdate (p_data inverse)); discriminate Hstep.
      * right. split; [exact Ha|].
        destruct (item_doc obj) as [d|]; [|discriminate Hstep].
        destruct (truthy d) eqn:Ht; [|discriminate Hstep].
        exists d. split; [reflexivity|]. split; [exact Ht|].
        match type of Hstep with
        | context [Nat.ltb 0 ?n] => destruct (Nat.ltb 0 n)
        end; [reflexivity|discriminate Hstep].
    + destruct (IH q1 q' H) as (stale & Hin & Hstale).
      exists stale. split; [now right|exact Hstale].
Qed.

(** The first loop of redo sets [expired] on a stale item only: it makes
    no test on a document it is about to delete again. *)
Lemma redo_scan_only_stale (db : Db) (txid : string) (l : list Item) :
  forall q q',
  each_throwing (redo_scan_step env db txid) l (false, q) = Ok (true, q') ->
  exists obj, In obj l /\ stale_for_redo db obj.
Proof.
  induction l as [|obj l IH]; intros q q' H.
  - discriminate H.
  - cbn [each_throwing] in H.
    change (obind (redo_scan_step env db txid (false, q) obj)
              (each_throwing (redo_scan_step env db txid) l) = Ok (true, q')) in H.
    destruct (redo_scan_step env db txid (false, q) obj) as [[e q1]|err] eqn:Hstep;
      simpl in H; [|discriminate H].
    destruct e.
    + exists obj. split; [now left|].
      unfold redo_scan_step in Hstep. cbn [fst snd] in Hstep.
      destruct (item_action obj) eqn:Ha.
      * split; [exact Ha|].
        destruct (Nat.eqb (coll_count db (item_collection obj)
                             (Some (sel_id (item_id obj)))) 0);
          [|reflexivity].
        destruct (extend_doc (item_newDoc obj)
                    [("transaction_id", VStr txid); ("_id", VStr (item_id obj))]);
          discriminate Hstep.
      * destruct (usable (item_update obj)) as [u|]; [|discriminate Hstep].
        destruct (_unpackageForUpdate (p_data u)); discriminate Hstep.
      * discriminate Hstep.
    + destruct (IH q1 q' H) as (stale & Hin & Hstale).
      exists stale. split; [now right|exact Hstale].
Qed.

(** Why undo returns [true]: the permission pass refused the items of
    the transaction it had selected, or one of them is stale. *)
Lemma undo_expired_cause (txid : option string) (w w' : World Db) :
  _meteorTransactionsUndo env txid w = (Ok (RetBool true), w') ->
  exists T items,
    find_transaction undo_eligible tx_lastModified txid (userId env)
      (transactions w) = Some T
    /\ tx_items T = Some items
    /\ (_checkTransactionFields env (tx w) (collections w) items (tx_id T)
        = Ok false
        \/ exists obj, In obj items /\ stale_for_undo (collections w) (tx_id T) obj).
Proof.
  intros H. unfold _meteorTransactionsUndo in H.
  cbv beta iota delta [bind get ret lift txs_update txs_remove set_transactions] in H.
  destruct (requireUser (tx w) && negb (is_some (userId env))); [discriminate H|].
  destruct (find_transaction undo_eligible tx_lastModified txid (userId env)
              (transactions w)) as [T|]; [|discriminate H].
  destruct (tx_items T) as [items|] eqn:Hitems; [|discriminate H].
  exists T, items. split; [reflexivity|]. split; [exact Hitems|].
  destruct (_checkTransactionFields env (tx w) (collections w) items (tx_id T))
    as [allowed|e]; [|discriminate H].
  destruct allowed; [|now left].
  right.
  destruct (each_throwing (undo_scan_step (collections w) (tx_id T))
              (rev items) (false, [])) as [[expired q]|e] eqn:Hscan;
    [|discriminate H].
  cbv beta iota delta [fst snd] in H.
  destruct expired.
  - destruct (undo_scan_only_stale _ _ _ _ _ Hscan) as (obj & Hin & Hstale).
    exists obj. split; [now apply in_rev|exact Hstale].
  - destruct (process_queue_run (tx_id T) StUndone
                (fun index => (length q - 1) - index) q w)
      as (txs & Hq & Hids).
    rewrite Hq in H. discriminate H.
Qed.

(** Why redo returns [true], likewise. *)
Lemma redo_expired_cause (txid : option string) (w w' : World Db) :
  _meteorTransactionsRedo env txid w = (Ok (RetBool true), w') ->
  exists T items,
    find_transaction redo_eligible undone_key txid (userId env)
      (transactions w) = Some T
    /\ tx_items T = Some items
    /\ (_checkTransactionFields env (tx w) (collections w) items (tx_id T)
        = Ok false
        \/ exists obj, In obj items /\ stale_for_redo (collections w) obj).
Proof.
  intros H. unfold _meteorTransactionsRedo in H.
  cbv beta iota delta [bind get ret lift txs_update txs_remove set_transactions] in H.
  destruct (requireUser (tx w) && negb (is_some (userId env))); [discriminate H|].
  destruct (find_transaction redo_eligible undone_key txid (userId env)
              (transactions w)) as [T|]; [|discriminate H].
  destruct (tx_items T) as [items|] eqn:Hitems; [|discriminate H].
  exists T, items. split; [reflexivity|]. split; [exact Hitems|].
  destruct (_checkTransactionFields env (tx w) (collections w) items (tx_id T))
    as [allowed|e]; [|discriminate H].
  destruct allowed; [|now left].
  right.
  destruct (each_throwing (redo_scan_step env (collections w) (tx_id T))
              items (false, [])) as [[expired q]|e] eqn:Hscan;
    [|discriminate H].
  cbv beta iota delta [fst snd] in H.
  destruct expired.
  - exact (redo_scan_only_stale _ _ _ _ _ Hscan).
  - destruct (process_queue_run (tx_id T) StDone (fun index => index) q w)
      as (txs & Hq & Hids).
    rewrite Hq in H. discriminate H.
Qed.



Lemma find_none_all {A} (f : A -> bool) (l : list A) :
  (forall x, In x l -> f x = false) -> List.find f l = None.
Proof.
  induction l as [|x l IH]; simpl; intros H; [reflexivity|].
  rewrite (H x) by now left. apply IH. intros y Hy. apply H. now right.
Qed.

(** After [{$set: {undone: t, state: "undone"}}] on the record [i], no
    record with that [_id] passes the test of undo, as long as [_id]s
    are unique. *)
Lemma undone_not_eligible (i : string) (t : Z) (txs : list TxDoc) :
  List.NoDup (map tx_id txs) ->
  forall d,
    In d (Transactions_update_id i (SetUndoneState t StUndone) txs) ->
    tx_id d = i -> undo_eligible d = false.
Proof.
  induction txs as [|d0 txs IH]; simpl; intros Hnd d Hin Hid; [contradiction|].
  inversion Hnd as [|x l Hnotin Hnd']; subst x l.
  destruct (tx_id d0 =? i) eqn:E.
  - apply String.eqb_eq in E. destruct Hin as [<-|Hin].
    + reflexivity.
    + exfalso. apply Hnotin. rewrite E, <- Hid. now apply in_map.
  - destruct Hin as [<-|Hin].
    + apply String.eqb_neq in E. contradiction.
    + now apply IH.
Qed.

(** C9 (as amended). Once a transaction has been undone, calling undo
    again for that transaction (by its id) is a no-op: the selector
    matches no record, the call returns [false] and the world is left as
    it was. A call without an id does not select the undone transaction
    either; it selects among the other transactions of the user. *)
Theorem undo_again_for_same_transaction_is_noop
    (txid : option string) (w w1 : World Db) (T : TxDoc) (items : list Item) :
  List.NoDup (map tx_id (transactions w)) ->
  tx_id T <> EmptyString ->
  find_transaction undo_eligible tx_lastModified txid (userId env)
    (transactions w) = Some T ->
  tx_items T = Some items ->
  _meteorTransactionsUndo env txid w = (Ok (RetBool false), w1) ->
  _meteorTransactionsUndo env (Some (tx_id T)) w1 = (Ok (RetBool false), w1)
  /\ forall txid' d,
       find_transaction undo_eligible tx_lastModified txid' (userId env)
         (transactions w1) = Some d ->
       tx_id d <> tx_id T.
Proof.
  intros Hnd Hid Hfind Hitems H.
  pose proof (undo_returns_boolean txid w w1 false H) as Huser.
  pose proof (undo_outcome txid w w1 false H) as Hcase.
  rewrite Hfind, Hitems in Hcase.
  destruct Hcase as [[Hb _]|[_ (q & txs & Hscan & Hids & ->)]]; [discriminate Hb|].
  assert (Hne : forall d,
             In d (Transactions_update (Some (tx_id T))
                     (SetUndoneState (now env) StUndone) txs) ->
             tx_id d = tx_id T -> undo_eligible d = false).
  { apply undone_not_eligible. rewrite Hids. exact Hnd. }
  split.
  - unfold _meteorTransactionsUndo.
    cbv beta iota delta [bind get ret].
    unfold with_transactions, with_collections.
    cbn [tx transactions collections drawn]. rewrite Huser.
    unfold find_transaction, txid_given.
    apply String.eqb_neq in Hid. rewrite Hid.
    rewrite find_none_all; [reflexivity|].
    intros d Hin. destruct (tx_id d =? tx_id T) eqn:E; [|reflexivity].
    apply String.eqb_eq in E. simpl. now apply Hne.
  - intros txid' d Hd Heq.
    apply find_transaction_In in Hd. destruct Hd as [Hin Hel].
    simpl in Hin. rewrite (Hne d Hin Heq) in Hel. discriminate Hel.
Qed.

End UndoRedoOutcomes.




(** The queues of that undo and of that redo: the inverses of the second
    and of the first update, then the first and the second update. *)
Lemma undo_and_redo_queues_example :
  writes_in_order
    (inverse_write (RT := Ref.runtime)
       (tx_id (Scenario.record 0 Scenario.committed_two)))
    (rev (Scenario.items_of (Scenario.record 0 Scenario.committed_two))) []
  = Ok [OpUpdate "posts" (sel_id "p1") (VObj [("$set", VObj [("title", VStr "mid")])]);
        OpUpdate "posts" (sel_id "p1") (VObj [("$set", VObj [("title", VStr "old")])])]
  /\ writes_in_order
       (forward_write (RT := Ref.runtime) (now Ref.env)
          (tx_id (Scenario.record 0 Scenario.undone_two)))
       (Scenario.items_of (Scenario.record 0 Scenario.undone_two)) []
     = Ok [OpUpdate "posts" (sel_id "p1") (VObj [("$set", VObj [("title", VStr "mid")])]);
           OpUpdate "posts" (sel_id "p1") (VObj [("$set", VObj [("title", VStr "new")])])].
Proof. split; vm_compute; reflexivity. Qed.

(** C9, witness: the last of two transactions is undone, then undone
    again by its id. *)
Lemma undo_again_for_same_transaction_is_noop_witness :
  let T := Scenario.record 1 Scenario.two_transactions in
  _meteorTransactionsUndo (RT := Ref.runtime) (Store := Ref.store)
    Scenario.later (Some (tx_id T)) Scenario.undone_latest
  = (Ok (RetBool false), Scenario.undone_latest)
  /\ forall txid' d,
       find_transaction undo_eligible tx_lastModified txid' (userId Scenario.later)
         (transactions Scenario.undone_latest) = Some d ->
       tx_id d <> tx_id T.
Proof.
  refine (undo_again_for_same_transaction_is_noop (RT := Ref.runtime)
            (Store := Ref.store) Scenario.later None
            Scenario.two_transactions Scenario.undone_latest
            (Scenario.record 1 Scenario.two_transactions)
            (Scenario.items_of (Scenario.record 1 Scenario.two_transactions))
            _ _ _ _ _).
  - vm_compute. repeat constructor; simpl; intuition discriminate.
  - vm_compute. discriminate.
  - vm_compute. reflexivity.
  - vm_compute. reflexivity.
  - vm_compute. reflexivity.
Defined.

(** C9, counterexample: the user made two transactions; undo, called
    without an id, undoes the later one, and called again at once it
    undoes the earlier one: the second call changes the record of that
    transaction and the title of the post. *)
Lemma undo_again_counterexample :
  fst (_meteorTransactionsUndo (RT := Ref.runtime) (Store := Ref.store)
         Scenario.later None Scenario.two_transactions) = Ok (RetBool false)
  /\ map (fun d => (tx_id d, tx_state d)) (transactions Scenario.undone_latest)
     = [("tx0", StDone); ("tx1", StUndone)]
  /\ Scenario.title_of "p1" Scenario.undone_latest = Some (VStr "first edit")
  /\ map (fun d => (tx_id d, tx_state d)) (transactions Scenario.undone_both)
     = [("tx0", StUndone); ("tx1", StUndone)]
  /\ Scenario.title_of "p1" Scenario.undone_both = Some (VStr "old")
  /\ transactions Scenario.undone_both <> transactions Scenario.undone_latest
  /\ collections Scenario.undone_both <> collections Scenario.undone_latest.
Proof.
  split; [vm_compute; reflexivity|]. split; [vm_compute; reflexivity|].
  split; [vm_compute; reflexivity|]. split; [vm_compute; reflexivity|].
  split; [vm_compute; reflexivity|]. split.
  - intros E.
    apply (f_equal (map (fun d => (tx_id d, tx_state d)))) in E.
    vm_compute in E. discriminate E.
  - intros E. apply (f_equal (fun s => length (Ref.journal s))) in E.
    vm_compute in E. discriminate E.
Qed.

(** * Further properties of the code *)

(** ** The ids handed to the callback of [commit] *)

Lemma push_id_listed (c id : string) (memo : list (string * list string))
    (c' id' : string) :
  listed (push_id c id memo) c' id' <-> listed memo c' id' \/ (c' = c /\ id' = id).
Proof.
  unfold listed. induction memo as [|[k ids] memo IH]; simpl.
  - split.
    + intros (l & [E|[]] & Hin). inversion E; subst.
      destruct Hin as [->|[]]. now right.
    + intros [(l & [] & _)|[-> ->]]. exists [id]. split; now left.
  - destruct (c =? k) eqn:E.
    + apply String.eqb_eq in E. subst k. split.
      * intros (l & [E|Hin] & Hid).
        -- inversion E; subst. apply in_app_or in Hid.
           destruct Hid as [Hid|[->|[]]]; [left|now right].
           exists ids. split; [now left|exact Hid].
        -- left. exists l. split; [now right|exact Hid].
      * intros [(l & [E|Hin] & Hid)|[-> ->]].
        -- inversion E; subst. exists (l ++ [id]). split; [now left|].
           apply in_or_app. now left.
        -- exists l. split; [now right|exact Hid].
        -- exists (ids ++ [id]). split; [now left|].
           apply in_or_app. right. now left.
    + split.
      * intros (l & [E'|Hin] & Hid).
        -- left. exists l. split; [now left|exact Hid].
        -- destruct (proj1 IH (ex_intro _ l (conj Hin Hid))) as [(l' & H1 & H2)|H].
           ++ left. exists l'. split; [now right|exact H2].
           ++ now right.
      * intros [(l & [E'|Hin] & Hid)|H].
        -- exists l. split; [now left|exact Hid].
        -- destruct (proj2 IH (or_introl (ex_intro _ l (conj Hin Hid))))
             as (l' & H1 & H2).
           exists l'. split; [now right|exact H2].
        -- destruct (proj2 IH (or_intror H)) as (l' & H1 & H2).
           exists l'. split; [now right|exact H2].
Qed.

Lemma push_id_keys (c id : string) (memo : list (string * list string)) :
  List.NoDup (map fst memo) -> List.NoDup (map fst (push_id c id memo)).
Proof.
  induction memo as [|[k ids] memo IH]; simpl; intros Hnd.
  - constructor; [intros []|constructor].
  - destruct (c =? k) eqn:E; simpl.
    + exact Hnd.
    + inversion Hnd as [|? ? Hnotin Hnd']; subst. constructor.
      * intros Hin. apply Hnotin. clear - Hin E.
        induction memo as [|[k0 ids0] memo IH]; simpl in *.
        -- destruct Hin as [->|[]]. rewrite String.eqb_refl in E. discriminate E.
        -- destruct (c =? k0); simpl in Hin; [exact Hin|].
           destruct Hin as [H|H]; [now left|right; now apply IH].
      * now apply IH.
Qed.

Lemma newIds_loop (items : list Item) :
  forall memo c id,
  listed
    (fold_left
       (fun memo item =>
          match item_action item with
          | ActInsert => push_id (item_collection item) (item_id item) memo
          | _ => memo
          end)
       items memo) c id
  <-> listed memo c id
      \/ exists item,
           In item items /\ item_action item = ActInsert
           /\ item_collection item = c /\ item_id item = id.
Proof.
  induction items as [|item items IH]; intros memo c id; simpl.
  - split; [now left|]. intros [H|(item & [] & _)]. exact H.
  - rewrite IH. split.
    + intros [H|(it & Hin & Ha & Hc & Hi)].
      * destruct (item_action item) eqn:Ha; try (now left).
        apply push_id_listed in H. destruct H as [H|[-> ->]]; [now left|].
        right. exists item. repeat split; auto.
      * right. exists it. repeat split; auto.
    + intros [H|(it & [->|Hin] & Ha & Hc & Hi)].
      * left. destruct (item_action item); try exact H.
        apply push_id_listed. now left.
      * left. rewrite Ha. apply push_id_listed. right. now split.
      * right. exists it. repeat split; auto.
Qed.

Lemma newIds_loop_keys (items : list Item) :
  forall memo,
  List.NoDup (map fst memo) ->
  List.NoDup
    (map fst
       (fold_left
          (fun memo item =>
             match item_action item with
             | ActInsert => push_id (item_collection item) (item_id item) memo
             | _ => memo
             end)
          items memo)).
Proof.
  induction items as [|item items IH]; intros memo Hnd; simpl.
  - exact Hnd.
  - apply IH. destruct (item_action item); try exact Hnd.
    now apply push_id_keys.
Qed.

(** The object [commit] hands to its callback on success lists, under
    the name of each collection, exactly the [_id]s of the items of the
    transaction that are inserts into that collection; no collection
    appears twice. *)
Theorem newIds_lists_the_inserts (items : list Item) (c id : string) :
  (listed (newIds items) c id
   <-> exists item,
         In item items /\ item_action item = ActInsert
         /\ item_collection item = c /\ item_id item = id)
  /\ List.NoDup (map fst (newIds items)).
Proof.
  split.
  - unfold newIds. rewrite newIds_loop. split.
    + intros [(ids & [] & _)|H]. exact H.
    + intros H. now right.
  - unfold newIds. apply newIds_loop_keys. constructor.
Qed.

(** ** The transaction id on the writes of phase 2 *)

(** Whatever the stored command and its data, the modifier phase 2 sends
    for an update item sets [transaction_id] to the id of the
    transaction, over a [transaction_id] the data may have carried; the
    rest of the command is sent as stored. *)
Theorem tagged_modifier_carries_the_id (cmd : string) (d : Obj) (txid : string) :
  exists fields m,
    tagged_modifier cmd d txid = VObj fields
    /\ obj_get "$set" fields = Some (VObj m)
    /\ obj_get "transaction_id" m = Some (VStr txid)
    /\ ((cmd =? "$set") = true ->
        forall k, k <> "transaction_id" -> obj_get k m = obj_get k d)
    /\ ((cmd =? "$set") = false -> obj_get cmd fields = Some (VObj d)).
Proof.
  unfold tagged_modifier. destruct (cmd =? "$set") eqn:E.
  - eexists. eexists. split; [reflexivity|]. split; [reflexivity|].
    unfold obj_extend. simpl. split; [apply obj_get_set_same|].
    split; [|discriminate]. intros _ k Hk.
    apply obj_get_set_other. exact Hk.
  - eexists. eexists. split; [reflexivity|].
    assert (Hs : ("$set" =? cmd) = false).
    { rewrite String.eqb_sym. exact E. }
    cbn [obj_get]. rewrite Hs, !String.eqb_refl.
    split; [reflexivity|]. split; [reflexivity|].
    split; [discriminate|]. intros _. reflexivity.
Qed.

(** ** The permission pass over the items of a transaction *)

Section PermissionPass.
Context `{RT : Runtime}.
Context {Db : Type} `{Store : AppStoreOps Db}.
Variable env : Env.

Lemma check_item_sound (t : Transact) (db : Db) (txid : string)
    (st st' : CheckState) (value : Item) :
  check_item env t db txid st value = Ok st' ->
  fail st' = false ->
  fail st = false
  /\ (item_noCheck value = false ->
      isClient env = false \/ truthy_opt (checked_doc db txid value) = true ->
      permitted t db txid value).
Proof.
  unfold check_item, permitted. fold (checked_doc db txid value).
  intros H Hfail.
  destruct (fail st) eqn:Hst.
  - inversion H; subst. congruence.
  - split; [reflexivity|]. intros Hcheck Hdoc.
    destruct (isClient env && negb (truthy_opt (checked_doc db txid value))) eqn:Hskip.
    + exfalso. apply andb_prop in Hskip. destruct Hskip as [Hc Ht].
      destruct Hdoc as [Hd|Hd]; [congruence|].
      rewrite Hd in Ht. discriminate Ht.
    + destruct (item_action value) eqn:Ha.
      * inversion H; subst. simpl in Hfail. rewrite Hcheck in Hfail.
        unfold _permissionCheck in Hfail. simpl in Hfail.
        now apply negb_false_iff in Hfail.
      * destruct (item_update value) as [details|]; [|discriminate H].
        destruct (_unpackageForUpdate (p_data details)) as [u|e] eqn:Hu;
          [|discriminate H].
        simpl in H.
        destruct (item_inverse value) as [inverseDetails|]; [|discriminate H].
        destruct (_unpackageForUpdate (p_data inverseDetails)) as [i|e] eqn:Hi;
          [|discriminate H].
        simpl in H. inversion H; subst. simpl in Hfail. rewrite Hcheck in Hfail.
        apply negb_false_iff in Hfail. apply andb_prop in Hfail.
        destruct Hfail as [H1 H2]. unfold _permissionCheck in H1, H2.
        eexists. eexists. split; [|split; [|split; [exact H1|exact H2]]].
        -- exists details, u. split; [reflexivity|]. split; [exact Hu|].
           apply obj_get_set_same.
        -- exists inverseDetails, i. split; [reflexivity|]. split; [exact Hi|].
           apply obj_get_set_same.
      * inversion H; subst. simpl in Hfail. rewrite Hcheck in Hfail.
        unfold _permissionCheck in Hfail. simpl in Hfail.
        now apply negb_false_iff in Hfail.
Qed.

Lemma check_loop_sound (t : Transact) (db : Db) (txid : string) (l : list Item) :
  forall st st',
  each_throwing (check_item env t db txid) l st = Ok st' ->
  fail st' = false ->
  fail st = false
  /\ forall value,
       In value l ->
       item_noCheck value = false ->
       isClient env = false \/ truthy_opt (checked_doc db txid value) = true ->
       permitted t db txid value.
Proof.
  induction l as [|x l IH]; intros st st' H Hfail; simpl in H.
  - inversion H; subst. split; [exact Hfail|]. intros value [].
  - destruct (check_item env t db txid st x) as [s1|e] eqn:Hx; [|discriminate H].
    simpl in H. destruct (IH s1 st' H Hfail) as [Hs1 Hrest].
    destruct (check_item_sound t db txid st s1 x Hx Hs1) as [Hst Hperm].
    split; [exact Hst|]. intros value [<-|Hin]; [exact Hperm|now apply Hrest].
Qed.

(** When [_checkTransactionFields] answers [true], every item that
    does not carry [noCheck] went through [checkPermission] and passed:
    an insert or a remove with the empty modifier, an update with the
    modifiers recombined from its stored update and its stored inverse.
    On the client this holds for the items whose document is at hand;
    the others are left to the server. *)
Theorem permission_pass_is_sound (t : Transact) (db : Db) (items : list Item)
    (txid : string) (value : Item) :
  _checkTransactionFields env t db items txid = Ok true ->
  In value items ->
  item_noCheck value = false ->
  isClient env = false \/ truthy_opt (checked_doc db txid value) = true ->
  permitted t db txid value.
Proof.
  unfold _checkTransactionFields. intros H Hin.
  destruct items as [|x l]; [discriminate H|].
  destruct (each_throwing (check_item env t db txid) (x :: l)
              {| fail := false; recombinedUpdateFields := [];
                 recombinedInverseFields := [] |}) as [st|e] eqn:Hloop;
    [|discriminate H].
  simpl in H. injection H as Hfail. apply negb_true_iff in Hfail.
  exact (proj2 (check_loop_sound t db txid (x :: l) _ st Hloop Hfail) value Hin).
Qed.

Lemma check_item_overridden (t t' : Transact) (db : Db) (txid : string)
    (st : CheckState) (value : Item) :
  item_noCheck value = true ->
  check_item env t db txid st value = check_item env t' db txid st value
  /\ (fail st = false ->
      forall st', check_item env t db txid st value = Ok st' -> fail st' = false).
Proof.
  intros Hno. unfold check_item. rewrite Hno.
  destruct (fail st) eqn:Hst; [split; [reflexivity|discriminate]|].
  split.
  - reflexivity.
  - intros _ st' H.
    match type of H with
    | (if ?c then _ else _) = _ => destruct c
    end; [inversion H; subst; exact Hst|].
    destruct (item_action value).
    + inversion H; reflexivity.
    + destruct (item_update value) as [details|]; [|discriminate H].
      destruct (_unpackageForUpdate (p_data details)); [|discriminate H].
      simpl in H.
      destruct (item_inverse value) as [inverseDetails|]; [|discriminate H].
      destruct (_unpackageForUpdate (p_data inverseDetails)); [|discriminate H].
      simpl in H. inversion H; reflexivity.
    + inversion H; reflexivity.
Qed.

Lemma check_loop_overridden (t t' : Transact) (db : Db) (txid : string)
    (l : list Item) :
  Forall (fun value => item_noCheck value = true) l ->
  forall st,
  each_throwing (check_item env t db txid) l st
  = each_throwing (check_item env t' db txid) l st
  /\ (fail st = false ->
      forall st', each_throwing (check_item env t db txid) l st = Ok st' ->
                  fail st' = false).
Proof.
  induction 1 as [|x l Hx Hl IH]; intros st; simpl.
  - split; [reflexivity|]. intros Hst st' E. inversion E; subst. exact Hst.
  - destruct (check_item_overridden t t' db txid st x Hx) as [Heq Hkeep].
    rewrite <- Heq.
    destruct (check_item env t db txid st x) as [s1|e] eqn:E; simpl.
    + destruct (IH s1) as [Heq' Hkeep']. split; [exact Heq'|].
      intros Hst st' E'. apply Hkeep'; [|exact E']. now apply (Hkeep Hst s1).
    + split; [reflexivity|]. discriminate.
Qed.

(** Items written with [overridePermissionCheck] (they carry [noCheck])
    are never refused by the permission pass, and [checkPermission] has
    no say in its outcome: the pass answers [true] or throws on an item
    it cannot read, the same way under any [tx] object. *)
Theorem overridden_items_are_never_refused (t t' : Transact) (db : Db)
    (items : list Item) (txid : string) :
  items <> [] ->
  Forall (fun value => item_noCheck value = true) items ->
  _checkTransactionFields env t db items txid
  = _checkTransactionFields env t' db items txid
  /\ _checkTransactionFields env t db items txid <> Ok false.
Proof.
  intros Hne Hall. unfold _checkTransactionFields.
  destruct items as [|x l]; [congruence|].
  destruct (check_loop_overridden t t' db txid (x :: l) Hall
              {| fail := false; recombinedUpdateFields := [];
                 recombinedInverseFields := [] |}) as [Heq Hkeep].
  rewrite <- Heq. split; [reflexivity|].
  destruct (each_throwing (check_item env t db txid) (x :: l) _) as [st|e] eqn:E;
    simpl; [|discriminate].
  rewrite (Hkeep eq_refl st eq_refl). discriminate.
Qed.

End PermissionPass.

(** The permission pass on the two updates of [committed_two]: the
    first item was checked with [{$set: {title: "mid"}}] and with its
    inverse. *)
Lemma permission_pass_is_sound_witness :
  permitted (RT := Ref.runtime) (Store := Ref.store)
    (tx Scenario.committed_two) (collections Scenario.committed_two) "tx0"
    (hd Scenario.queued_insert
       (Scenario.items_of (Scenario.record 0 Scenario.committed_two))).
Proof.
  refine (permission_pass_is_sound (RT := Ref.runtime) (Store := Ref.store)
            Ref.env (tx Scenario.committed_two)
            (collections Scenario.committed_two)
            (Scenario.items_of (Scenario.record 0 Scenario.committed_two))
            "tx0" _ _ _ _ _).
  - vm_compute. reflexivity.
  - vm_compute. left. reflexivity.
  - vm_compute. reflexivity.
  - left. reflexivity.
Defined.

(** An insert queued under [overridePermissionCheck] passes even under a
    [checkPermission] that refuses everything. *)
Lemma overridden_items_are_never_refused_witness :
  _checkTransactionFields (RT := Ref.runtime) (Store := Ref.store) Ref.env
    Cases.strict_tx (collections Scenario.initial) [Cases.unchecked_insert] "tx0"
  = _checkTransactionFields (RT := Ref.runtime) (Store := Ref.store) Ref.env
      Ref.fresh_tx (collections Scenario.initial) [Cases.unchecked_insert] "tx0"
  /\ _checkTransactionFields (RT := Ref.runtime) (Store := Ref.store) Ref.env
       Cases.strict_tx (collections Scenario.initial) [Cases.unchecked_insert] "tx0"
     <> Ok false.
Proof.
  refine (overridden_items_are_never_refused (RT := Ref.runtime)
            (Store := Ref.store) Ref.env Cases.strict_tx Ref.fresh_tx
            (collections Scenario.initial) [Cases.unchecked_insert] "tx0" _ _).
  - discriminate.
  - constructor; [reflexivity|constructor].
Defined.

(** ** The guards of the builder *)

Section Guards.
Context `{RT : Runtime}.
Context {Db : Type} `{Store : AppStoreOps Db}.
Variable env : Env.

(** While [tx.requireUser] is set and nobody is logged in, no call of
    the interface writes anything: [insert], [update], [remove],
    [commit], undo and redo return [undefined] (and [commit] does not
    call back) with the world as it was.  [start] alone has an effect:
    it wipes the builder, an open transaction and its items included. *)
Theorem nothing_is_done_for_an_anonymous_caller (w : World Db)
    (collection _id : string) (newDoc : Obj) (updates : list (string * Obj))
    (opt : OptArg) (soft : option bool) (txid : CommitArg)
    (callback : bool) (target description : option string) :
  requireUser (tx w) = true ->
  userId env = None ->
  insert env collection newDoc opt w = (Ok InsertUndefined, w)
  /\ update env collection _id updates opt w = (Ok RetUndefined, w)
  /\ remove env collection _id opt soft w = (Ok RetUndefined, w)
  /\ commit env txid callback w = (Ok (RetUndefined, []), w)
  /\ _meteorTransactionsUndo env target w = (Ok RetUndefined, w)
  /\ _meteorTransactionsRedo env target w = (Ok RetUndefined, w)
  /\ start env description w = (Ok StartUndefined, with_tx (clean (tx w)) w).
Proof.
  intros Hreq Huser.
  unfold insert, update, remove, commit, _meteorTransactionsUndo,
    _meteorTransactionsRedo, start, bind, get.
  cbn beta iota. rewrite Hreq, Huser. cbn [is_some negb andb].
  rewrite orb_true_r. repeat split; reflexivity.
Qed.

(** Once the builder is flagged for rollback (here by [cancel]),
    [insert], [update] and [remove] are ignored: they return
    [undefined] and change nothing, whoever calls and whatever the
    options. *)
Theorem writes_after_cancel_are_ignored (w : World Db)
    (collection _id : string) (newDoc : Obj) (updates : list (string * Obj))
    (opt : OptArg) (soft : option bool) :
  cancel w = (Ok tt, with_tx (flagged "transaction-cancelled" (tx w)) w)
  /\ insert env collection newDoc opt (snd (cancel w))
     = (Ok InsertUndefined, snd (cancel w))
  /\ update env collection _id updates opt (snd (cancel w))
     = (Ok RetUndefined, snd (cancel w))
  /\ remove env collection _id opt soft (snd (cancel w))
     = (Ok RetUndefined, snd (cancel w)).
Proof.
  repeat split; reflexivity.
Qed.

(** A write that [checkPermission] refuses, and that does not override
    the check, returns [undefined], opens no transaction and touches no
    store; it flags the builder with the reason [permission-denied]. *)
Theorem refused_write_flags_the_builder (w : World Db)
    (collection _id : string) (newDoc : Obj) (updates : list (string * Obj))
    (opt : OptArg) (soft : option bool) :
  _rollback (tx w) = false ->
  (requireUser (tx w) = true -> is_some (userId env) = true) ->
  _permissionCheckOverridden (normalise_opt opt) = false ->
  (checkPermission (tx w) "insert" collection (Some (VObj newDoc)) (VObj []) = false ->
   insert env collection newDoc opt w
   = (Ok InsertUndefined, with_tx (flagged "permission-denied" (tx w)) w))
  /\ (checkPermission (tx w) "update" collection
        (coll_findOne (collections w) collection (sel_id _id))
        (modifier_value updates) = false ->
      update env collection _id updates opt w
      = (Ok RetUndefined, with_tx (flagged "permission-denied" (tx w)) w))
  /\ (checkPermission (tx w) "remove" collection
        (coll_findOne (collections w) collection (sel_id _id)) (VObj []) = false ->
      remove env collection _id opt soft w
      = (Ok RetUndefined, with_tx (flagged "permission-denied" (tx w)) w)).
Proof.
  intros Hrb Huser Hover.
  assert (Hu : requireUser (tx w) && negb (is_some (userId env)) = false).
  { destruct (requireUser (tx w)); [|reflexivity].
    rewrite Huser by reflexivity. reflexivity. }
  unfold insert, update, remove, _permissionCheck, bind, get.
  cbn beta iota. rewrite Hrb, Hu, Hover. cbn [orb].
  repeat split; intros ->; reflexivity.
Qed.

End Guards.

(** A logged-out caller on the world [opened]: [update] does nothing,
    [start] wipes the open transaction. *)
Lemma nothing_is_done_for_an_anonymous_caller_witness :
  update (RT := Ref.runtime) (Store := Ref.store) Cases.anonymous "posts" "p1"
    [("$set", Inputs.title_map)] OptUndefined Scenario.opened
  = (Ok RetUndefined, Scenario.opened)
  /\ start Cases.anonymous None Scenario.opened
     = (Ok StartUndefined, with_tx (clean (tx Scenario.opened)) Scenario.opened).
Proof.
  split.
  - refine (proj1 (proj2 (nothing_is_done_for_an_anonymous_caller
                            (RT := Ref.runtime) (Store := Ref.store)
                            Cases.anonymous Scenario.opened "posts" "p1" []
                            [("$set", Inputs.title_map)] OptUndefined None
                            ArgUndefined false None None _ _)));
      reflexivity.
  - refine (proj2 (proj2 (proj2 (proj2 (proj2 (proj2
              (nothing_is_done_for_an_anonymous_caller
                 (RT := Ref.runtime) (Store := Ref.store)
                 Cases.anonymous Scenario.opened "posts" "p1" []
                 [("$set", Inputs.title_map)] OptUndefined None
                 ArgUndefined false None None _ _)))))));
      reflexivity.
Defined.

(** Under a [checkPermission] that refuses everything an update of the
    post is refused and the builder is flagged. *)
Lemma refused_write_flags_the_builder_witness :
  update (RT := Ref.runtime) (Store := Ref.store) Ref.env "posts" "p1"
    [("$set", Inputs.title_map)] OptUndefined Cases.guarded
  = (Ok RetUndefined,
     with_tx (flagged "permission-denied" (tx Cases.guarded)) Cases.guarded).
Proof.
  refine (proj1 (proj2 (refused_write_flags_the_builder
                          (RT := Ref.runtime) (Store := Ref.store) Ref.env
                          Cases.guarded "posts" "p1" []
                          [("$set", Inputs.title_map)] OptUndefined None _ _ _))
            _); reflexivity.
Defined.

(** ** Nested starts and the commit of an empty transaction *)

Section Nesting.
Context `{RT : Runtime}.
Context {Db : Type} `{Store : AppStoreOps Db}.
Variable env : Env.

(** A [start] on an open transaction is answered with [false] and
    counted; the next [commit] that does not name the open transaction
    takes the count back, calls back with the error
    [multiple-transactions-open], returns [undefined] and leaves the open
    transaction with its id, items, context and description as they
    were.  Nothing is written meanwhile. *)
Theorem nested_start_is_absorbed_by_commit (w : World Db) (current : string)
    (description : option string) (txid : CommitArg) (callback : bool) :
  _transaction_id (tx w) = Some current ->
  (requireUser (tx w) = true -> is_some (userId env) = true) ->
  (0 <= _startAttempts (tx w))%Z ->
  names_this_transaction txid current = false ->
  start env description w
  = (Ok StartFalse,
     with_tx (with_state (tx w) (Some current) (_autoTransaction (tx w))
                (_items (tx w)) (_startAttempts (tx w) + 1) (_rollback (tx w))
                (_rollbackReason (tx w)) (_lastTransactionData (tx w))
                (_context (tx w)) (_description (tx w))) w)
  /\ commit env txid callback (snd (start env description w))
     = (Ok (RetUndefined,
            _callback txid callback (Some multiple_transactions_open) ResFalse),
        with_tx (with_state (tx w) (Some current) (_autoTransaction (tx w))
                   (_items (tx w)) (_startAttempts (tx w)) (_rollback (tx w))
                   (_rollbackReason (tx w))
                   (Some {| ltd_transaction_id := Some current;
                            ltd_writes := None |})
                   (_context (tx w)) (_description (tx w))) w).
Proof.
  intros Hopen Huser Hattempts Hthis.
  assert (Hu : requireUser (tx w) && negb (is_some (userId env)) = false).
  { destruct (requireUser (tx w)); [|reflexivity].
    rewrite Huser by reflexivity. reflexivity. }
  assert (Hstart : start env description w
                   = (Ok StartFalse,
                      with_tx (with_state (tx w) (Some current)
                                 (_autoTransaction (tx w)) (_items (tx w))
                                 (_startAttempts (tx w) + 1) (_rollback (tx w))
                                 (_rollbackReason (tx w))
                                 (_lastTransactionData (tx w))
                                 (_context (tx w)) (_description (tx w))) w)).
  { unfold start, bind, get. cbn beta iota. rewrite Hu, Hopen. reflexivity. }
  split; [exact Hstart|]. rewrite Hstart.
  assert (Hpos : (0 <? _startAttempts (tx w) + 1)%Z = true).
  { apply Z.ltb_lt. lia. }
  unfold commit, set_lastTransactionData, decrement_startAttempts, bind, get,
    set_tx, ret, with_tx.
  cbn -[Z.add Z.sub Z.ltb names_other_transaction names_this_transaction _callback].
  rewrite Hu. cbn -[Z.add Z.sub Z.ltb names_other_transaction names_this_transaction _callback].
  rewrite Hthis, Hpos. cbn [andb negb].
  destruct (names_other_transaction txid current);
    cbn -[Z.add Z.sub _callback];
    replace (_startAttempts (tx w) + 1 - 1)%Z with (_startAttempts (tx w)) by lia;
    reflexivity.
Qed.

(** The commit of an open transaction without items returns [true] and
    leaves the transaction open: the builder keeps its id, so that the
    next [start] is answered with [false] and counted as a nested
    start. *)
Theorem empty_commit_leaves_the_transaction_open (w : World Db)
    (current : string) (txid : CommitArg) (callback : bool)
    (description : option string) :
  _transaction_id (tx w) = Some current ->
  _items (tx w) = [] ->
  (requireUser (tx w) = true -> is_some (userId env) = true) ->
  names_other_transaction txid current = false ->
  ((_startAttempts (tx w) <= 0)%Z \/ names_this_transaction txid current = true) ->
  commit env txid callback w = (Ok (RetBool true, []), with_tx (noted (tx w)) w)
  /\ fst (start env description (snd (commit env txid callback w))) = Ok StartFalse
  /\ _transaction_id (tx (snd (start env description (snd (commit env txid callback w)))))
     = Some current.
Proof.
  intros Hopen Hempty Huser Hother Hattempts.
  assert (Hu : requireUser (tx w) && negb (is_some (userId env)) = false).
  { destruct (requireUser (tx w)); [|reflexivity].
    rewrite Huser by reflexivity. reflexivity. }
  assert (Ha : (0 <? _startAttempts (tx w))%Z
               && negb (names_this_transaction txid current) = false).
  { destruct Hattempts as [Hle|Hthis].
    - apply Z.ltb_ge in Hle. now rewrite Hle.
    - rewrite Hthis. apply andb_false_r. }
  assert (Hcommit : commit env txid callback w
                    = (Ok (RetBool true, []), with_tx (noted (tx w)) w)).
  { unfold commit, bind, get. cbn beta iota. rewrite Hu.
    unfold set_lastTransactionData, bind, get, set_tx.
    cbn [tx with_state _transaction_id _startAttempts _items].
    rewrite Hopen, Hother, Ha, Hempty. unfold noted, with_tx, ret.
    rewrite Hopen, Hempty. reflexivity. }
  split; [exact Hcommit|]. rewrite Hcommit.
  unfold start, bind, get, snd, with_tx, noted.
  cbn [tx requireUser with_state _transaction_id].
  rewrite Hu, Hopen. split; reflexivity.
Qed.

End Nesting.

(** The nested start on the world [opened], then a commit with a
    callback. *)
Lemma nested_start_is_absorbed_by_commit_witness :
  commit (RT := Ref.runtime) (Store := Ref.store) Ref.env ArgFunction false
    (snd (start Ref.env (Some "inner") Scenario.opened))
  = (Ok (RetUndefined,
         _callback ArgFunction false (Some multiple_transactions_open) ResFalse),
     with_tx (with_state (tx Scenario.opened) (Some "tx0")
                (_autoTransaction (tx Scenario.opened))
                (_items (tx Scenario.opened))
                (_startAttempts (tx Scenario.opened))
                (_rollback (tx Scenario.opened))
                (_rollbackReason (tx Scenario.opened))
                (Some {| ltd_transaction_id := Some "tx0"; ltd_writes := None |})
                (_context (tx Scenario.opened))
                (_description (tx Scenario.opened))) Scenario.opened).
Proof.
  refine (proj2 (nested_start_is_absorbed_by_commit (RT := Ref.runtime)
                   (Store := Ref.store) Ref.env Scenario.opened "tx0"
                   (Some "inner") ArgFunction false _ _ _ _)).
  - reflexivity.
  - reflexivity.
  - vm_compute. discriminate.
  - reflexivity.
Defined.

(** The commit of the freshly started transaction of [opened], followed
    by another [start]. *)
Lemma empty_commit_leaves_the_transaction_open_witness :
  fst (start Ref.env (Some "next")
         (snd (commit (RT := Ref.runtime) (Store := Ref.store) Ref.env
                 ArgUndefined false Scenario.opened)))
  = Ok StartFalse.
Proof.
  refine (proj1 (proj2 (empty_commit_leaves_the_transaction_open
                          (RT := Ref.runtime) (Store := Ref.store) Ref.env
                          Scenario.opened "tx0" ArgUndefined false (Some "next")
                          _ _ _ _ _))).
  - reflexivity.
  - reflexivity.
  - reflexivity.
  - reflexivity.
  - left. vm_compute. discriminate.
Defined.

(** ** Properties of the world kept by the monad *)

Section Preserves.
Context {Db : Type} `{Store : AppStoreOps Db}.
Variable P : World Db -> Prop.

Lemma preserves_ret {A} (a : A) : preserves P (ret a).
Proof. intros w H. exact H. Qed.

Lemma preserves_throw {A} (e : Err) : preserves (A := A) P (throw e).
Proof. intros w H. exact H. Qed.

Lemma preserves_lift {A} (o : Outcome A) : preserves P (lift o).
Proof. intros w H. exact H. Qed.

Lemma preserves_get : preserves P get.
Proof. intros w H. exact H. Qed.

Lemma preserves_bind {A B} (m : M Db A) (k : A -> M Db B) :
  preserves P m -> (forall a, preserves P (k a)) -> preserves P (bind m k).
Proof.
  intros Hm Hk w H. unfold bind. specialize (Hm w H).
  destruct (m w) as [[a|e] w']; simpl in *.
  - apply Hk. exact Hm.
  - exact Hm.
Qed.

Lemma preserves_try_catch {A} (m : M Db A) (h : Err -> M Db A) :
  preserves P m -> (forall e, preserves P (h e)) -> preserves P (try_catch m h).
Proof.
  intros Hm Hh w H. unfold try_catch. specialize (Hm w H).
  destruct (m w) as [[a|e] w']; simpl in *.
  - exact Hm.
  - apply Hh. exact Hm.
Qed.

Lemma preserves_each_indexed {A St} (f : St -> nat -> A -> M Db St) (l : list A) :
  (forall s i x, preserves P (f s i x)) ->
  forall i s, preserves P (each_indexed f l i s).
Proof.
  intros Hf. induction l as [|x l IH]; intros i s; simpl.
  - apply preserves_ret.
  - apply preserves_bind; [apply Hf|]. intros s'. apply IH.
Qed.

Lemma preserves_Meteor_call {A B} (method : M Db A)
    (callback : Outcome A -> M Db (list B)) :
  preserves P method -> (forall r, preserves P (callback r)) ->
  preserves P (Meteor_call method callback).
Proof.
  intros Hm Hc w H. unfold Meteor_call. specialize (Hm w H).
  destruct (method w) as [r w1]. simpl in Hm. specialize (Hc r w1 Hm).
  destruct (callback r w1) as [[calls|e] w2]; exact Hc.
Qed.

Hypothesis blind : store_blind P.

Lemma preserves_run_op (op : AppOp) : preserves P (run_op op).
Proof.
  intros w H. unfold run_op.
  destruct op as [c d|c sel m|c sel].
  - destruct (coll_insert c d (collections w)) as [[s id]|e]; [|exact H].
    exact (blind w s (transactions w) H).
  - destruct (coll_update c sel m (collections w)) as [[s n]|e]; [|exact H].
    exact (blind w s (transactions w) H).
  - destruct (coll_remove c sel (collections w)) as [[s n]|e]; [|exact H].
    exact (blind w s (transactions w) H).
Qed.

Lemma preserves_attempt (op : AppOp) : preserves P (attempt op).
Proof.
  unfold attempt. apply preserves_try_catch.
  - apply preserves_bind; [apply preserves_run_op|intros; apply preserves_ret].
  - intros; apply preserves_ret.
Qed.

Lemma preserves_txs_update (id : option string) (m : TxModifier) :
  preserves P (txs_update id m).
Proof.
  intros w H. unfold txs_update, bind, get, set_transactions. simpl.
  exact (blind w (collections w) _ H).
Qed.

Lemma preserves_txs_remove (id : option string) : preserves P (txs_remove id).
Proof.
  intros w H. unfold txs_remove, bind, get, set_transactions. simpl.
  exact (blind w (collections w) _ H).
Qed.

Lemma preserves_txs_insert (d : TxDoc) : preserves P (txs_insert d).
Proof.
  intros w H. unfold txs_insert, bind, get, lift, set_transactions, ret.
  destruct (Transactions_insert d (transactions w)) as [[txs id]|e]; simpl.
  - exact (blind w (collections w) _ H).
  - exact H.
Qed.

Lemma preserves_changeItemState (txid : option string) (index : nat) (st : State) :
  preserves P (_changeItemState txid index st).
Proof. apply preserves_txs_update. Qed.

End Preserves.

Create HintDb preserves.

#[local] Hint Resolve preserves_ret preserves_throw preserves_lift preserves_get
  preserves_run_op preserves_attempt preserves_txs_update preserves_txs_remove
  preserves_txs_insert preserves_changeItemState : preserves.

(** One step through a computation, for goals of the form
    [preserves P m]. *)
Ltac preserves_step :=
  lazymatch goal with
  | |- preserves _ (bind _ _) => apply preserves_bind; [|intros ?]
  | |- preserves _ (try_catch _ _) => apply preserves_try_catch; [|intros ?]
  | |- preserves _ (each_indexed _ _ _ _) => apply preserves_each_indexed; intros ? ? ?
  | |- preserves _ (Meteor_call _ _) => apply preserves_Meteor_call; [|intros ?]
  | |- preserves _ (if ?b then _ else _) => destruct b
  | |- preserves _ (match ?x with _ => _ end) => destruct x
  | |- preserves _ (let _ := _ in _) => cbv zeta
  | |- preserves _ _ => solve [auto with preserves]
  end.

Ltac preserves_auto := repeat preserves_step.

(** ** [rollback] and the commit of a flagged transaction *)

Lemma Transactions_update_absent (id : option string) (m : TxModifier)
    (txs : list TxDoc) :
  Transactions_findOne id txs = None -> Transactions_update id m txs = txs.
Proof.
  destruct id as [i|]; [|reflexivity]. simpl.
  induction txs as [|d txs IH]; simpl; [reflexivity|].
  destruct (tx_id d =? i); [discriminate|].
  intros H. now rewrite IH.
Qed.

Lemma Transactions_remove_absent (id : option string) (txs : list TxDoc) :
  Transactions_findOne id txs = None -> Transactions_remove id txs = txs.
Proof.
  destruct id as [i|]; [|reflexivity]. simpl.
  induction txs as [|d txs IH]; simpl; [reflexivity|].
  destruct (tx_id d =? i); [discriminate|].
  intros H. simpl. now rewrite IH.
Qed.

Lemma mark_items_absent (id : option string) (st : State) (n : nat) :
  forall index txs,
  Transactions_findOne id txs = None -> mark_items id st index n txs = txs.
Proof.
  induction n as [|n IH]; intros index txs H; simpl; [reflexivity|].
  rewrite (Transactions_update_absent id _ txs H). now apply IH.
Qed.

Lemma settle_absent (t : Transact) (txs : list TxDoc) :
  Transactions_findOne (_transaction_id t) txs = None -> settle t txs = txs.
Proof.
  intros H. unfold settle. destruct (removeRolledBackTransactions t).
  - now apply Transactions_remove_absent.
  - now apply Transactions_update_absent.
Qed.

Section RollbackOfQueued.
Context `{RT : Runtime}.
Context {Db : Type} `{Store : AppStoreOps Db}.
Variable env : Env.

Lemma rollback_loop_queued (txid : option string) (items : list Item) :
  Forall (fun obj => item_instant obj = false) items ->
  forall index (w : World Db),
  each_indexed (rollback_step txid) items index false w
  = (Ok false,
     with_transactions
       (mark_items txid StRolledBack index (length items) (transactions w)) w).
Proof.
  induction 1 as [|obj items Hq Hall IH]; intros index w.
  - destruct w. reflexivity.
  - cbn [each_indexed length mark_items].
    unfold bind at 1.
    assert (Hstep : rollback_step txid false index obj w
                    = (Ok false,
                       with_transactions
                         (Transactions_update txid (SetItemState index StRolledBack)
                            (transactions w)) w)).
    { unfold rollback_step, bind. rewrite Hq.
      destruct (item_action obj); reflexivity. }
    rewrite Hstep. rewrite IH. reflexivity.
Qed.

Lemma rollback_queued_run (w : World Db) :
  Forall (fun obj => item_instant obj = false) (_items (tx w)) ->
  rollback w
  = (Ok tt,
     {| tx := clean (tx w);
        collections := collections w;
        transactions :=
          settle (tx w)
            (mark_items (_transaction_id (tx w)) StRolledBack 0
               (length (_items (tx w))) (transactions w));
        drawn := drawn w |}).
Proof.
  intros Hall. unfold rollback. unfold bind at 1. unfold get at 1.
  unfold bind at 1. rewrite (rollback_loop_queued _ _ Hall 0 w).
  unfold settle. destruct (removeRolledBackTransactions (tx w)); reflexivity.
Qed.

(** When none of the items of the open transaction is [instant],
    [rollback] writes nothing to the application collections: it marks
    the items and the record of the transaction as rolled back (or
    removes the record, under [removeRolledBackTransactions]) and resets
    the builder.  Where the transaction has no record yet, the
    [transactions] collection stays as it was too. *)
Theorem rollback_of_queued_items_writes_nothing (w : World Db) :
  Forall (fun obj => item_instant obj = false) (_items (tx w)) ->
  rollback w
  = (Ok tt,
     {| tx := clean (tx w);
        collections := collections w;
        transactions :=
          settle (tx w)
            (mark_items (_transaction_id (tx w)) StRolledBack 0
               (length (_items (tx w))) (transactions w));
        drawn := drawn w |})
  /\ (Transactions_findOne (_transaction_id (tx w)) (transactions w) = None ->
      transactions (snd (rollback w)) = transactions w).
Proof.
  intros Hall. split; [now apply rollback_queued_run|].
  intros Habsent. rewrite (rollback_queued_run w Hall). cbn [snd transactions].
  rewrite mark_items_absent by exact Habsent. now apply settle_absent.
Qed.

Lemma commit_flagged_run (w : World Db) (current : string)
    (txid : CommitArg) (callback : bool) :
  _transaction_id (tx w) = Some current ->
  _items (tx w) <> [] ->
  Forall (fun obj => item_instant obj = false) (_items (tx w)) ->
  _rollback (tx w) = true ->
  requireUser (tx w) && negb (is_some (userId env)) = false ->
  names_other_transaction txid current = false ->
  (0 <? _startAttempts (tx w))%Z && negb (names_this_transaction txid current)
  = false ->
  commit env txid callback w
  = (Ok (RetUndefined,
         _callback txid callback (Some (MeteorError (_rollbackReason (tx w))))
           ResFalse),
     {| tx := clean (noted (tx w));
        collections := collections w;
        transactions :=
          settle (tx w)
            (mark_items (Some current) StRolledBack 0 (length (_items (tx w)))
               (transactions w));
        drawn := drawn w |}).
Proof.
  intros Hopen Hitems Hall Hflag Hu Hother Ha.
  unfold commit. unfold bind at 1. unfold get at 1. cbn beta iota.
  rewrite Hu, Hopen, Hother, Ha, Hflag.
  destruct (_items (tx w)) as [|x l] eqn:Hl; [congruence|].
  unfold bind at 1. unfold set_lastTransactionData at 1.
  unfold bind at 1. unfold get at 1. unfold set_tx at 1. cbn beta iota.
  unfold bind at 1.
  rewrite rollback_queued_run.
  - cbn [tx with_state _items _transaction_id].
    unfold ret, clean, noted, settle.
    cbn [_items with_state length _transaction_id removeRolledBackTransactions
         _lastTransactionData tx collections transactions drawn].
    rewrite Hl, Hopen. reflexivity.
  - cbn [tx with_state _items]. rewrite Hl. exact Hall.
Qed.

(** The commit of a transaction that is flagged for rollback (cancelled,
    refused or failed) and whose items are all queued runs none of them:
    the application collections are left as they were, the callback gets
    the reason as its error, [commit] returns [undefined] and the
    builder is reset.  The flag of [cancel] gives the error
    [transaction-cancelled]. *)
Theorem commit_of_flagged_queue_runs_nothing (w : World Db) (current : string)
    (txid : CommitArg) (callback : bool) :
  _transaction_id (tx w) = Some current ->
  _items (tx w) <> [] ->
  Forall (fun obj => item_instant obj = false) (_items (tx w)) ->
  _rollback (tx w) = true ->
  (requireUser (tx w) = true -> is_some (userId env) = true) ->
  names_other_transaction txid current = false ->
  ((_startAttempts (tx w) <= 0)%Z \/ names_this_transaction txid current = true) ->
  commit env txid callback w
  = (Ok (RetUndefined,
         _callback txid callback (Some (MeteorError (_rollbackReason (tx w))))
           ResFalse),
     {| tx := clean (noted (tx w));
        collections := collections w;
        transactions :=
          settle (tx w)
            (mark_items (Some current) StRolledBack 0 (length (_items (tx w)))
               (transactions w));
        drawn := drawn w |})
  /\ (Transactions_findOne (Some current) (transactions w) = None ->
      transactions (snd (commit env txid callback w)) = transactions w).
Proof.
  intros Hopen Hitems Hall Hflag Huser Hother Hattempts.
  assert (Hu : requireUser (tx w) && negb (is_some (userId env)) = false).
  { destruct (requireUser (tx w)); [|reflexivity].
    rewrite Huser by reflexivity. reflexivity. }
  assert (Ha : (0 <? _startAttempts (tx w))%Z
               && negb (names_this_transaction txid current) = false).
  { destruct Hattempts as [Hle|Hthis].
    - apply Z.ltb_ge in Hle. now rewrite Hle.
    - rewrite Hthis. apply andb_false_r. }
  pose proof (commit_flagged_run w current txid callback Hopen Hitems Hall Hflag
                Hu Hother Ha) as Hcommit.
  split; [exact Hcommit|].
  intros Habsent. rewrite Hcommit. cbn [snd transactions].
  rewrite mark_items_absent by exact Habsent.
  apply settle_absent. now rewrite Hopen.
Qed.

End RollbackOfQueued.

(** The two queued updates of [queued_two] are rolled back by hand: the
    transaction has no record, and none appears. *)
Lemma rollback_of_queued_items_writes_nothing_witness :
  transactions (snd (rollback (RT := Ref.runtime) (Store := Ref.store)
                       Scenario.queued_two))
  = transactions Scenario.queued_two.
Proof.
  refine (proj2 (rollback_of_queued_items_writes_nothing (RT := Ref.runtime)
                   (Store := Ref.store) Scenario.queued_two _) _).
  - vm_compute. repeat constructor.
  - vm_compute. reflexivity.
Defined.

(** The transaction of [queued_two] is cancelled, then committed. *)
Lemma commit_of_flagged_queue_runs_nothing_witness :
  commit (RT := Ref.runtime) (Store := Ref.store) Ref.env ArgFunction false
    Cases.cancelled
  = (Ok (RetUndefined,
         _callback ArgFunction false
           (Some (MeteorError (_rollbackReason (tx Cases.cancelled)))) ResFalse),
     {| tx := clean (noted (tx Cases.cancelled));
        collections := collections Cases.cancelled;
        transactions :=
          settle (tx Cases.cancelled)
            (mark_items (Some "tx0") StRolledBack 0
               (length (_items (tx Cases.cancelled)))
               (transactions Cases.cancelled));
        drawn := drawn Cases.cancelled |}).
Proof.
  refine (proj1 (commit_of_flagged_queue_runs_nothing (RT := Ref.runtime)
                   (Store := Ref.store) Ref.env Cases.cancelled "tx0"
                   ArgFunction false _ _ _ _ _ _ _)).
  - vm_compute. reflexivity.
  - vm_compute. discriminate.
  - vm_compute. repeat constructor.
  - vm_compute. reflexivity.
  - reflexivity.
  - reflexivity.
  - left. vm_compute. discriminate.
Defined.

(** ** What [commit] tells its caller *)

Section CommitProtocol.
Context `{RT : Runtime}.
Context {Db : Type} `{Store : AppStoreOps Db}.
Variable env : Env.

Lemma commit_result_shape (txid : CommitArg) (callback : bool)
    (r : Outcome (option (option (list Item)))) (w : World Db) :
  match commit_result txid callback r w with
  | (Ok calls, w') =>
      calls = []
      \/ exists its,
           r = Ok (Some its)
           /\ calls
              = _callback txid callback None
                  (ResNewIds (newIds (match its with Some l => l | None => [] end)))
           /\ tx w'
              = clean (with_state (tx w) (_transaction_id (tx w))
                         (_autoTransaction (tx w)) (_items (tx w))
                         (_startAttempts (tx w)) (_rollback (tx w))
                         (_rollbackReason (tx w))
                         (Some {| ltd_transaction_id := _transaction_id (tx w);
                                  ltd_writes := Some its |})
                         (_context (tx w)) (_description (tx w)))
  | (Throw _, _) => r = Ok None
  end.
Proof.
  destruct r as [[its|]|e]; cbn.
  - right. exists its. repeat split; reflexivity.
  - reflexivity.
  - now left.
Qed.

(** [commit] returns [true] or [undefined], and what it tells the
    callback goes with what it returns.  When it returns [true], the
    callback has either not been called, or been called once without an
    error and with the new ids, and then the builder has been reset.
    When it returns [undefined], the callback has either not been
    called, or been called once with an error and [false].  A failure
    of phase 2 is in the first case: [commit] returns [true] and the
    callback is not called. *)
Theorem commit_callback_protocol (txid : CommitArg) (callback : bool)
    (w w' : World Db) (r : Ret) (calls : list CallbackCall) :
  commit env txid callback w = (Ok (r, calls), w') ->
  (r = RetBool true
   /\ (calls = []
       \/ exists its,
            calls = _callback txid callback None (ResNewIds (newIds its))
            /\ _transaction_id (tx w') = None
            /\ _items (tx w') = []
            /\ _rollback (tx w') = false))
  \/ (r = RetUndefined
      /\ (calls = []
          \/ exists e, calls = _callback txid callback (Some e) ResFalse)).
Proof.
  unfold commit. unfold bind at 1. unfold get at 1. cbn beta iota.
  destruct (requireUser (tx w) && negb (is_some (userId env))).
  { intros H. inversion H. right. split; [reflexivity|now left]. }
  unfold bind at 1. unfold set_lastTransactionData at 1.
  unfold bind at 1. unfold get at 1. unfold set_tx at 1. cbn beta iota.
  destruct (_transaction_id (tx w)) as [current|].
  2:{ unfold bind, _cleanReset, get, set_tx, ret. cbn. intros H. inversion H.
      right. split; [reflexivity|]. right. eexists. reflexivity. }
  destruct (names_other_transaction txid current).
  { unfold bind, decrement_startAttempts, get, set_tx, ret. cbn. intros H.
    inversion H. right. split; [reflexivity|]. right. eexists. reflexivity. }
  destruct ((0 <? _startAttempts (tx w))%Z
            && negb (names_this_transaction txid current)).
  { unfold bind, decrement_startAttempts, get, set_tx, ret. cbn. intros H.
    inversion H. right. split; [reflexivity|]. right. eexists. reflexivity. }
  destruct (_items (tx w)) as [|x l].
  { unfold ret. intros H. inversion H. left. split; [reflexivity|now left]. }
  cbn beta iota.
  destruct (_rollback (tx w)).
  { unfold bind at 1.
    match goal with
    | |- context [rollback ?w0] => destruct (rollback w0) as [[[]|e] w1]
    end; unfold ret; intros H; inversion H.
    right. split; [reflexivity|]. right. eexists. reflexivity. }
  unfold try_catch, bind, Meteor_call.
  match goal with
  | |- context [_meteorTransactionsProcess env ?a ?b ?c ?d ?w0] =>
      destruct (_meteorTransactionsProcess env a b c d w0) as [r1 w1]
  end.
  pose proof (commit_result_shape txid callback r1 w1) as Hshape.
  destruct (commit_result txid callback r1 w1) as [[calls1|e] w2].
  - unfold ret. intros H. inversion H; subst. left. split; [reflexivity|].
    destruct Hshape as [->|(its & _ & -> & Htx)]; [now left|].
    right. eexists. split; [reflexivity|]. rewrite Htx. repeat split.
  - unfold ret. intros H. inversion H; subst. left. split; [reflexivity|now left].
Qed.

End CommitProtocol.

(** The commit of the two queued updates of [two_queued], with a
    callback: it returns [true] and the callback gets the (empty) list
    of new ids. *)
Lemma commit_callback_protocol_witness :
  (RetBool true = RetBool true
   /\ ([{| cb_error := None; cb_result := ResNewIds [] |}] = []
       \/ exists its,
            [{| cb_error := None; cb_result := ResNewIds [] |}]
            = _callback ArgFunction false None (ResNewIds (newIds its))
            /\ _transaction_id
                 (tx (snd (commit (RT := Ref.runtime) (Store := Ref.store)
                             Ref.env ArgFunction false Cases.two_queued))) = None
            /\ _items
                 (tx (snd (commit (RT := Ref.runtime) (Store := Ref.store)
                             Ref.env ArgFunction false Cases.two_queued))) = []
            /\ _rollback
                 (tx (snd (commit (RT := Ref.runtime) (Store := Ref.store)
                             Ref.env ArgFunction false Cases.two_queued))) = false))
  \/ (RetBool true = RetUndefined
      /\ ([{| cb_error := None; cb_result := ResNewIds [] |}] = []
          \/ exists e,
               [{| cb_error := None; cb_result := ResNewIds [] |}]
               = _callback ArgFunction false (Some e) ResFalse)).
Proof.
  refine (commit_callback_protocol (RT := Ref.runtime) (Store := Ref.store)
            Ref.env ArgFunction false Cases.two_queued
            (snd (commit (RT := Ref.runtime) (Store := Ref.store)
                    Ref.env ArgFunction false Cases.two_queued))
            (RetBool true) [{| cb_error := None; cb_result := ResNewIds [] |}] _).
  vm_compute. reflexivity.
Defined.

(** ** Phase 1 and phase 2 of the commit *)

Lemma findOne_update_id (i : string) (m : TxModifier) (txs : list TxDoc) :
  Transactions_findOne (Some i) (Transactions_update (Some i) m txs)
  = option_map (apply_TxModifier m) (Transactions_findOne (Some i) txs).
Proof.
  simpl. induction txs as [|d txs IH]; simpl; [reflexivity|].
  destruct (tx_id d =? i) eqn:E; simpl.
  - assert (Hid : tx_id (apply_TxModifier m d) = tx_id d).
    { destruct m; simpl; try reflexivity.
      destruct (tx_items d) as [l|]; [|reflexivity].
      destruct (existsb (Item_eqb item) l); reflexivity. }
    rewrite Hid, E. reflexivity.
  - rewrite E. exact IH.
Qed.

Lemma findOne_remove (i : string) (txs : list TxDoc) :
  Transactions_findOne (Some i) (Transactions_remove (Some i) txs) = None.
Proof.
  simpl. induction txs as [|d txs IH]; simpl; [reflexivity|].
  destruct (tx_id d =? i) eqn:E; simpl; [exact IH|].
  rewrite E. exact IH.
Qed.

Section CommitPhases.
Context `{RT : Runtime}.
Context {Db : Type} `{Store : AppStoreOps Db}.
Variable env : Env.

(** The permission pass reads [checkPermission] and nothing else of the
    [tx] object. *)
Lemma check_ignores_state (t : Transact) (txid : option string) (auto : bool)
    (items0 : list Item) (attempts : Z) (rb : bool) (reason : string)
    (ltd : option LastTransactionData) (ctx : Obj) (descr : string)
    (db : Db) (items : list Item) (id : string) :
  _checkTransactionFields env
    (with_state t txid auto items0 attempts rb reason ltd ctx descr) db items id
  = _checkTransactionFields env t db items id.
Proof. reflexivity. Qed.

Section Blind.
Variable P : World Db -> Prop.
Hypothesis blind : store_blind P.

Lemma preserves_rollback_step (txid : option string) (error : bool) (index : nat)
    (obj : Item) :
  preserves P (rollback_step txid error index obj).
Proof. unfold rollback_step. preserves_auto. Qed.

Lemma preserves_cacheValues (txid : string) (item : Item) (index : nat)
    (updateCache : Cache) :
  preserves P (cacheValues txid item index updateCache).
Proof. unfold cacheValues. preserves_auto. Qed.

Lemma preserves_process_step (txid : string) (st : bool * Cache) (index : nat)
    (item : Item) :
  preserves P (process_step env txid st index item).
Proof.
  pose proof preserves_cacheValues as Hc.
  unfold process_step. preserves_auto.
Qed.

Lemma preserves_process_queue (txid : string) (st : State)
    (item_index : nat -> nat) (queuedItems : list AppOp) :
  preserves P (process_queue txid st item_index queuedItems).
Proof. unfold process_queue, _changeItemState. preserves_auto. Qed.

End Blind.

End CommitPhases.

Section CommitOutcomes.
Context `{RT : Runtime}.
Context {Db : Type} `{Store : AppStoreOps Db}.
Variable env : Env.

Lemma bind_inv {A B} (m : M Db A) (k : A -> M Db B) (w w' : World Db) (b : B) :
  bind m k w = (Ok b, w') ->
  exists a w1, m w = (Ok a, w1) /\ k a w1 = (Ok b, w').
Proof.
  unfold bind. destruct (m w) as [[a|e] w1]; [|discriminate].
  intros H. now exists a, w1.
Qed.

Lemma same_builder_blind (w0 : World Db) : store_blind (same_builder w0).
Proof. intros w s txs H. exact H. Qed.

Lemma rollback_result (w w' : World Db) :
  rollback w = (Ok tt, w') -> drawn w' = drawn w /\ tx w' = clean (tx w).
Proof.
  unfold rollback. unfold bind at 1. unfold get at 1. cbn beta iota.
  unfold bind at 1.
  pose proof (preserves_each_indexed (same_builder w)
                (rollback_step (_transaction_id (tx w))) (_items (tx w))
                (fun s i x => preserves_rollback_step (same_builder w)
                                (same_builder_blind w) _ s i x)
                0 false w (conj eq_refl eq_refl)) as Hloop.
  destruct (each_indexed (rollback_step (_transaction_id (tx w))) (_items (tx w))
              0 false w) as [[error|e] w1]; cbn [snd] in Hloop;
    destruct Hloop as [Htx Hdrawn]; [|discriminate].
  unfold bind, txs_remove, txs_update, _cleanReset, get, set_transactions, set_tx.
  destruct (removeRolledBackTransactions (tx w)); cbn;
    intros H; inversion H; subst; clear H; cbn; rewrite Htx; split;
    solve [exact Hdrawn|reflexivity].
Qed.

(** [rollback] resets the builder when it returns; when it throws (on a
    stored inverse it cannot read) the builder is left as it was, the
    transaction still open.  When it returns, the record of the
    transaction is gone (under [removeRolledBackTransactions]) or in the
    state [rolledBack]. *)
Theorem rollback_outcome (w w' : World Db) (r : Outcome unit) :
  rollback w = (r, w') ->
  drawn w' = drawn w
  /\ match r with
     | Ok _ =>
         tx w' = clean (tx w)
         /\ forall i rec,
              _transaction_id (tx w) = Some i ->
              Transactions_findOne (Some i) (transactions w') = Some rec ->
              removeRolledBackTransactions (tx w) = false
              /\ tx_state rec = StRolledBack
     | Throw _ => tx w' = tx w
     end.
Proof.
  unfold rollback. unfold bind at 1. unfold get at 1. cbn beta iota.
  unfold bind at 1.
  pose proof (preserves_each_indexed (same_builder w)
                (rollback_step (_transaction_id (tx w))) (_items (tx w))
                (fun s i x => preserves_rollback_step (same_builder w)
                                (same_builder_blind w) _ s i x)
                0 false w (conj eq_refl eq_refl)) as Hloop.
  destruct (each_indexed (rollback_step (_transaction_id (tx w))) (_items (tx w))
              0 false w) as [[error|e] w1]; cbn [snd] in Hloop;
    destruct Hloop as [Htx Hdrawn].
  - unfold bind, txs_remove, txs_update, _cleanReset, get, set_transactions, set_tx.
    destruct (removeRolledBackTransactions (tx w)) eqn:Hrm; cbn;
      intros H; inversion H; subst; clear H; cbn.
    + split; [exact Hdrawn|]. rewrite Htx. split; [reflexivity|].
      intros i rec Hid. rewrite Hid.
      match goal with
      | |- context [find (fun d => tx_id d =? i) ?l] =>
          change (find (fun d => tx_id d =? i) l)
            with (Transactions_findOne (Some i) l)
      end.
      rewrite findOne_remove. discriminate.
    + split; [exact Hdrawn|]. rewrite Htx. split; [reflexivity|].
      intros i rec Hid. rewrite Hid.
      match goal with
      | |- context [find (fun d => tx_id d =? i) ?l] =>
          change (find (fun d => tx_id d =? i) l)
            with (Transactions_findOne (Some i) l)
      end.
      rewrite findOne_update_id.
      destruct (Transactions_findOne (Some i) (transactions w1)) as [rec0|];
        [|discriminate].
      cbn. intros E. inversion E. split; reflexivity.
  - intros H. inversion H; subst. split; [exact Hdrawn|exact Htx].
Qed.

(** What [_meteorTransactionsProcess] leaves behind when it returns.
    With [{items}] as its result, the record of the transaction is in
    the state [done], stamped with the time of the call, and holds the
    items returned; the builder has not been touched.  With no result
    (an action of phase 2 failed and the rollback pass returned), the
    builder has been reset. *)
Theorem process_outcome (txid description : string) (items : list Item)
    (context : Obj) (w w' : World Db) (res : option (option (list Item))) :
  _meteorTransactionsProcess env txid description items context w = (Ok res, w') ->
  drawn w' = drawn w
  /\ match res with
     | Some its =>
         tx w' = tx w
         /\ exists rec,
              Transactions_findOne (Some txid) (transactions w') = Some rec
              /\ tx_items rec = its
              /\ tx_state rec = StDone
              /\ tx_lastModified rec = now env
     | None => tx w' = clean (tx w)
     end.
Proof.
  intros H. unfold _meteorTransactionsProcess in H.
  unfold bind at 1 in H. unfold get at 1 in H. cbn beta iota in H.
  unfold bind at 1 in H. unfold lift at 1 in H.
  destruct (_checkTransactionFields env (tx w) (collections w) items txid)
    as [allowed|e]; [|discriminate H].
  destruct allowed; cbn [negb] in H; [|discriminate H].
  apply bind_inv in H. destruct H as (u1 & w1 & H1 & H).
  apply bind_inv in H. destruct H as (u2 & w2 & H2 & H).
  apply bind_inv in H. destruct H as (st & w3 & H3 & H).
  assert (P1 : same_builder w w1).
  { assert (Hp : preserves (same_builder w)
                   (if is_some (Transactions_findOne (Some txid) (transactions w))
                    then txs_update (Some txid) (SetItems items) else ret tt)).
    { pose proof (same_builder_blind w). preserves_auto. }
    specialize (Hp w (conj eq_refl eq_refl)). rewrite H1 in Hp. exact Hp. }
  assert (P2 : same_builder w w2).
  { match type of H2 with
    | ?m w1 = _ =>
        assert (Hp : preserves (same_builder w) m)
    end.
    { pose proof (same_builder_blind w). preserves_auto. }
    specialize (Hp w1 P1). rewrite H2 in Hp. exact Hp. }
  assert (P3 : same_builder w w3).
  { pose proof (preserves_each_indexed (same_builder w)
                  (process_step env txid)
                  (snapshot_hard_deletes (collections w) items)
                  (fun s i x => preserves_process_step env (same_builder w)
                                  (same_builder_blind w) txid s i x)
                  0 (true, []) w2 P2) as Hp.
    rewrite H3 in Hp. exact Hp. }
  destruct P3 as [Htx Hdrawn].
  destruct (fst st).
  - unfold bind, txs_update, get, set_transactions in H. cbn in H.
    change (find (fun d => tx_id d =? txid)
              (Transactions_update_id txid (SetStateLastModified StDone (now env))
                 (transactions w3)))
      with (Transactions_findOne (Some txid)
              (Transactions_update (Some txid)
                 (SetStateLastModified StDone (now env)) (transactions w3))) in H.
    destruct (Transactions_findOne (Some txid)
                (Transactions_update (Some txid)
                   (SetStateLastModified StDone (now env)) (transactions w3)))
      as [finalTxRecord|] eqn:Hfind; [|discriminate H].
    unfold ret in H. inversion H; subst; clear H. cbn.
    split; [exact Hdrawn|]. split; [exact Htx|].
    exists finalTxRecord. split; [exact Hfind|]. split; [reflexivity|].
    rewrite findOne_update_id in Hfind.
    destruct (Transactions_findOne (Some txid) (transactions w3)) as [rec0|];
      [|discriminate Hfind].
    cbn in Hfind. inversion Hfind. split; reflexivity.
  - apply bind_inv in H. destruct H as ([] & w4 & Hrb & H).
    unfold ret in H. inversion H; subst; clear H.
    destruct (rollback_result w3 _ Hrb) as [Hd Hclean].
    split; [congruence|]. rewrite Hclean, Htx. reflexivity.
Qed.

(** A transaction the permission pass refuses is refused whole and in
    silence.  [_meteorTransactionsProcess] throws [Transaction not
    allowed] before it writes anything; [commit] hands the error to its
    own function, which logs it: the callback of the caller is not
    called, [commit] returns [true], and the builder keeps the
    transaction open with its items. *)
Theorem refused_commit_is_silent (w : World Db) (current : string)
    (txid : CommitArg) (callback : bool) :
  _transaction_id (tx w) = Some current ->
  _items (tx w) <> [] ->
  _rollback (tx w) = false ->
  (requireUser (tx w) = true -> is_some (userId env) = true) ->
  names_other_transaction txid current = false ->
  ((_startAttempts (tx w) <= 0)%Z \/ names_this_transaction txid current = true) ->
  _checkTransactionFields env (tx w) (collections w) (_items (tx w)) current
  = Ok false ->
  _meteorTransactionsProcess env current (_description (tx w)) (_items (tx w))
    (_context (tx w)) w
  = (Throw (MeteorError "Transaction not allowed"), w)
  /\ commit env txid callback w = (Ok (RetBool true, []), with_tx (noted (tx w)) w).
Proof.
  intros Hopen Hitems Hflag Huser Hother Hattempts Hcheck.
  assert (Hu : requireUser (tx w) && negb (is_some (userId env)) = false).
  { destruct (requireUser (tx w)); [|reflexivity].
    rewrite Huser by reflexivity. reflexivity. }
  assert (Ha : (0 <? _startAttempts (tx w))%Z
               && negb (names_this_transaction txid current) = false).
  { destruct Hattempts as [Hle|Hthis].
    - apply Z.ltb_ge in Hle. now rewrite Hle.
    - rewrite Hthis. apply andb_false_r. }
  split.
  - unfold _meteorTransactionsProcess, bind, get, lift. rewrite Hcheck. reflexivity.
  - unfold commit. unfold bind at 1. unfold get at 1. cbn beta iota.
    rewrite Hu, Hopen, Hother, Ha, Hflag.
    destruct (_items (tx w)) as [|x l] eqn:Hl; [congruence|].
    unfold bind at 1. unfold set_lastTransactionData at 1.
    unfold bind at 1. unfold get at 1. unfold set_tx at 1. cbn beta iota.
    unfold try_catch, bind at 1, Meteor_call.
    unfold _meteorTransactionsProcess, bind, get, lift.
    cbn [tx collections with_state].
    rewrite check_ignores_state, Hcheck. cbn.
    unfold with_tx, noted. rewrite Hl, Hopen. reflexivity.
Qed.

End CommitOutcomes.

(** The rollback of the two instant updates of [edited_twice] returns:
    the builder is clean and the record is in the state [rolledBack]. *)
Lemma rollback_outcome_witness :
  drawn (snd (rollback (RT := Ref.runtime) (Store := Ref.store)
                Scenario.edited_twice))
  = drawn Scenario.edited_twice
  /\ (tx (snd (rollback (RT := Ref.runtime) (Store := Ref.store)
                 Scenario.edited_twice))
      = clean (tx Scenario.edited_twice)
      /\ forall i rec,
           _transaction_id (tx Scenario.edited_twice) = Some i ->
           Transactions_findOne (Some i)
             (transactions (snd (rollback (RT := Ref.runtime) (Store := Ref.store)
                                   Scenario.edited_twice))) = Some rec ->
           removeRolledBackTransactions (tx Scenario.edited_twice) = false
           /\ tx_state rec = StRolledBack).
Proof.
  refine (rollback_outcome (RT := Ref.runtime) (Store := Ref.store)
            Scenario.edited_twice
            (snd (rollback (RT := Ref.runtime) (Store := Ref.store)
                    Scenario.edited_twice))
            (Ok tt) _).
  vm_compute. reflexivity.
Defined.

(** Phase 1 and phase 2 on the two queued updates of [two_queued]. *)
Lemma process_outcome_witness :
  drawn (snd (_meteorTransactionsProcess (RT := Ref.runtime) (Store := Ref.store)
                Ref.env "tx0" "edit" (_items (tx Cases.two_queued)) []
                Cases.two_queued))
  = drawn Cases.two_queued
  /\ (tx (snd (_meteorTransactionsProcess (RT := Ref.runtime) (Store := Ref.store)
                 Ref.env "tx0" "edit" (_items (tx Cases.two_queued)) []
                 Cases.two_queued))
      = tx Cases.two_queued
      /\ exists rec,
           Transactions_findOne (Some "tx0")
             (transactions
                (snd (_meteorTransactionsProcess (RT := Ref.runtime)
                        (Store := Ref.store) Ref.env "tx0" "edit"
                        (_items (tx Cases.two_queued)) [] Cases.two_queued)))
           = Some rec
           /\ tx_items rec = tx_items (Scenario.record 0 Scenario.committed_two)
           /\ tx_state rec = StDone
           /\ tx_lastModified rec = now Ref.env).
Proof.
  refine (process_outcome (RT := Ref.runtime) (Store := Ref.store) Ref.env
            "tx0" "edit" (_items (tx Cases.two_queued)) [] Cases.two_queued
            (snd (_meteorTransactionsProcess (RT := Ref.runtime)
                    (Store := Ref.store) Ref.env "tx0" "edit"
                    (_items (tx Cases.two_queued)) [] Cases.two_queued))
            (Some (tx_items (Scenario.record 0 Scenario.committed_two))) _).
  vm_compute. reflexivity.
Defined.

(** The items of [refused] do not pass the permission check of its [tx]
    object: the commit returns [true] and keeps the transaction open. *)
Lemma refused_commit_is_silent_witness :
  commit (RT := Ref.runtime) (Store := Ref.store) Ref.env ArgFunction false
    Cases.refused
  = (Ok (RetBool true, []), with_tx (noted (tx Cases.refused)) Cases.refused).
Proof.
  refine (proj2 (refused_commit_is_silent (RT := Ref.runtime) (Store := Ref.store)
                   Ref.env Cases.refused "tx0" ArgFunction false _ _ _ _ _ _ _)).
  - vm_compute. reflexivity.
  - vm_compute. discriminate.
  - vm_compute. reflexivity.
  - reflexivity.
  - reflexivity.
  - left. vm_compute. discriminate.
  - vm_compute. reflexivity.
Defined.

(** ** Undo and redo: selection, callers and the two stacks *)

Lemma pick_latest_max (sort_key : TxDoc -> Z) (l : list TxDoc) (d : TxDoc) :
  pick_latest sort_key l = Some d ->
  forall d', In d' l -> (sort_key d' <= sort_key d)%Z.
Proof.
  revert d. induction l as [|d0 l IH]; simpl; intros d H d' Hin; [contradiction|].
  destruct (pick_latest sort_key l) as [d1|] eqn:E.
  - destruct (sort_key d0 <? sort_key d1)%Z eqn:Hlt; inversion H; subst; clear H.
    + apply Z.ltb_lt in Hlt. destruct Hin as [<-|Hin]; [lia|].
      now apply (IH d eq_refl).
    + apply Z.ltb_ge in Hlt. destruct Hin as [<-|Hin]; [lia|].
      specialize (IH d1 eq_refl d' Hin). lia.
  - inversion H; subst; clear H. destruct Hin as [<-|Hin]; [lia|].
    destruct l as [|x l]; [contradiction|]. simpl in E.
    destruct (pick_latest sort_key l) as [d1|];
      [destruct (sort_key x <? sort_key d1)%Z|]; discriminate E.
Qed.

(** What undo and redo select.  The record is in the collection and
    passes the eligibility test of the method (for undo: state [done],
    neither undone nor expired; for redo: undone and not expired).
    Called with an id, the method takes the record of that id, whoever
    owns it; called without, it takes among the eligible records of the
    caller one with the latest sort key ([lastModified] for undo,
    [undone] for redo). *)
Theorem selection_is_eligible_and_latest (eligible : TxDoc -> bool)
    (sort_key : TxDoc -> Z) (txid user : option string) (txs : list TxDoc)
    (d : TxDoc) :
  find_transaction eligible sort_key txid user txs = Some d ->
  In d txs
  /\ eligible d = true
  /\ match txid_given txid with
     | Some i => tx_id d = i
     | None =>
         option_eqb String.eqb (tx_user_id d) user = true
         /\ forall d',
              In d' txs ->
              option_eqb String.eqb (tx_user_id d') user = true ->
              eligible d' = true ->
              (sort_key d' <= sort_key d)%Z
     end.
Proof.
  unfold find_transaction. destruct (txid_given txid) as [i|]; intros H.
  - apply List.find_some in H. destruct H as [Hin Hb].
    apply andb_true_iff in Hb. destruct Hb as [Hid Hel].
    apply String.eqb_eq in Hid. tauto.
  - pose proof (pick_latest_In _ _ _ H) as Hin.
    apply List.filter_In in Hin. destruct Hin as [Hin Hb].
    apply andb_true_iff in Hb. destruct Hb as [Hu Hel].
    split; [exact Hin|]. split; [exact Hel|]. split; [exact Hu|].
    intros d' Hin' Hu' Hel'. apply (pick_latest_max _ _ _ H).
    apply List.filter_In. split; [exact Hin'|]. now rewrite Hu', Hel'.
Qed.

Lemma findOne_unique (txs : list TxDoc) (d : TxDoc) :
  List.NoDup (map tx_id txs) -> In d txs ->
  Transactions_findOne (Some (tx_id d)) txs = Some d.
Proof.
  simpl. induction txs as [|d0 txs IH]; simpl; intros Hnd Hin; [contradiction|].
  inversion Hnd as [|? ? Hnotin Hnd']; subst.
  destruct Hin as [->|Hin].
  - now rewrite String.eqb_refl.
  - destruct (tx_id d0 =? tx_id d) eqn:E.
    + apply String.eqb_eq in E. exfalso. apply Hnotin. rewrite E.
      now apply in_map.
    + now apply IH.
Qed.

Lemma status_of_item_state (i : string) (id : option string) (index : nat)
    (st : State) (txs : list TxDoc) :
  status_of i (Transactions_update id (SetItemState index st) txs) = status_of i txs.
Proof.
  unfold status_of. destruct id as [j|]; [|reflexivity]. simpl.
  induction txs as [|d txs IH]; simpl; [reflexivity|].
  destruct (tx_id d =? j); simpl.
  - destruct (tx_id d =? i); reflexivity.
  - destruct (tx_id d =? i); [reflexivity|exact IH].
Qed.

Section UndoRedoMore.
Context `{RT : Runtime}.
Context {Db : Type} `{Store : AppStoreOps Db}.
Variable env : Env.

Lemma preserves_Undo (P : World Db -> Prop) (txid : option string) :
  store_blind P -> preserves P (_meteorTransactionsUndo env txid).
Proof.
  intros blind. pose proof (preserves_process_queue P blind) as Hq.
  unfold _meteorTransactionsUndo. preserves_auto.
Qed.

Lemma preserves_Redo (P : World Db -> Prop) (txid : option string) :
  store_blind P -> preserves P (_meteorTransactionsRedo env txid).
Proof.
  intros blind. pose proof (preserves_process_queue P blind) as Hq.
  unfold _meteorTransactionsRedo. preserves_auto.
Qed.

(** Undo and redo, the methods and their wrappers, never touch the
    builder: whatever they do to the stores, and whether they return or
    throw, a transaction that is open stays open with its items, and no
    id is drawn. *)
Theorem undo_and_redo_leave_the_builder_alone (txid : option string)
    (callback : bool) (w : World Db) :
  same_builder w (snd (_meteorTransactionsUndo env txid w))
  /\ same_builder w (snd (_meteorTransactionsRedo env txid w))
  /\ same_builder w (snd (undo env txid callback w))
  /\ same_builder w (snd (redo env txid callback w)).
Proof.
  pose proof (preserves_Undo (same_builder w) txid (same_builder_blind w)) as Hu.
  pose proof (preserves_Redo (same_builder w) txid (same_builder_blind w)) as Hr.
  assert (H0 : same_builder w w) by (split; reflexivity).
  split; [exact (Hu w H0)|]. split; [exact (Hr w H0)|]. split.
  - assert (Hp : preserves (same_builder w) (undo env txid callback)).
    { unfold undo. preserves_auto. }
    exact (Hp w H0).
  - assert (Hp : preserves (same_builder w) (redo env txid callback)).
    { unfold redo. preserves_auto. }
    exact (Hp w H0).
Qed.

End UndoRedoMore.

Section TwoStacks.
Context `{RT : Runtime}.
Context {Db : Type} `{Store : AppStoreOps Db}.
Variable env : Env.

Lemma status_kept_by_process_queue (i : string) (s : option (State * option Z * option bool))
    (txid : string) (st : State) (item_index : nat -> nat)
    (queuedItems : list AppOp) :
  maintains (Db := Db) (fun txs => status_of i txs = s)
    (process_queue txid st item_index queuedItems).
Proof.
  unfold process_queue. apply maintains_each_indexed. intros [] index op.
  apply maintains_bind; [apply maintains_attempt|]. intros threw.
  destruct threw; [apply maintains_ret|].
  unfold _changeItemState. apply maintains_txs_update.
  intros txs H. now rewrite status_of_item_state.
Qed.

Lemma undo_success_transactions (txid : option string) (w w' : World Db)
    (T : TxDoc) (items : list Item) :
  _meteorTransactionsUndo env txid w = (Ok (RetBool false), w') ->
  find_transaction undo_eligible tx_lastModified txid (userId env) (transactions w)
  = Some T ->
  tx_items T = Some items ->
  exists q,
    transactions w'
    = Transactions_update (Some (tx_id T)) (SetUndoneState (now env) StUndone)
        (transactions
           (snd (process_queue (tx_id T) StUndone
                   (fun index => (length q - 1) - index) q w))).
Proof.
  intros H Hfind Hitems. unfold _meteorTransactionsUndo in H.
  cbv beta iota delta [bind get ret lift txs_update txs_remove set_transactions] in H.
  destruct (requireUser (tx w) && negb (is_some (userId env))); [discriminate H|].
  rewrite Hfind in H. cbv beta iota zeta in H. rewrite Hitems in H.
  destruct (_checkTransactionFields env (tx w) (collections w) items (tx_id T))
    as [allowed|e]; [|discriminate H].
  destruct allowed; [|discriminate H].
  destruct (each_throwing (undo_scan_step (collections w) (tx_id T))
              (rev items) (false, [])) as [[expired q]|e]; [|discriminate H].
  cbv beta iota delta [fst snd] in H.
  destruct expired; [discriminate H|].
  destruct (process_queue_run (tx_id T) StUndone
              (fun index => (length q - 1) - index) q w) as (txs & Hq & _).
  rewrite Hq in H. inversion H. exists q. rewrite Hq. reflexivity.
Qed.

Lemma redo_success_transactions (txid : option string) (w w' : World Db)
    (T : TxDoc) (items : list Item) :
  _meteorTransactionsRedo env txid w = (Ok (RetBool false), w') ->
  find_transaction redo_eligible undone_key txid (userId env) (transactions w)
  = Some T ->
  tx_items T = Some items ->
  exists q,
    transactions w'
    = Transactions_update (Some (tx_id T)) (UnsetUndoneSetState StDone)
        (transactions
           (snd (process_queue (tx_id T) StDone (fun index => index) q w))).
Proof.
  intros H Hfind Hitems. unfold _meteorTransactionsRedo in H.
  cbv beta iota delta [bind get ret lift txs_update txs_remove set_transactions] in H.
  destruct (requireUser (tx w) && negb (is_some (userId env))); [discriminate H|].
  rewrite Hfind in H. cbv beta iota zeta in H. rewrite Hitems in H.
  destruct (_checkTransactionFields env (tx w) (collections w) items (tx_id T))
    as [allowed|e]; [|discriminate H].
  destruct allowed; [|discriminate H].
  destruct (each_throwing (redo_scan_step env (collections w) (tx_id T))
              items (false, [])) as [[expired q]|e]; [|discriminate H].
  cbv beta iota delta [fst snd] in H.
  destruct expired; [discriminate H|].
  destruct (process_queue_run (tx_id T) StDone (fun index => index) q w)
    as (txs & Hq & _).
  rewrite Hq in H. inversion H. exists q. rewrite Hq. reflexivity.
Qed.

(** Undo and redo move a transaction between the two stacks.  In a
    collection whose records have distinct ids, a transaction that undo
    has gone through with (it returned [false]) is left in the state
    [undone], stamped with the time of the call: redo may select it, undo
    may not.  A transaction that redo has gone through with is back in
    the state [done] with no [undone] stamp: undo may select it again,
    redo may not. *)
Theorem undo_and_redo_move_between_stacks (txid : option string)
    (w w' : World Db) (T : TxDoc) (items : list Item) :
  List.NoDup (map tx_id (transactions w)) ->
  tx_items T = Some items ->
  (_meteorTransactionsUndo env txid w = (Ok (RetBool false), w') ->
   find_transaction undo_eligible tx_lastModified txid (userId env)
     (transactions w) = Some T ->
   exists T',
     Transactions_findOne (Some (tx_id T)) (transactions w') = Some T'
     /\ tx_state T' = StUndone
     /\ tx_undone T' = Some (now env)
     /\ redo_eligible T' = true
     /\ undo_eligible T' = false)
  /\ (_meteorTransactionsRedo env txid w = (Ok (RetBool false), w') ->
      find_transaction redo_eligible undone_key txid (userId env)
        (transactions w) = Some T ->
      exists T',
        Transactions_findOne (Some (tx_id T)) (transactions w') = Some T'
        /\ tx_state T' = StDone
        /\ tx_undone T' = None
        /\ undo_eligible T' = true
        /\ redo_eligible T' = false).
Proof.
  intros Hnd Hitems. split; intros H Hfind.
  - destruct (undo_success_transactions txid w w' T items H Hfind Hitems)
      as (q & Htxs).
    destruct (find_transaction_In _ _ _ _ _ _ Hfind) as [Hin Hel].
    pose proof (findOne_unique (transactions w) T Hnd Hin) as Hone.
    pose proof (status_kept_by_process_queue (tx_id T)
                  (status_of (tx_id T) (transactions w)) (tx_id T) StUndone
                  (fun index => (length q - 1) - index) q w eq_refl) as Hst.
    rewrite Htxs, findOne_update_id.
    unfold status_of in Hst. rewrite Hone in Hst.
    destruct (Transactions_findOne (Some (tx_id T))
                (transactions
                   (snd (process_queue (tx_id T) StUndone
                           (fun index => (length q - 1) - index) q w))))
      as [r|]; [|discriminate Hst].
    cbn in Hst. inversion Hst as [[Hs Hu He]].
    eexists. split; [reflexivity|].
    unfold undo_eligible in Hel.
    destruct (tx_undone T), (tx_expired T), (tx_state T); try discriminate Hel.
    unfold redo_eligible, undo_eligible. cbn. rewrite He. repeat split.
  - destruct (redo_success_transactions txid w w' T items H Hfind Hitems)
      as (q & Htxs).
    destruct (find_transaction_In _ _ _ _ _ _ Hfind) as [Hin Hel].
    pose proof (findOne_unique (transactions w) T Hnd Hin) as Hone.
    pose proof (status_kept_by_process_queue (tx_id T)
                  (status_of (tx_id T) (transactions w)) (tx_id T) StDone
                  (fun index => index) q w eq_refl) as Hst.
    rewrite Htxs, findOne_update_id.
    unfold status_of in Hst. rewrite Hone in Hst.
    destruct (Transactions_findOne (Some (tx_id T))
                (transactions
                   (snd (process_queue (tx_id T) StDone (fun index => index) q w))))
      as [r|]; [|discriminate Hst].
    cbn in Hst. inversion Hst as [[Hs Hu He]].
    eexists. split; [reflexivity|].
    unfold redo_eligible in Hel.
    destruct (tx_undone T), (tx_expired T); try discriminate Hel.
    unfold redo_eligible, undo_eligible. cbn. rewrite He. repeat split.
Qed.

(** The callback of [tx.undo] and [tx.redo] is called once, with the
    negation of what the method returned.  Its second argument is
    [false] exactly when the method returned [true], that is, when it
    found the transaction expired; it is [true] in every other case, also
    when the method did nothing because nobody is logged in, and when it
    threw. *)
Theorem undo_callback_tells_expiry_only (txid : option string) (w : World Db) :
  (exists err res,
     undo env txid true w
     = (Ok ((if isClient env && negb res then [OnTransactionExpired] else [])
            ++ [Callback err res]),
        snd (_meteorTransactionsUndo env txid w))
     /\ (res = false <-> fst (_meteorTransactionsUndo env txid w) = Ok (RetBool true)))
  /\ (exists err res,
        redo env txid true w
        = (Ok ((if isClient env && negb res then [OnTransactionExpired] else [])
               ++ [Callback err res]),
           snd (_meteorTransactionsRedo env txid w))
        /\ (res = false <-> fst (_meteorTransactionsRedo env txid w) = Ok (RetBool true)))
  /\ (requireUser (tx w) = true -> userId env = None ->
      undo env txid true w = (Ok [Callback None true], w)
      /\ redo env txid true w = (Ok [Callback None true], w)).
Proof.
  split; [|split].
  - unfold undo, Meteor_call, ret, expiry_reply.
    destruct (_meteorTransactionsUndo env txid w) as [r w1]; cbn [fst snd].
    exists (match r with Throw e => Some e | Ok _ => None end), (negb (ret_truthy r)).
    split; [now rewrite negb_involutive|].
    destruct r as [[|[|]]|e]; cbn; split; intros E; try discriminate E; reflexivity.
  - unfold redo, Meteor_call, ret, expiry_reply.
    destruct (_meteorTransactionsRedo env txid w) as [r w1]; cbn [fst snd].
    exists (match r with Throw e => Some e | Ok _ => None end), (negb (ret_truthy r)).
    split; [now rewrite negb_involutive|].
    destruct r as [[|[|]]|e]; cbn; split; intros E; try discriminate E; reflexivity.
  - intros Hreq Huser.
    unfold undo, redo, Meteor_call, _meteorTransactionsUndo, _meteorTransactionsRedo,
      bind, get, ret, expiry_reply.
    cbn beta iota. rewrite Hreq, Huser. cbn. rewrite andb_false_r.
    split; reflexivity.
Qed.

End TwoStacks.

(** Of the two transactions of [two_transactions] an undo without an id
    selects the later one. *)
Lemma selection_is_eligible_and_latest_witness :
  In (Scenario.record 1 Scenario.two_transactions)
    (transactions Scenario.two_transactions)
  /\ undo_eligible (Scenario.record 1 Scenario.two_transactions) = true
  /\ match txid_given None with
     | Some i => tx_id (Scenario.record 1 Scenario.two_transactions) = i
     | None =>
         option_eqb String.eqb
           (tx_user_id (Scenario.record 1 Scenario.two_transactions))
           (userId Scenario.later) = true
         /\ forall d',
              In d' (transactions Scenario.two_transactions) ->
              option_eqb String.eqb (tx_user_id d') (userId Scenario.later) = true ->
              undo_eligible d' = true ->
              (tx_lastModified d'
               <= tx_lastModified (Scenario.record 1 Scenario.two_transactions))%Z
     end.
Proof.
  refine (selection_is_eligible_and_latest undo_eligible tx_lastModified None
            (userId Scenario.later) (transactions Scenario.two_transactions)
            (Scenario.record 1 Scenario.two_transactions) _).
  vm_compute. reflexivity.
Defined.

(** The transaction of [committed_two] is undone: it is then in the
    state [undone] and on the redo stack. *)
Lemma undo_and_redo_move_between_stacks_witness :
  exists T',
    Transactions_findOne (Some (tx_id (Scenario.record 0 Scenario.committed_two)))
      (transactions
         (snd (_meteorTransactionsUndo (RT := Ref.runtime) (Store := Ref.store)
                 Scenario.later None Scenario.committed_two)))
    = Some T'
    /\ tx_state T' = StUndone
    /\ tx_undone T' = Some (now Scenario.later)
    /\ redo_eligible T' = true
    /\ undo_eligible T' = false.
Proof.
  refine (proj1 (undo_and_redo_move_between_stacks (RT := Ref.runtime)
                   (Store := Ref.store) Scenario.later None
                   Scenario.committed_two
                   (snd (_meteorTransactionsUndo (RT := Ref.runtime)
                           (Store := Ref.store) Scenario.later None
                           Scenario.committed_two))
                   (Scenario.record 0 Scenario.committed_two)
                   (Scenario.items_of (Scenario.record 0 Scenario.committed_two))
                   _ _) _ _).
  - vm_compute. constructor; [intros []|constructor].
  - vm_compute. reflexivity.
  - vm_compute. reflexivity.
  - vm_compute. reflexivity.
Defined.

(** ** Inserts and removes in an open transaction *)

(** The projections of a world and of a [tx] object that were just
    built are reduced. *)
Ltac builder_cbn :=
  cbn [tx collections transactions drawn with_state fst snd
       checkPermission makeContext requireUser softDelete selfRepairMode
       removeRolledBackTransactions tx_inverseOperations
       _transaction_id _autoTransaction _items _startAttempts _rollback
       _rollbackReason _lastTransactionData _context _description].

Ltac builder_go :=
  repeat first [progress cbn beta iota zeta | progress builder_cbn].

Section QueuedWrites.
Context `{RT : Runtime}.
Context {Db : Type} `{Store : AppStoreOps Db}.
Variable env : Env.

(** An insert that is queued (a transaction is open, the insert is not
    [instant]) writes to no collection.  It draws a fresh id for the
    document to come, pushes one pending item that carries this id and
    the document as given, merges the context and returns [true]. *)
Theorem queued_insert_reserves_an_id (w : World Db) (current : string)
    (collection : string) (newDoc : Obj) (opt : OptArg) :
  _transaction_id (tx w) = Some current ->
  _autoTransaction (tx w) = false ->
  _rollback (tx w) = false ->
  (requireUser (tx w) = true -> is_some (userId env) = true) ->
  opt_instant (normalise_opt opt) = false ->
  may_write (normalise_opt opt) (tx w) "insert" collection (Some (VObj newDoc))
    (VObj []) = true ->
  insert env collection newDoc opt w
  = (Ok (InsertBool true),
     {| tx := queued
                (_createItem ActInsert collection (Random_id env (drawn w))
                   (Some (newDoc_fieldData newDoc)) false
                   (_permissionCheckOverridden (normalise_opt opt)))
                (context_of (normalise_opt opt) (tx w) "insert" collection
                   (Some (VObj newDoc)) (VObj []))
                (tx w);
        collections := collections w;
        transactions := transactions w;
        drawn := Datatypes.S (drawn w) |}).
Proof.
  intros Hopen Hauto Hrb Huser Hinstant Hmay.
  assert (Hu : requireUser (tx w) && negb (is_some (userId env)) = false).
  { destruct (requireUser (tx w)); [|reflexivity].
    rewrite Huser by reflexivity. reflexivity. }
  unfold may_write in Hmay.
  unfold insert. unfold bind at 1. unfold get at 1. cbn beta iota zeta.
  unfold _permissionCheck. rewrite Hrb, Hu, Hmay. cbn [orb].
  unfold _openAutoTransaction, _setContext, _pushToRecord, _closeAutoTransaction,
    draw_id, bind, get, set_tx, ret.
  cbn beta iota zeta. rewrite Hopen. cbn beta iota zeta.
  cbn [tx with_state _transaction_id _autoTransaction _rollback].
  rewrite Hinstant, Hauto. cbn [orb fst snd].
  repeat first [rewrite Hauto | rewrite Hrb | rewrite Hopen | progress builder_cbn].
  unfold queued, context_of. rewrite ?Hopen, ?Hauto, ?Hrb. reflexivity.
Qed.

(** A remove that is queued writes to no collection either: it pushes
    one pending item and returns [true].  The item asks for a hard
    delete, without a snapshot yet, unless soft deletion is chosen; the
    option [softDelete] of the call decides, and [tx.softDelete] only
    where the call does not say. *)
Theorem queued_remove_pushes_one_item (w : World Db) (current : string)
    (collection _id : string) (opt : OptArg) (soft : option bool) :
  _transaction_id (tx w) = Some current ->
  _autoTransaction (tx w) = false ->
  _rollback (tx w) = false ->
  (requireUser (tx w) = true -> is_some (userId env) = true) ->
  opt_instant (normalise_opt opt) = false ->
  may_write (normalise_opt opt) (tx w) "remove" collection
    (coll_findOne (collections w) collection (sel_id _id)) (VObj []) = true ->
  remove env collection _id opt soft w
  = (Ok (RetBool true),
     with_tx
       (queued
          (_createItem ActRemove collection _id
             (if soft_delete_chosen opt soft (tx w) then None
              else Some (hardDelete_fieldData None))
             false (_permissionCheckOverridden (normalise_opt opt)))
          (context_of (normalise_opt opt) (tx w) "remove" collection
             (coll_findOne (collections w) collection (sel_id _id)) (VObj []))
          (tx w))
       w).
Proof.
  intros Hopen Hauto Hrb Huser Hinstant Hmay.
  assert (Hu : requireUser (tx w) && negb (is_some (userId env)) = false).
  { destruct (requireUser (tx w)); [|reflexivity].
    rewrite Huser by reflexivity. reflexivity. }
  unfold may_write in Hmay.
  unfold remove. unfold bind at 1. unfold get at 1. cbn beta iota zeta.
  unfold _permissionCheck. rewrite Hrb, Hu, Hmay. cbn [orb].
  rewrite Hinstant.
  unfold _openAutoTransaction, _setContext, _doRemove, _pushToRecord,
    _closeAutoTransaction, bind, get, set_tx, ret.
  cbn beta iota zeta. rewrite Hopen. cbn beta iota zeta.
  cbn [tx with_state _transaction_id _autoTransaction _rollback softDelete].
  assert (Hsoft : match normalise_opt opt,
                        match opt with OptHash _ _ => soft | _ => None end with
                  | Some _, Some b => b
                  | _, _ => softDelete (tx w)
                  end = soft_delete_chosen opt soft (tx w)).
  { unfold soft_delete_chosen.
    destruct opt as [| |o [o'|]]; cbn; try reflexivity; destruct soft; reflexivity. }
  rewrite Hsoft.
  destruct (soft_delete_chosen opt soft (tx w));
    repeat first [rewrite Hauto | rewrite Hrb | rewrite Hopen | progress builder_cbn];
    unfold with_tx, queued, context_of; rewrite ?Hopen, ?Hauto, ?Hrb; reflexivity.
Qed.

End QueuedWrites.

Section InstantWrites.
Context `{RT : Runtime}.
Context {Db : Type} `{Store : AppStoreOps Db}.
Variable env : Env.

Lemma recordTransaction_run (item : Item) (w : World Db) (id : string) :
  _transaction_id (tx w) = Some id ->
  _recordTransaction env item w
  = (Ok tt, with_transactions (recorded env (tx w) id item (transactions w)) w).
Proof.
  intros Hid. unfold _recordTransaction, recorded, bind, get. cbn beta iota zeta.
  rewrite Hid.
  destruct (Transactions_findOne (Some id) (transactions w)) as [found|] eqn:Hfind;
    cbn [is_some].
  - reflexivity.
  - unfold txs_insert, txs_update, bind, get, lift, Transactions_insert,
      set_transactions, ret.
    cbn beta iota zeta. cbn [tx_id transactions].
    rewrite (find_none_existsb id) by exact Hfind. cbn.
    rewrite (Transactions_update_id_new id) by (auto; reflexivity).
    reflexivity.
Qed.

(** While a transaction is open, [_recordTransaction] does not throw.
    The first instant action of the transaction creates its record, in
    the state [pending], with the id, the description and the context of
    the builder, the caller as its user and the item as its only item;
    a later one adds its item to the record that is there. *)
Theorem recordTransaction_creates_or_extends (item : Item) (w : World Db)
    (id : string) :
  _transaction_id (tx w) = Some id ->
  _recordTransaction env item w
  = (Ok tt,
     with_transactions
       (match Transactions_findOne (Some id) (transactions w) with
        | Some _ =>
            Transactions_update (Some id) (AddToSetItems item) (transactions w)
        | None =>
            transactions w
            ++ [{| tx_id := id; tx_user_id := userId env;
                   tx_description := _description (tx w);
                   tx_items := Some [item]; tx_context := _context (tx w);
                   tx_lastModified := now env; tx_state := StPending;
                   tx_undone := None; tx_expired := None |}]
        end) w).
Proof. apply recordTransaction_run. Qed.

(** An instant insert in an open transaction, when the collection takes
    the document.  The document written is the one given with the id of
    the transaction put in; [insert] returns the [_id] the collection
    answered with; the item, in the state [done], holds the document
    with that [_id], and it is on the record of the transaction before
    [insert] returns. *)
Theorem instant_insert_is_written_and_recorded (w : World Db) (current : string)
    (collection : string) (newDoc : Obj) (opt : OptArg) (s : Db) (newId : string) :
  _transaction_id (tx w) = Some current ->
  _autoTransaction (tx w) = false ->
  _rollback (tx w) = false ->
  (requireUser (tx w) = true -> is_some (userId env) = true) ->
  opt_instant (normalise_opt opt) = true ->
  may_write (normalise_opt opt) (tx w) "insert" collection (Some (VObj newDoc))
    (VObj []) = true ->
  coll_insert collection
    (VObj (obj_extend newDoc [("transaction_id", VStr current)])) (collections w)
  = Ok (s, VStr newId) ->
  let context := context_of (normalise_opt opt) (tx w) "insert" collection
                   (Some (VObj newDoc)) (VObj []) in
  let item :=
    _createItem ActInsert collection newId
      (Some (newDoc_fieldData
               (obj_extend (obj_extend newDoc [("transaction_id", VStr current)])
                  [("_id", VStr newId); ("transaction_id", VStr current)])))
      true (_permissionCheckOverridden (normalise_opt opt)) in
  insert env collection newDoc opt w
  = (Ok (InsertId newId),
     {| tx := queued item context (tx w);
        collections := s;
        transactions :=
          recorded env (in_context context (tx w)) current item (transactions w);
        drawn := drawn w |}).
Proof.
  intros Hopen Hauto Hrb Huser Hinstant Hmay Hins context item.
  assert (Hu : requireUser (tx w) && negb (is_some (userId env)) = false).
  { destruct (requireUser (tx w)); [|reflexivity].
    rewrite Huser by reflexivity. reflexivity. }
  unfold may_write in Hmay.
  unfold insert. unfold bind at 1. unfold get at 1. cbn beta iota zeta.
  unfold _permissionCheck. rewrite Hrb, Hu, Hmay. cbn [orb].
  unfold _openAutoTransaction. unfold bind at 1. unfold bind at 1.
  unfold get at 1. cbn beta iota zeta. rewrite Hopen. unfold ret at 1.
  unfold bind at 1. unfold _setContext at 1. unfold bind at 1. unfold get at 1.
  unfold set_tx at 1. cbn beta iota zeta.
  unfold bind at 1. unfold get at 1. cbn beta iota zeta. builder_cbn.
  rewrite Hinstant, Hopen. cbn [orb id_value].
  unfold bind at 1. unfold bind at 1. unfold try_catch at 1. unfold bind at 1.
  unfold _doInsert at 1. builder_cbn. rewrite Hins.
  unfold ret at 1. unfold try_catch at 1.
  unfold bind at 1. fold context.
  rewrite (recordTransaction_run _ _ current)
    by (builder_cbn; first [exact Hopen | reflexivity]).
  unfold _pushToRecord, _closeAutoTransaction, bind, get, set_tx, ret,
    with_transactions.
  cbn beta iota zeta. builder_cbn. rewrite Hauto. cbn beta iota. builder_cbn.
  unfold queued, in_context. rewrite ?Hopen, ?Hauto. reflexivity.
Qed.

(** An instant hard remove of a document the selector does not find (it
    is not there, or, on the server, it is already soft deleted) fails
    before anything is written: [remove] returns [false], the
    transaction is flagged with the reason [remove-error], no item is
    pushed and no store is touched. *)
Theorem instant_remove_of_a_missing_document (w : World Db) (current : string)
    (collection _id : string) (opt : OptArg) (soft : option bool) :
  _transaction_id (tx w) = Some current ->
  _autoTransaction (tx w) = false ->
  _rollback (tx w) = false ->
  (requireUser (tx w) = true -> is_some (userId env) = true) ->
  opt_instant (normalise_opt opt) = true ->
  may_write (normalise_opt opt) (tx w) "remove" collection
    (coll_findOne (collections w) collection (sel_id _id)) (VObj []) = true ->
  soft_delete_chosen opt soft (tx w) = false ->
  coll_findOne (collections w) collection
    (remove_selector (negb (isClient env)) _id) = None ->
  remove env collection _id opt soft w
  = (Ok (RetBool false),
     with_tx
       (flagged "remove-error"
          (in_context
             (context_of (normalise_opt opt) (tx w) "remove" collection
                (coll_findOne (collections w) collection (sel_id _id)) (VObj []))
             (tx w)))
       w).
Proof.
  intros Hopen Hauto Hrb Huser Hinstant Hmay Hhard Hmissing.
  assert (Hu : requireUser (tx w) && negb (is_some (userId env)) = false).
  { destruct (requireUser (tx w)); [|reflexivity].
    rewrite Huser by reflexivity. reflexivity. }
  unfold may_write in Hmay.
  unfold remove. unfold bind at 1. unfold get at 1. cbn beta iota zeta.
  unfold _permissionCheck. rewrite Hrb, Hu, Hmay. cbn [orb].
  rewrite Hinstant.
  unfold _openAutoTransaction, _setContext, _doRemove, _pushToRecord,
    _closeAutoTransaction, set_rollback, try_catch, throw, bind, get, set_tx, ret.
  cbn beta iota zeta. rewrite Hopen. cbn beta iota zeta.
  builder_cbn.
  assert (Hsoft : match normalise_opt opt,
                        match opt with OptHash _ _ => soft | _ => None end with
                  | Some _, Some b => b
                  | _, _ => softDelete (tx w)
                  end = soft_delete_chosen opt soft (tx w)).
  { unfold soft_delete_chosen.
    destruct opt as [| |o [o'|]]; cbn; try reflexivity; destruct soft; reflexivity. }
  rewrite Hsoft, Hhard, Hmissing.
  repeat first [rewrite Hauto | rewrite Hrb | rewrite Hopen | progress builder_cbn].
  unfold with_tx, flagged, in_context, context_of.
  builder_cbn. rewrite ?Hopen, ?Hauto, ?Hrb. reflexivity.
Qed.

(** An instant hard remove in an open transaction, when the selector
    finds the document.  The snapshot kept on the item is the document as
    stored with the id of the transaction and a [deleted] date put in;
    the item is on the record of the transaction before the document is
    removed from its collection. *)
Theorem instant_hard_remove_keeps_a_snapshot (w : World Db) (current : string)
    (collection _id : string) (opt : OptArg) (soft : option bool)
    (fullDoc : Obj) (s : Db) (n : nat) :
  _transaction_id (tx w) = Some current ->
  _autoTransaction (tx w) = false ->
  _rollback (tx w) = false ->
  (requireUser (tx w) = true -> is_some (userId env) = true) ->
  opt_instant (normalise_opt opt) = true ->
  may_write (normalise_opt opt) (tx w) "remove" collection
    (coll_findOne (collections w) collection (sel_id _id)) (VObj []) = true ->
  soft_delete_chosen opt soft (tx w) = false ->
  coll_findOne (collections w) collection
    (remove_selector (negb (isClient env)) _id) = Some (VObj fullDoc) ->
  coll_remove collection (remove_selector (negb (isClient env)) _id) (collections w)
  = Ok (s, n) ->
  let context := context_of (normalise_opt opt) (tx w) "remove" collection
                   (coll_findOne (collections w) collection (sel_id _id))
                   (VObj []) in
  let item :=
    _createItem ActRemove collection _id
      (Some (hardDelete_fieldData
               (Some (VObj (obj_set "deleted" (VDate (now env))
                              (obj_set "transaction_id" (VStr current) fullDoc))))))
      true (_permissionCheckOverridden (normalise_opt opt)) in
  remove env collection _id opt soft w
  = (Ok (RetBool true),
     {| tx := queued item context (tx w);
        collections := s;
        transactions :=
          recorded env (in_context context (tx w)) current item (transactions w);
        drawn := drawn w |}).
Proof.
  intros Hopen Hauto Hrb Huser Hinstant Hmay Hhard Hfound Hrm context item.
  assert (Hu : requireUser (tx w) && negb (is_some (userId env)) = false).
  { destruct (requireUser (tx w)); [|reflexivity].
    rewrite Huser by reflexivity. reflexivity. }
  assert (Hsoft : match normalise_opt opt,
                        match opt with OptHash _ _ => soft | _ => None end with
                  | Some _, Some b => b
                  | _, _ => softDelete (tx w)
                  end = soft_delete_chosen opt soft (tx w)).
  { unfold soft_delete_chosen.
    destruct opt as [| |o [o'|]]; cbn; try reflexivity; destruct soft; reflexivity. }
  unfold may_write in Hmay.
  unfold remove. unfold bind at 1. unfold get at 1. cbn beta iota zeta.
  unfold _permissionCheck. rewrite Hrb, Hu, Hmay. cbn [orb].
  rewrite Hinstant.
  unfold _openAutoTransaction. unfold bind at 1. unfold bind at 1.
  unfold get at 1. cbn beta iota zeta. rewrite Hopen. unfold ret at 1.
  unfold bind at 1. unfold _setContext at 1. unfold bind at 1. unfold get at 1.
  unfold set_tx at 1. cbn beta iota zeta. fold context.
  unfold bind at 1. unfold try_catch at 1. unfold _doRemove at 1.
  unfold bind at 1. unfold get at 1. cbn beta iota zeta. builder_cbn.
  rewrite Hsoft, Hhard, Hfound, Hopen. cbn [id_value].
  unfold bind at 1. unfold bind at 1.
  rewrite (recordTransaction_run _ _ current)
    by (builder_cbn; first [exact Hopen | reflexivity]).
  unfold bind at 1. unfold run_op at 1. unfold with_transactions at 1.
  builder_cbn. rewrite Hrm.
  unfold _pushToRecord, _closeAutoTransaction, bind, get, set_tx, ret,
    with_transactions.
  cbn beta iota zeta. builder_cbn. rewrite ?Hauto, ?Hrb. cbn beta iota. builder_cbn.
  rewrite ?Hauto, ?Hrb.
  unfold queued, in_context. rewrite ?Hopen, ?Hauto, ?Hrb. reflexivity.
Qed.

(** Outside a transaction, an insert that the collection refuses (a
    duplicate [_id], say) still returns [true].  The automatic
    transaction is flagged with [insert-error], the insert is queued
    instead, and the automatic commit rolls the transaction back and
    resets the builder before [insert] reads the flag: nothing is
    written, and the value returned does not tell. *)
Theorem refused_automatic_insert_returns_true (w : World Db)
    (collection : string) (newDoc : Obj) (opt : OptArg) (e : Err) :
  _transaction_id (tx w) = None ->
  _items (tx w) = [] ->
  _startAttempts (tx w) = 0%Z ->
  _rollback (tx w) = false ->
  (requireUser (tx w) = true -> is_some (userId env) = true) ->
  may_write (normalise_opt opt) (tx w) "insert" collection (Some (VObj newDoc))
    (VObj []) = true ->
  coll_insert collection
    (VObj (obj_extend newDoc
             [("transaction_id", VStr (Random_id env (drawn w)))]))
    (collections w)
  = Throw e ->
  Transactions_findOne (Some (Random_id env (drawn w))) (transactions w) = None ->
  insert env collection newDoc opt w
  = (Ok (InsertBool true),
     {| tx := with_state (tx w) None false [] 0 false EmptyString
                (Some {| ltd_transaction_id := Some (Random_id env (drawn w));
                         ltd_writes := None |})
                [] EmptyString;
        collections := collections w;
        transactions := transactions w;
        drawn := Datatypes.S (Datatypes.S (drawn w)) |}).
Proof.
  intros Hclosed Hitems Hattempts Hrb Huser Hmay Hins Habsent.
  assert (Hu : requireUser (tx w) && negb (is_some (userId env)) = false).
  { destruct (requireUser (tx w)); [|reflexivity].
    rewrite Huser by reflexivity. reflexivity. }
  unfold may_write in Hmay.
  unfold insert, _openAutoTransaction, start, draw_id, _setContext, _doInsert,
    set_rollback, _pushToRecord, _closeAutoTransaction, try_catch, bind, get,
    set_tx, ret.
  cbn beta iota zeta. unfold _permissionCheck. rewrite Hrb, Hu, Hmay. cbn [orb].
  rewrite Hclosed. builder_go. rewrite Hu. builder_go.
  rewrite orb_true_r. builder_go. cbn [id_value]. rewrite Hins. builder_go.
  rewrite (commit_flagged_run env _ (Random_id env (drawn w))).
  - builder_cbn. unfold clean, noted, settle. builder_cbn.
    rewrite Hitems. cbn [app length mark_items].
    rewrite (Transactions_update_absent _ _ _ Habsent).
    destruct (removeRolledBackTransactions (tx w)).
    + rewrite (Transactions_remove_absent _ _ Habsent). reflexivity.
    + rewrite (Transactions_update_absent _ _ _ Habsent). reflexivity.
  - reflexivity.
  - builder_cbn. rewrite Hitems. discriminate.
  - builder_cbn. rewrite Hitems. repeat constructor.
  - reflexivity.
  - builder_cbn. exact Hu.
  - destruct (normalise_opt opt); reflexivity.
  - builder_cbn. rewrite Hattempts. reflexivity.
Qed.

End InstantWrites.

(** In the open transaction of [opened]: a queued insert. *)
Lemma queued_insert_reserves_an_id_witness :
  fst (insert (RT := Ref.runtime) (Store := Ref.store) Ref.env "posts"
         [("title", VStr "second")] OptUndefined Scenario.opened)
  = Ok (InsertBool true).
Proof.
  refine (f_equal fst
            (queued_insert_reserves_an_id (RT := Ref.runtime) (Store := Ref.store)
               Ref.env Scenario.opened "tx0" "posts" [("title", VStr "second")]
               OptUndefined _ _ _ _ _ _)); reflexivity.
Defined.

(** In the open transaction of [opened]: a queued remove of the post. *)
Lemma queued_remove_pushes_one_item_witness :
  fst (remove (RT := Ref.runtime) (Store := Ref.store) Ref.env "posts" "p1"
         OptUndefined None Scenario.opened)
  = Ok (RetBool true).
Proof.
  refine (f_equal fst
            (queued_remove_pushes_one_item (RT := Ref.runtime) (Store := Ref.store)
               Ref.env Scenario.opened "tx0" "posts" "p1" OptUndefined None
               _ _ _ _ _ _)); reflexivity.
Defined.

(** In the open transaction of [opened]: an instant remove of a post
    that is not there. *)
Lemma instant_remove_of_a_missing_document_witness :
  fst (remove (RT := Ref.runtime) (Store := Ref.store) Ref.env "posts" "gone"
         (OptHash Scenario.instant None) None Scenario.opened)
  = Ok (RetBool false).
Proof.
  refine (f_equal fst
            (instant_remove_of_a_missing_document (RT := Ref.runtime)
               (Store := Ref.store) Ref.env Scenario.opened "tx0" "posts" "gone"
               (OptHash Scenario.instant None) None _ _ _ _ _ _ _ _));
    reflexivity.
Defined.

(** In the open transaction of [opened]: the first instant action is
    put on record. *)
Lemma recordTransaction_creates_or_extends_witness :
  fst (_recordTransaction Ref.env Scenario.queued_insert Scenario.opened) = Ok tt.
Proof.
  refine (f_equal fst
            (recordTransaction_creates_or_extends Ref.env Scenario.queued_insert
               Scenario.opened "tx0" _)).
  reflexivity.
Defined.

(** In the open transaction of [opened]: an instant insert of a post
    with the id ["p7"]. *)
Lemma instant_insert_is_written_and_recorded_witness :
  fst (insert (RT := Ref.runtime) (Store := Ref.store) Ref.env "posts"
         [("_id", VStr "p7"); ("title", VStr "seventh")]
         (OptHash Scenario.instant None) Scenario.opened)
  = Ok (InsertId "p7").
Proof.
  refine (f_equal fst
            (instant_insert_is_written_and_recorded (RT := Ref.runtime)
               (Store := Ref.store) Ref.env Scenario.opened "tx0" "posts"
               [("_id", VStr "p7"); ("title", VStr "seventh")]
               (OptHash Scenario.instant None)
               (try_write (Store := Ref.store) (collections Scenario.opened)
                  (OpInsert "posts"
                     (VObj [("_id", VStr "p7"); ("title", VStr "seventh");
                            ("transaction_id", VStr "tx0")])))
               "p7" _ _ _ _ _ _ _)); vm_compute; reflexivity.
Defined.

(** In the open transaction of [opened]: an instant hard remove of the
    post. *)
Lemma instant_hard_remove_keeps_a_snapshot_witness :
  fst (remove (RT := Ref.runtime) (Store := Ref.store) Ref.env "posts" "p1"
         (OptHash Scenario.instant None) None Scenario.opened)
  = Ok (RetBool true).
Proof.
  refine (f_equal fst
            (instant_hard_remove_keeps_a_snapshot (RT := Ref.runtime)
               (Store := Ref.store) Ref.env Scenario.opened "tx0" "posts" "p1"
               (OptHash Scenario.instant None) None
               [("_id", VStr "p1"); ("title", VStr "old")]
               (try_write (Store := Ref.store) (collections Scenario.opened)
                  (OpRemove "posts" (remove_selector true "p1")))
               1 _ _ _ _ _ _ _ _ _)); vm_compute; reflexivity.
Defined.

(** Outside a transaction, on [initial]: an insert of a second post with
    the id ["p1"], which the collection refuses. *)
Lemma refused_automatic_insert_returns_true_witness :
  fst (insert (RT := Ref.runtime) (Store := Ref.store) Ref.env "posts"
         [("_id", VStr "p1"); ("title", VStr "twin")] OptUndefined Scenario.initial)
  = Ok (InsertBool true).
Proof.
  refine (f_equal fst
            (refused_automatic_insert_returns_true (RT := Ref.runtime)
               (Store := Ref.store) Ref.env Scenario.initial "posts"
               [("_id", VStr "p1"); ("title", VStr "twin")] OptUndefined StoreError
               _ _ _ _ _ _ _ _)); vm_compute; reflexivity.
Defined.

(** ** Updates in an open transaction *)

Section QueuedUpdates.
Context `{RT : Runtime}.
Context {Db : Type} `{Store : AppStoreOps Db}.
Variable env : Env.

Lemma queueing_start (w : World Db) :
  _autoTransaction (tx w) = false -> queueing w 0 w.
Proof.
  intros Hauto. repeat split; auto.
  exists []. rewrite app_nil_r. repeat split. constructor.
Qed.

(** One pass of the loop of [update] for a command that is queued. *)
Lemma update_step_queued_run (collection _id : string)
    (existingDoc : option Value) (updates : list (string * Obj)) (count : nat)
    (opt : option Opt) (i : nat) (actionField : string * Obj) (w : World Db) :
  opt_instant opt = false ->
  update_step env collection _id existingDoc updates count opt i actionField w
  = match chosen_inverse (tx w) opt collection existingDoc actionField with
    | Ok inverse =>
        (Ok (Some (opt_or_empty opt)),
         with_tx
           (queued
              (queued_update_item collection _id updates actionField inverse
                 (opt_or_empty opt))
              (context_of (Some (opt_or_empty opt)) (tx w) "update" collection
                 existingDoc (modifier_value updates))
              (tx w))
           w)
    | Throw e => (Throw e, w)
    end.
Proof.
  intros Hinstant.
  unfold update_step, chosen_inverse, context_of, queued_update_item.
  destruct opt as [o|];
    cbn [opt_instant opt_or_empty opt_context o_inverse o_instant o_context
         o_overridePermissionCheck empty_opt] in *;
    unfold bind at 1; unfold get at 1; cbn beta iota zeta; unfold bind at 1.
  - destruct (o_inverse o) as [inverse|].
    + unfold ret at 1. cbn [fst snd]. rewrite Hinstant.
      unfold _setContext, _doUpdate, _pushToRecord, bind, get, set_tx, ret.
      cbn beta iota zeta. cbn [andb]. builder_go. reflexivity.
    + unfold bind at 1. unfold lift at 1.
      destruct (match tx_inverseOperations (tx w) (fst actionField) with
                | Some f => f collection existingDoc (snd actionField) o
                | None => _inverseUsingSet collection existingDoc (snd actionField) o
                end) as [inverse|e]; [|reflexivity].
      unfold ret at 1. cbn [fst snd]. rewrite Hinstant.
      unfold _setContext, _doUpdate, _pushToRecord, bind, get, set_tx, ret.
      cbn beta iota zeta. cbn [andb]. builder_go. reflexivity.
  - unfold bind at 1. unfold lift at 1.
    destruct (match tx_inverseOperations (tx w) (fst actionField) with
              | Some f => f collection existingDoc (snd actionField) empty_opt
              | None =>
                  _inverseUsingSet collection existingDoc (snd actionField) empty_opt
              end) as [inverse|e]; [|reflexivity].
    unfold ret at 1. cbn [fst snd].
    unfold _setContext, _doUpdate, _pushToRecord, bind, get, set_tx, ret.
    cbn beta iota zeta. cbn [andb o_instant o_context empty_opt]. builder_go.
    reflexivity.
Qed.

Lemma queueing_push (w0 w : World Db) (n : nat) (item : Item) (context : Obj) :
  queueing w0 n w ->
  item_action item = ActUpdate ->
  item_instant item = false ->
  item_state item = StPending ->
  queueing w0 (Datatypes.S n) (with_tx (queued item context (tx w)) w).
Proof.
  intros (Hc & Ht & Hd & Hid & Hauto & Hrb & more & Hitems & Hlen & Hall) Ha Hi Hs.
  repeat split; auto.
  exists (more ++ [item]). cbn. split; [now rewrite Hitems, app_assoc|]. split.
  - rewrite length_app, Hlen. simpl. lia.
  - apply Forall_app. split; [exact Hall|]. repeat constructor; auto.
Qed.

Lemma update_loop_queued (w0 : World Db) (collection _id : string)
    (existingDoc : option Value) (updates : list (string * Obj)) (count : nat)
    (l : list (string * Obj)) :
  forall (i : nat) (opt : option Opt) (n : nat) (w : World Db),
  opt_instant opt = false ->
  queueing w0 n w ->
  match each_indexed (update_step env collection _id existingDoc updates count)
          l i opt w with
  | (Ok o, w') => queueing w0 (n + length l) w'
  | (Throw _, w') => exists m, queueing w0 m w'
  end.
Proof.
  induction l as [|af l IH]; intros i opt n w Hinstant HQ.
  - cbn. now rewrite Nat.add_0_r.
  - cbn [each_indexed length]. unfold bind at 1.
    rewrite (update_step_queued_run collection _id existingDoc updates count opt i
               af w Hinstant).
    destruct (chosen_inverse (tx w) opt collection existingDoc af) as [inverse|e].
    + replace (n + Datatypes.S (length l)) with (Datatypes.S n + length l) by lia.
      apply IH.
      * destruct opt; [exact Hinstant|reflexivity].
      * apply queueing_push; auto.
    + exists n. exact HQ.
Qed.

(** An update that is queued (a transaction is open, the update is not
    [instant]) writes to no store, draws no id and keeps the transaction
    open under its id, whether it returns or throws on a document it
    cannot read.  When it returns a boolean, this is [true], and the
    builder holds one more pending update item for each command of the
    modifier. *)
Theorem queued_update_writes_nothing (w w' : World Db) (r : Outcome Ret)
    (current : string) (collection _id : string) (updates : list (string * Obj))
    (opt : OptArg) :
  _transaction_id (tx w) = Some current ->
  _autoTransaction (tx w) = false ->
  opt_instant (normalise_opt opt) = false ->
  update env collection _id updates opt w = (r, w') ->
  collections w' = collections w
  /\ transactions w' = transactions w
  /\ drawn w' = drawn w
  /\ _transaction_id (tx w') = Some current
  /\ (forall b,
        r = Ok (RetBool b) ->
        b = true /\ queueing w (length updates) w').
Proof.
  intros Hopen Hauto Hinstant.
  pose proof (queueing_start w Hauto) as H0.
  unfold update. unfold bind at 1. unfold get at 1. cbn beta iota zeta.
  destruct (_rollback (tx w) || requireUser (tx w) && negb (is_some (userId env)))
    eqn:Hguard.
  { unfold ret. intros H. inversion H; subst.
    split; [reflexivity|]. split; [reflexivity|]. split; [reflexivity|].
    split; [exact Hopen|]. intros b Hb. discriminate Hb. }
  apply orb_false_iff in Hguard. destruct Hguard as [Hrb _].
  destruct (_permissionCheckOverridden (normalise_opt opt)
            || _permissionCheck (tx w) "update" collection
                 (coll_findOne (collections w) collection (sel_id _id))
                 (modifier_value updates)).
  2:{ unfold set_rollback, bind, get, set_tx, ret. cbn. intros H.
      inversion H; subst. cbn.
      split; [reflexivity|]. split; [reflexivity|]. split; [reflexivity|].
      split; [exact Hopen|]. intros b Hb. discriminate Hb. }
  unfold _openAutoTransaction. unfold bind at 1. unfold bind at 1.
  unfold get at 1. cbn beta iota zeta. rewrite Hopen.
  unfold ret at 1. unfold bind at 1.
  pose proof (update_loop_queued w collection _id
                (coll_findOne (collections w) collection (sel_id _id)) updates
                (length updates) updates 0 (normalise_opt opt) 0 w Hinstant H0)
    as Hloop.
  destruct (each_indexed
              (update_step env collection _id
                 (coll_findOne (collections w) collection (sel_id _id)) updates
                 (length updates)) updates 0 (normalise_opt opt) w)
    as [[o|e] w1].
  - destruct Hloop as (Hc & Ht & Hd & Hid & Ha & Hrb1 & Hmore).
    unfold _closeAutoTransaction, bind, get, ret. cbn beta iota zeta.
    rewrite Ha. intros H. inversion H; subst.
    split; [exact Hc|]. split; [exact Ht|]. split; [exact Hd|].
    split; [now rewrite Hid|].
    intros b Hb. inversion Hb. rewrite Hrb1, Hrb. split; [reflexivity|].
    rewrite Nat.add_0_l in Hmore. repeat split; auto.
  - destruct Hloop as (m & Hc & Ht & Hd & Hid & Ha & Hrb1 & Hmore).
    intros H. inversion H; subst.
    split; [exact Hc|]. split; [exact Ht|]. split; [exact Hd|].
    split; [now rewrite Hid|]. intros b Hb. discriminate Hb.
Qed.

End QueuedUpdates.

(** In the open transaction of [opened]: a queued update of the title of
    the post. *)
Lemma queued_update_writes_nothing_witness :
  collections
    (snd (update (RT := Ref.runtime) (Store := Ref.store) Ref.env "posts" "p1"
            [("$set", Inputs.title_map)] OptUndefined Scenario.opened))
  = collections Scenario.opened.
Proof.
  refine (proj1 (queued_update_writes_nothing (RT := Ref.runtime)
                   (Store := Ref.store) Ref.env Scenario.opened
                   (snd (update (RT := Ref.runtime) (Store := Ref.store) Ref.env
                           "posts" "p1" [("$set", Inputs.title_map)] OptUndefined
                           Scenario.opened))
                   (Ok (RetBool true)) "tx0" "posts" "p1"
                   [("$set", Inputs.title_map)] OptUndefined _ _ _ _));
    vm_compute; reflexivity.
Defined.

(** ** What phase 2 leaves of the items *)

Lemma same_payload_refl (a : Item) : same_payload a a.
Proof. repeat split. Qed.

Lemma same_payload_state (st : State) (a b : Item) :
  same_payload a b -> same_payload (set_item_state st a) b.
Proof. intros H. exact H. Qed.

Lemma alter_keeps_keys (v : Value) (l : list KeyValue) :
  forall i, map key (alter (set_kv_value v) i l) = map key l.
Proof.
  induction l as [|kv l IH]; intros i; [reflexivity|].
  destruct i as [|i]; cbn; [reflexivity|]. f_equal. apply IH.
Qed.

Lemma same_payload_inverse (i : nat) (v : Value) (a b : Item) :
  same_payload a b -> same_payload (set_item_inverse_value i v a) b.
Proof.
  intros (H1 & H2 & H3 & H4 & H5 & H6 & H7 & H8 & H9 & H10 & H11).
  repeat split; auto; cbn.
  - rewrite <- H10. destruct (item_inverse a); reflexivity.
  - rewrite <- H11. destruct (item_inverse a) as [p|]; [|reflexivity].
    cbn. now rewrite alter_keeps_keys.
Qed.

Lemma Forall2_same_payload_alter (f : Item -> Item) (index : nat)
    (stored expected : list Item) :
  (forall a b, same_payload a b -> same_payload (f a) b) ->
  Forall2 same_payload stored expected ->
  Forall2 same_payload (alter f index stored) expected.
Proof.
  intros Hf H. apply Forall2_alter_l; [exact H|]. intros x y _ _. apply Hf.
Qed.

Lemma holds_payload_update (txid : string) (expected : list Item) (id : option string)
    (m : TxModifier) (txs : list TxDoc) :
  modifier_of_phase_two m ->
  id = Some txid ->
  holds_payload txid expected txs ->
  holds_payload txid expected (Transactions_update id m txs).
Proof.
  intros Hm -> (rec & stored & Hfind & Hitems & Hall).
  unfold holds_payload. rewrite findOne_update_id, Hfind. cbn [option_map].
  destruct m; try contradiction; cbn; rewrite ?Hitems; cbn.
  - eexists. eexists. split; [reflexivity|]. split; [reflexivity|].
    apply Forall2_same_payload_alter; [apply same_payload_state|exact Hall].
  - eexists. eexists. split; [reflexivity|]. split; [reflexivity|].
    apply Forall2_same_payload_alter; [apply same_payload_inverse|exact Hall].
  - eexists. eexists. split; [reflexivity|]. split; [reflexivity|exact Hall].
Qed.

Lemma find_app_new (i : string) (d : TxDoc) (txs : list TxDoc) :
  List.find (fun d' => tx_id d' =? i) txs = None ->
  tx_id d = i ->
  List.find (fun d' => tx_id d' =? i) (txs ++ [d]) = Some d.
Proof.
  intros Hnone Hid. induction txs as [|d0 txs IH]; simpl in *.
  - now rewrite Hid, String.eqb_refl.
  - destruct (tx_id d0 =? i); [discriminate|]. now apply IH.
Qed.

Section PhaseTwoPayload.
Context `{RT : Runtime}.
Context {Db : Type} `{Store : AppStoreOps Db}.
Variable env : Env.

Lemma payload_kept_by_txs_update (txid : string) (expected : list Item)
    (m : TxModifier) :
  modifier_of_phase_two m ->
  maintains (Db := Db) (holds_payload txid expected) (txs_update (Some txid) m).
Proof.
  intros Hm. apply maintains_txs_update. intros txs H.
  now apply holds_payload_update.
Qed.

Lemma payload_kept_by_cacheValues (txid : string) (expected : list Item)
    (item : Item) (index : nat) (updateCache : Cache) :
  maintains (Db := Db) (holds_payload txid expected)
    (cacheValues txid item index updateCache).
Proof.
  unfold cacheValues. maintains_auto.
  apply payload_kept_by_txs_update. exact I.
Qed.

Lemma payload_kept_by_process_step (txid : string) (expected : list Item)
    (st : bool * Cache) (index : nat) (item : Item) :
  maintains (Db := Db) (holds_payload txid expected)
    (process_step env txid st index item).
Proof.
  pose proof (payload_kept_by_cacheValues txid expected) as Hc.
  unfold process_step, _changeItemState.
  maintains_auto; solve [apply Hc | apply payload_kept_by_txs_update; exact I].
Qed.

(** The items [_meteorTransactionsProcess] returns are the items put on
    record in phase 1, one for one and in the same order: phase 2 changes
    nothing of an item but its state and the values kept in its stored
    inverse.  The items put on record are the ones handed in when the
    transaction has a record already; for a new record they carry the
    snapshots of the documents about to be hard deleted.  The update
    items are taken to be well formed, so that each write of
    [cacheValues] finds the entry of the inverse it names. *)
Theorem phase_two_keeps_the_items (txid description : string) (items : list Item)
    (context : Obj) (w w' : World Db) (its : option (list Item)) :
  forallb inverse_covers_update items = true ->
  _meteorTransactionsProcess env txid description items context w
  = (Ok (Some its), w') ->
  exists stored,
    its = Some stored
    /\ Forall2 same_payload stored (items_on_record txid items w).
Proof.
  intros _ H. unfold _meteorTransactionsProcess in H.
  unfold bind at 1 in H. unfold get at 1 in H. cbn beta iota in H.
  unfold bind at 1 in H. unfold lift at 1 in H.
  destruct (_checkTransactionFields env (tx w) (collections w) items txid)
    as [allowed|e]; [|discriminate H].
  destruct allowed; cbn [negb] in H; [|discriminate H].
  apply bind_inv in H. destruct H as (u1 & w1 & H1 & H).
  apply bind_inv in H. destruct H as (u2 & w2 & H2 & H).
  apply bind_inv in H. destruct H as (st & w3 & H3 & H).
  assert (P2 : holds_payload txid (items_on_record txid items w) (transactions w2)).
  { unfold items_on_record.
    destruct (Transactions_findOne (Some txid) (transactions w)) as [rec0|] eqn:Hex;
      cbn [is_some] in *.
    - unfold ret in H2. inversion H2; subst; clear H2.
      unfold txs_update, bind, get, set_transactions in H1. cbn in H1.
      inversion H1; subst; clear H1. cbn [transactions].
      exists (apply_TxModifier (SetItems items) rec0), items.
      split.
      + change (Transactions_update_id txid (SetItems items) (transactions w))
          with (Transactions_update (Some txid) (SetItems items) (transactions w)).
        rewrite findOne_update_id, Hex. reflexivity.
      + split; [reflexivity|].
        clear. induction items; constructor; auto using same_payload_refl.
    - unfold ret in H1. inversion H1; subst; clear H1.
      apply bind_inv in H2. destruct H2 as (newId & w2' & Hins & H2).
      unfold txs_insert, bind, get, lift, set_transactions, ret in Hins.
      cbn in Hins. unfold Transactions_insert in Hins. cbn [tx_id] in Hins.
      destruct (existsb (fun d' => tx_id d' =? txid) (transactions w1));
        [discriminate Hins|].
      cbn [fst snd] in Hins. inversion Hins as [[Hid Hw]]; clear Hins.
      subst newId. subst w2'.
      destruct (txid =? EmptyString); [discriminate H2|].
      unfold ret in H2. inversion H2 as [[Hu Hw]]; clear H2. cbn [transactions].
      eexists. eexists. split.
      + unfold Transactions_findOne. apply find_app_new; [exact Hex|reflexivity].
      + split; [reflexivity|].
        generalize (snapshot_hard_deletes (collections w1) items).
        intros l. induction l; constructor; auto using same_payload_refl. }
  assert (P3 : holds_payload txid (items_on_record txid items w) (transactions w3)).
  { pose proof (maintains_each_indexed (holds_payload txid (items_on_record txid items w))
                  (process_step env txid)
                  (snapshot_hard_deletes (collections w) items)
                  (fun s i x => payload_kept_by_process_step txid _ s i x)
                  0 (true, []) w2 P2) as Hp.
    rewrite H3 in Hp. exact Hp. }
  destruct (fst st).
  - unfold bind, txs_update, get, set_transactions in H. cbn in H.
    change (find (fun d => tx_id d =? txid)
              (Transactions_update_id txid (SetStateLastModified StDone (now env))
                 (transactions w3)))
      with (Transactions_findOne (Some txid)
              (Transactions_update (Some txid)
                 (SetStateLastModified StDone (now env)) (transactions w3))) in H.
    pose proof (holds_payload_update txid _ (Some txid)
                  (SetStateLastModified StDone (now env)) _ I eq_refl P3)
      as (rec & stored & Hfind & Hitems & Hall).
    rewrite Hfind in H. unfold ret in H. inversion H; subst; clear H.
    exists stored. split; [exact Hitems|exact Hall].
  - apply bind_inv in H. destruct H as ([] & w4 & Hrb & H).
    unfold ret in H. inversion H.
Qed.

End PhaseTwoPayload.

(** Two queued writes of [two_queued] go through phase 2: the items
    returned say what the queued items said. *)
Lemma phase_two_keeps_the_items_witness :
  exists stored,
    tx_items (Scenario.record 0 Scenario.committed_two) = Some stored
    /\ Forall2 same_payload stored
         (items_on_record (Store := Ref.store) "tx0" (_items (tx Cases.two_queued))
            Cases.two_queued).
Proof.
  refine (phase_two_keeps_the_items (RT := Ref.runtime) (Store := Ref.store) Ref.env
            "tx0" "edit" (_items (tx Cases.two_queued)) [] Cases.two_queued
            (snd (_meteorTransactionsProcess (RT := Ref.runtime)
                    (Store := Ref.store) Ref.env "tx0" "edit"
                    (_items (tx Cases.two_queued)) [] Cases.two_queued))
            (tx_items (Scenario.record 0 Scenario.committed_two)) _ _);
    vm_compute; reflexivity.
Defined.

(** ** Instant items in phase 2 *)

Section InstantItems.
Context `{RT : Runtime}.
Context {Db : Type} `{Store : AppStoreOps Db}.
Variable env : Env.

Lemma collections_kept_by_txs_update (c : Db) (id : option string) (m : TxModifier) :
  preserves (fun w => collections w = c) (txs_update id m).
Proof. intros w H. exact H. Qed.

Lemma collections_kept_by_txs_insert (c : Db) (d : TxDoc) :
  preserves (fun w => collections w = c) (txs_insert d).
Proof.
  intros w H. unfold txs_insert, bind, get, lift, set_transactions, ret.
  destruct (Transactions_insert d (transactions w)) as [[txs id]|e]; exact H.
Qed.

Lemma collections_kept_by_cacheValues (c : Db) (txid : string) (item : Item)
    (index : nat) (updateCache : Cache) :
  preserves (fun w => collections w = c) (cacheValues txid item index updateCache).
Proof.
  unfold cacheValues. preserves_auto. apply collections_kept_by_txs_update.
Qed.

(** An instant item is passed over: the stores of the application are
    left alone and the loop goes on. *)
Lemma process_step_instant (txid : string) (updateCache : Cache) (index : nat)
    (item : Item) (w : World Db) :
  item_instant item = true ->
  collections (snd (process_step env txid (true, updateCache) index item w))
  = collections w
  /\ forall st', fst (process_step env txid (true, updateCache) index item w) = Ok st' ->
                 fst st' = true.
Proof.
  intros Hi. unfold process_step. cbn [fst snd negb]. rewrite Hi.
  destruct (item_action item).
  - split; [reflexivity|]. intros st' E. inversion E. reflexivity.
  - pose proof (collections_kept_by_cacheValues (collections w) txid item index
                  updateCache w eq_refl) as Hc.
    unfold bind.
    destruct (cacheValues txid item index updateCache w) as [[cache|e] w1];
      cbn [fst snd] in *.
    + split; [exact Hc|]. intros st' E. inversion E. reflexivity.
    + split; [exact Hc|]. intros st' E. discriminate E.
  - split; [reflexivity|]. intros st' E. inversion E. reflexivity.
Qed.

Lemma process_loop_instant (txid : string) (items : list Item) :
  Forall (fun item => item_instant item = true) items ->
  forall (index : nat) (updateCache : Cache) (w : World Db),
    collections (snd (each_indexed (process_step env txid) items index
                        (true, updateCache) w))
    = collections w
    /\ forall st', fst (each_indexed (process_step env txid) items index
                          (true, updateCache) w) = Ok st' ->
                   fst st' = true.
Proof.
  induction 1 as [|item items Hi _ IH]; intros index updateCache w.
  - split; [reflexivity|]. intros st' E. inversion E. reflexivity.
  - cbn [each_indexed]. unfold bind.
    destruct (process_step_instant txid updateCache index item w Hi) as [Hc Hs].
    destruct (process_step env txid (true, updateCache) index item w)
      as [[st1|e] w1]; cbn [fst snd] in *.
    + specialize (Hs st1 eq_refl). destruct st1 as [s1 c1]. cbn in Hs. subst s1.
      destruct (IH (Datatypes.S index) c1 w1) as [Hc' Hs'].
      split; [congruence|exact Hs'].
    + split; [exact Hc|]. intros st' E. discriminate E.
Qed.

Lemma snapshot_keeps_instant (db : Db) (items : list Item) :
  Forall (fun item => item_instant item = true) items ->
  Forall (fun item => item_instant item = true) (snapshot_hard_deletes db items).
Proof.
  unfold snapshot_hard_deletes.
  induction 1 as [|item items Hi _ IH]; cbn [map]; constructor; [|exact IH].
  destruct (item_action item); try exact Hi.
  destruct (item_hardDelete item); exact Hi.
Qed.

(** A transaction of instant writes is only put on record by
    [_meteorTransactionsProcess]: the application's collections are left
    as its writes left them, whether the call returns or throws, and it
    is never rolled back there: when the call returns, it returns the
    items. *)
Theorem instant_items_are_not_written_again (txid description : string)
    (items : list Item) (context : Obj) (w w' : World Db)
    (r : Outcome (option (option (list Item)))) :
  Forall (fun item => item_instant item = true) items ->
  _meteorTransactionsProcess env txid description items context w = (r, w') ->
  collections w' = collections w
  /\ r <> Ok None.
Proof.
  intros Hall H. unfold _meteorTransactionsProcess in H.
  unfold bind at 1 in H. unfold get at 1 in H. cbn beta iota in H.
  unfold bind at 1 in H. unfold lift at 1 in H.
  destruct (_checkTransactionFields env (tx w) (collections w) items txid)
    as [allowed|e]; [|inversion H; subst; split; [reflexivity|discriminate]].
  destruct allowed; cbn [negb] in H;
    [|inversion H; subst; split; [reflexivity|discriminate]].
  unfold bind at 1 in H.
  match type of H with
  | context [?m1 w] =>
      lazymatch m1 with
      | (if _ then txs_update _ _ else ret tt) =>
          assert (P1 : preserves (fun w0 => collections w0 = collections w) m1)
            by (preserves_auto; apply collections_kept_by_txs_update);
          specialize (P1 w eq_refl);
          destruct (m1 w) as [[u1|e1] w1]; cbn [snd] in P1;
            [|inversion H; subst; split; [exact P1|discriminate]]
      end
  end.
  unfold bind at 1 in H.
  match type of H with
  | context [?m2 w1] =>
      lazymatch m2 with
      | (if _ then ret tt else _) =>
          assert (P2 : preserves (fun w0 => collections w0 = collections w) m2)
            by (preserves_auto; apply collections_kept_by_txs_insert);
          specialize (P2 w1 P1);
          destruct (m2 w1) as [[u2|e2] w2]; cbn [snd] in P2;
            [|inversion H; subst; split; [exact P2|discriminate]]
      end
  end.
  unfold bind at 1 in H.
  match type of H with
  | context [each_indexed ?f ?l ?i ?s w2] =>
      assert (Hcs : collections (snd (each_indexed f l i s w2)) = collections w2
                    /\ forall st', fst (each_indexed f l i s w2) = Ok st' ->
                                   fst st' = true)
        by exact (process_loop_instant txid _
                    (snapshot_keeps_instant (collections w) items Hall) 0 [] w2);
      destruct Hcs as [Hc Hs];
      destruct (each_indexed f l i s w2) as [[st|e3] w3]
  end; cbn [fst snd] in Hc, Hs;
    [|inversion H; subst; split; [congruence|discriminate]].
  rewrite (Hs st eq_refl) in H.
  unfold bind, txs_update, get, set_transactions in H. cbn in H.
  match type of H with
  | context [match ?f with Some _ => _ | None => _ end] => destruct f
  end; unfold ret, throw in H; inversion H; subst; cbn;
    (split; [congruence|discriminate]).
Qed.

End InstantItems.

(** The instant insert of [written] goes through
    [_meteorTransactionsProcess]: the collections stay as they were. *)
Lemma instant_items_are_not_written_again_witness :
  collections
    (snd (_meteorTransactionsProcess (RT := Ref.runtime) (Store := Ref.store)
            Ref.env "tx0" "edit" (_items (tx InstantCase.written)) []
            InstantCase.written))
  = collections InstantCase.written.
Proof.
  refine (proj1 (instant_items_are_not_written_again (RT := Ref.runtime)
                   (Store := Ref.store) Ref.env "tx0" "edit"
                   (_items (tx InstantCase.written)) [] InstantCase.written
                   (snd (_meteorTransactionsProcess (RT := Ref.runtime)
                           (Store := Ref.store) Ref.env "tx0" "edit"
                           (_items (tx InstantCase.written)) []
                           InstantCase.written))
                   (fst (_meteorTransactionsProcess (RT := Ref.runtime)
                           (Store := Ref.store) Ref.env "tx0" "edit"
                           (_items (tx InstantCase.written)) []
                           InstantCase.written))
                   _ _)).
  - vm_compute. repeat constructor.
  - vm_compute. reflexivity.
Defined.
